(** * The colour-space engine of pdf.js

    A shallow embedding of the ColorSpace classes found in
    src/examples/jotform/pdf-jotform-image.js (the colour spaces, their
    parser, and the raster fill and resize routines), with the properties of
    the specification stated and settled against it.

    Conventions of the embedding.
    - A JavaScript Number that takes part in colour arithmetic is a binary64
      float ([PrimFloat.float], the IEEE 754 format of the language).
    - Offsets, counts, bit depths, [alpha01], component counts and the
      elements of the integer typed arrays (Uint8Array, Uint16Array,
      Uint8ClampedArray) are integers in [Z].
    - An element read outside an array is [undefined]; used as a Number it
      is NaN.  A store outside a typed array is dropped.
    - Every mutable buffer is passed in and returned; a thrown exception
      carries the destination buffer as it was when the exception left.
    - [OutOfModel] marks the behaviours that the embedding does not follow:
      an index or an offset with a fractional part, a descriptor entry of
      another type than the PDF format gives it, a recursion bound. *)

From Stdlib Require Import ZArith Bool String List Floats Lia.
Import ListNotations.

Set Warnings "-inexact-float,-register-all".
Local Open Scope Z_scope.

(** ** The host language: Numbers, conversions, typed arrays *)

Module JS.

(** The Number with the value of an integer (round to nearest even where
    the integer has more than 53 bits). *)
Definition Z2F (z : Z) : float :=
  SF2Prim (binary_normalize prec emax z 0 false).

(** ToIntegerOrInfinity, with the infinities mapped to 0 as every caller
    here (ToUint8, ToUint16, ToInt32) does. *)
Definition ToInteger (x : float) : Z :=
  match Prim2SF x with
  | S754_finite s m e =>
      let a := if 0 <=? e then Zpos m * 2 ^ e else Zpos m / 2 ^ (- e) in
      if s then - a else a
  | _ => 0
  end.

Definition ToUint8 (x : float) : Z := ToInteger x mod 256.
Definition ToUint16 (x : float) : Z := ToInteger x mod 65536.

Definition ToInt32Z (z : Z) : Z :=
  let m := z mod 2 ^ 32 in if 2 ^ 31 <=? m then m - 2 ^ 32 else m.

(** [x | 0] *)
Definition or0 (x : float) : float := Z2F (ToInt32Z (ToInteger x)).

(** [a << b] on integers. *)
Definition shl (a b : Z) : Z := ToInt32Z (Z.shiftl (ToInt32Z a) (b mod 32)).

(** ToUint8Clamp of ECMA-262, on the exact value of the double: NaN and
    everything [<= 0] give 0, everything [>= 255] gives 255, the rest is
    rounded to the nearest integer, ties to even. *)
Definition ToUint8Clamp (x : float) : Z :=
  match Prim2SF x with
  | S754_nan => 0
  | S754_zero _ => 0
  | S754_infinity s => if s then 0 else 255
  | S754_finite true _ _ => 0
  | S754_finite false m e =>
      if 0 <=? e then
        (if 255 <=? Zpos m * 2 ^ e then 255 else Zpos m * 2 ^ e)
      else
        let d := 2 ^ (- e) in
        if 255 * d <=? Zpos m then 255
        else
          let f := Zpos m / d in
          let r2 := 2 * (Zpos m mod d) in
          if d <? r2 then f + 1
          else if r2 <? d then f
          else if Z.even f then f else f + 1
  end.

(** The integer a Number denotes, when it denotes one ([-0] is 0). *)
Definition F2Z (x : float) : option Z :=
  match Prim2SF x with
  | S754_zero _ => Some 0
  | S754_finite s m e =>
      if 0 <=? e then Some (if s then - (Zpos m * 2 ^ e) else Zpos m * 2 ^ e)
      else if Zpos m mod 2 ^ (- e) =? 0
           then Some (if s then - (Zpos m / 2 ^ (- e)) else Zpos m / 2 ^ (- e))
           else None
  | _ => None
  end.

(** Math.fround: the store conversion of a Float32Array. *)
Definition fround (x : float) : float :=
  match Prim2SF x with
  | S754_finite s m e => SF2Prim (binary_round 24 128 s m e)
  | _ => x
  end.

Definition Math_floor (x : float) : float :=
  match Prim2SF x with
  | S754_finite s m e =>
      if 0 <=? e then x
      else
        let d := 2 ^ (- e) in
        if s then
          (let q := (Zpos m + d - 1) / d in
           if q =? 0 then neg_zero else Z2F (- q))
        else Z2F (Zpos m / d)
  | _ => x
  end.

Definition Math_sqrt (x : float) : float := PrimFloat.sqrt x.

Definition Math_max (a b : float) : float :=
  if is_nan a || is_nan b then nan
  else if (a <? b)%float then b
  else if (b <? a)%float then a
  else if get_sign a then b else a.

Definition Math_min (a b : float) : float :=
  if is_nan a || is_nan b then nan
  else if (a <? b)%float then a
  else if (b <? a)%float then b
  else if get_sign a then a else b.

(** [a === b] and [a !== b] on Numbers. *)
Definition seq (a b : float) : bool := (a =? b)%float.
Definition sneq (a b : float) : bool := negb (a =? b)%float.

(** Truthiness of a Number: [0], [-0] and NaN are falsy. *)
Definition truthy (a : float) : bool := negb (is_nan a || is_zero a).

(** *** Arrays *)

(** [a[i]]; [None] is [undefined]. *)
Definition get {A : Type} (a : list A) (i : Z) : option A :=
  if i <? 0 then None else nth_error a (Z.to_nat i).

(** [a[i] = v] on a typed array, the value already converted. *)
Definition put {A : Type} (a : list A) (i : Z) (v : A) : list A :=
  if (0 <=? i) && (i <? Z.of_nat (length a))
  then firstn (Z.to_nat i) a ++ v :: skipn (S (Z.to_nat i)) a
  else a.

(** An element of an integer typed array, and of an array of Numbers,
    used as a Number. *)
Definition NumZ (v : option Z) : float :=
  match v with Some z => Z2F z | None => nan end.
Definition NumF (v : option float) : float :=
  match v with Some x => x | None => nan end.

(** [a.subarray(b, e)] *)
Definition subarray {A : Type} (a : list A) (b e : Z) : list A :=
  let len := Z.of_nat (length a) in
  let bi := if b <? 0 then Z.max (len + b) 0 else Z.min b len in
  let ei := if e <? 0 then Z.max (len + e) 0 else Z.min e len in
  firstn (Z.to_nat (Z.max (ei - bi) 0)) (skipn (Z.to_nat bi) a).

End JS.

(** A Uint8ClampedArray, a Uint8Array or a Uint16Array. *)
Definition bytes := list Z.

(** [dest[i] = x] where [dest] is a Uint8ClampedArray. *)
Definition store8c (dest : bytes) (i : Z) (x : float) : bytes :=
  JS.put dest i (JS.ToUint8Clamp x).

(** What a call can throw. *)
Inductive exn : Type :=
| FormatError (msg : string)
| UnreachableError (msg : string)
| RangeError (msg : string)
| TypeError (msg : string)
| OutOfModel (msg : string).

(** ** ColorSpace.isDefaultDecode (static) *)

(** The loop [for (i = 0; i < ii; i += 2)] over the remaining elements: one
    pair per turn; a last unpaired element is compared with an [undefined]
    partner, which is not 1. *)
Fixpoint isDefaultDecode_loop (decode : list float) : bool :=
  match decode with
  | [] => true
  | d0 :: [] => false
  | d0 :: d1 :: rest =>
      if JS.sneq d0 0 || JS.sneq d1 1 then false
      else isDefaultDecode_loop rest
  end.

(** [decode] is [None] when the argument is not an array (null, absent).
    The result carries the warnings emitted. *)
Definition isDefaultDecode (decode : option (list float)) (n : Z)
  : bool * list string :=
  match decode with
  | None => (true, [])
  | Some d =>
      if negb (n * 2 =? Z.of_nat (length d))
      then (true, ["The decode map is not the correct length"%string])
      else (isDefaultDecode_loop d, [])
  end.

(** The array [0, 1, 0, 1, ...] with [n] pairs. *)
Fixpoint default_decode (n : nat) : list float :=
  match n with
  | O => []
  | S k => 0%float :: 1%float :: default_decode k
  end.

(** [d] has the alternating pattern: every even position holds a Number
    equal to 0 and every odd position a Number equal to 1. *)
Fixpoint alternating01 (d : list float) : Prop :=
  match d with
  | [] => True
  | d0 :: [] => False
  | d0 :: d1 :: rest => JS.seq d0 0 = true /\ JS.seq d1 1 = true /\ alternating01 rest
  end.


(** ** The colour spaces *)

Module CalGray.
Record t : Type := mk
  { XW : float; YW : float; ZW : float;
    XB : float; YB : float; ZB : float;
    G : float }.
End CalGray.

Module CalRGB.
Record t : Type := mk
  { whitePoint : list float; blackPoint : list float;
    GR : float; GG : float; GB : float;
    MXA : float; MYA : float; MZA : float;
    MXB : float; MYB : float; MZB : float;
    MXC : float; MYC : float; MZC : float }.
End CalRGB.

Module Lab.
Record t : Type := mk
  { XW : float; YW : float; ZW : float;
    amin : float; amax : float; bmin : float; bmax : float;
    XB : float; YB : float; ZB : float }.
End Lab.

(** The tint function of a Separation or DeviceN space, an external
    collaborator: called as [tintFn(src, srcOffset, dest, destOffset)], it
    yields the Numbers it stores at [dest[destOffset]], [dest[destOffset+1]],
    ... *)
Definition TintFn : Type := list float -> Z -> list float.

(** The classes that extend ColorSpace.  An AlternateCS carries its scratch
    buffer [tmpBuf] (a Float32Array of [base.numComps] elements). *)
Inductive ColorSpace : Type :=
| DeviceGrayCS
| DeviceRgbCS
| DeviceCmykCS
| CalGrayCS (p : CalGray.t)
| CalRGBCS (p : CalRGB.t)
| LabCS (p : Lab.t)
| IndexedCS (base : ColorSpace) (highVal : Z) (lookup : bytes)
| AlternateCS (numComps : Z) (base : ColorSpace) (tintFn : TintFn)
              (tmpBuf : list float)
| PatternCS (base : option ColorSpace).

Definition name (cs : ColorSpace) : string :=
  match cs with
  | DeviceGrayCS => "DeviceGray"
  | DeviceRgbCS => "DeviceRGB"
  | DeviceCmykCS => "DeviceCMYK"
  | CalGrayCS _ => "CalGray"
  | CalRGBCS _ => "CalRGB"
  | LabCS _ => "Lab"
  | IndexedCS _ _ _ => "Indexed"
  | AlternateCS _ _ _ _ => "Alternate"
  | PatternCS _ => "Pattern"
  end.

(** [this.numComps]; [None] is the [null] of a PatternCS. *)
Definition numComps (cs : ColorSpace) : option Z :=
  match cs with
  | DeviceGrayCS => Some 1
  | DeviceRgbCS => Some 3
  | DeviceCmykCS => Some 4
  | CalGrayCS _ => Some 1
  | CalRGBCS _ => Some 3
  | LabCS _ => Some 3
  | IndexedCS _ _ _ => Some 1
  | AlternateCS n _ _ _ => Some n
  | PatternCS _ => None
  end.

(** A component count inside arithmetic: [null] counts as 0. *)
Definition countOf (n : option Z) : Z :=
  match n with Some z => z | None => 0 end.

(** [isPassthrough(bits)]: only DeviceRgbCS overrides the inherited
    [return false]. *)
Definition isPassthrough (cs : ColorSpace) (bits : Z) : bool :=
  match cs with
  | DeviceRgbCS => bits =? 8
  | _ => false
  end.

(** [usesZeroToOneRange]: only LabCS overrides the inherited [true]. *)
Definition usesZeroToOneRange (cs : ColorSpace) : bool :=
  match cs with
  | LabCS _ => false
  | _ => true
  end.

(** How a conversion ends: normally, or by an exception; either way with
    the destination buffer as the call left it. *)
Inductive completion : Type :=
| Normal (dest : bytes)
| Abrupt (e : exn) (dest : bytes).

Definition dest_of (c : completion) : bytes :=
  match c with Normal d => d | Abrupt _ d => d end.

(** A source array read as Numbers. *)
Definition numbers : Type := Z -> float.
Definition ofInts (src : list Z) : numbers := fun i => JS.NumZ (JS.get src i).
Definition ofFloats (src : list float) : numbers := fun i => JS.NumF (JS.get src i).

(** [new Uint8ClampedArray(n)], [new Float32Array(n)] for [0 <= n]. *)
Definition zeros (n : Z) : bytes := repeat 0 (Z.to_nat n).
Definition fzeros (n : Z) : list float := repeat 0%float (Z.to_nat n).

(** [a[i] = x] where [a] is a Float32Array. *)
Definition storeF32 (a : list float) (i : Z) (x : float) : list float :=
  JS.put a i (JS.fround x).

(** Storing a run of Numbers from position [i] on. *)
Fixpoint storeF32_run (a : list float) (i : Z) (xs : list float) : list float :=
  match xs with
  | [] => a
  | x :: rest => storeF32_run (storeF32 a i x) (i + 1) rest
  end.

(** [dest.set(source, offset)] from an integer typed array into a
    Uint8ClampedArray. *)
Fixpoint set_run (dest : bytes) (i : Z) (source : list Z) : bytes :=
  match source with
  | [] => dest
  | v :: rest => set_run (store8c dest i (JS.Z2F v)) (i + 1) rest
  end.

Definition typed_set (dest : bytes) (source : list Z) (offset : Z) : completion :=
  if (offset <? 0) || (Z.of_nat (length dest) <? Z.of_nat (length source) + offset)
  then Abrupt (RangeError "offset is out of bounds") dest
  else Normal (set_run dest offset source).

(** *** DeviceGray *)

Definition DeviceGray_getRgbItem (src : list float) (srcOffset : Z)
    (dest : bytes) (destOffset : Z) : bytes :=
  let c := (JS.NumF (JS.get src srcOffset) * 255)%float in
  let dest := store8c dest (destOffset + 2) c in
  let dest := store8c dest (destOffset + 1) c in
  store8c dest destOffset c.

Fixpoint DeviceGray_loop (scale : float) (src : list Z) (alpha01 : Z)
    (n : nat) (j q : Z) (dest : bytes) : bytes :=
  match n with
  | O => dest
  | S n' =>
      let c := (scale * JS.NumZ (JS.get src j))%float in
      let dest := store8c dest q c in
      let dest := store8c dest (q + 1) c in
      let dest := store8c dest (q + 2) c in
      DeviceGray_loop scale src alpha01 n' (j + 1) (q + 3 + alpha01) dest
  end.

Definition DeviceGray_getRgbBuffer (src : list Z) (srcOffset count : Z)
    (dest : bytes) (destOffset bits alpha01 : Z) : bytes :=
  let scale := (255 / JS.Z2F (JS.shl 1 bits - 1))%float in
  DeviceGray_loop scale src alpha01 (Z.to_nat count) srcOffset destOffset dest.

(** *** DeviceRGB *)

Definition DeviceRgb_getRgbItem (src : list float) (srcOffset : Z)
    (dest : bytes) (destOffset : Z) : bytes :=
  let dest := store8c dest destOffset
                (JS.NumF (JS.get src srcOffset) * 255)%float in
  let dest := store8c dest (destOffset + 1)
                (JS.NumF (JS.get src (srcOffset + 1)) * 255)%float in
  store8c dest (destOffset + 2)
    (JS.NumF (JS.get src (srcOffset + 2)) * 255)%float.

Fixpoint DeviceRgb_loop (scale : float) (src : list Z) (alpha01 : Z)
    (n : nat) (j q : Z) (dest : bytes) : bytes :=
  match n with
  | O => dest
  | S n' =>
      let dest := store8c dest q (scale * JS.NumZ (JS.get src j))%float in
      let dest := store8c dest (q + 1) (scale * JS.NumZ (JS.get src (j + 1)))%float in
      let dest := store8c dest (q + 2) (scale * JS.NumZ (JS.get src (j + 2)))%float in
      DeviceRgb_loop scale src alpha01 n' (j + 3) (q + 3 + alpha01) dest
  end.

Definition DeviceRgb_getRgbBuffer (src : list Z) (srcOffset count : Z)
    (dest : bytes) (destOffset bits alpha01 : Z) : completion :=
  if (bits =? 8) && (alpha01 =? 0) then
    typed_set dest (JS.subarray src srcOffset (srcOffset + count * 3)) destOffset
  else
    let scale := (255 / JS.Z2F (JS.shl 1 bits - 1))%float in
    Normal (DeviceRgb_loop scale src alpha01 (Z.to_nat count) srcOffset destOffset dest).

(** *** DeviceCMYK *)

Definition DeviceCmyk_convertToRgb (src : numbers) (srcOffset : Z)
    (srcScale : float) (dest : bytes) (destOffset : Z) : bytes :=
  let c := (src srcOffset * srcScale)%float in
  let m := (src (srcOffset + 1)%Z * srcScale)%float in
  let y := (src (srcOffset + 2)%Z * srcScale)%float in
  let k := (src (srcOffset + 3)%Z * srcScale)%float in
  let dest := store8c dest destOffset
    (255 +
      c * (-4.387332384609988 * c + 54.48615194189176 * m +
           18.82290502165302 * y + 212.25662451639585 * k +
           -285.2331026137004) +
      m * (1.7149763477362134 * m - 5.6096736904047315 * y +
           -17.873870861415444 * k - 5.497006427196366) +
      y * (-2.5217340131683033 * y - 21.248923337353073 * k +
           17.5119270841813) +
      k * (-21.86122147463605 * k - 189.48180835922747))%float in
  let dest := store8c dest (destOffset + 1)
    (255 +
      c * (8.841041422036149 * c + 60.118027045597366 * m +
           6.871425592049007 * y + 31.159100130055922 * k +
           -79.2970844816548) +
      m * (-15.310361306967817 * m + 17.575251261109482 * y +
           131.35250912493976 * k - 190.9453302588951) +
      y * (4.444339102852739 * y + 9.8632861493405 * k - 24.86741582555878) +
      k * (-20.737325471181034 * k - 187.80453709719578))%float in
  store8c dest (destOffset + 2)
    (255 +
      c * (0.8842522430003296 * c + 8.078677503112928 * m +
           30.89978309703729 * y - 0.23883238689178934 * k +
           -14.183576799673286) +
      m * (10.49593273432072 * m + 63.02378494754052 * y +
           50.606957656360734 * k - 112.23884253719248) +
      y * (0.03296041114873217 * y + 115.60384449646641 * k +
           -193.58209356861505) +
      k * (-22.33816807309886 * k - 180.12613974708367))%float.

Definition DeviceCmyk_getRgbItem (src : list float) (srcOffset : Z)
    (dest : bytes) (destOffset : Z) : bytes :=
  DeviceCmyk_convertToRgb (ofFloats src) srcOffset 1 dest destOffset.

Fixpoint DeviceCmyk_loop (scale : float) (src : list Z) (alpha01 : Z)
    (n : nat) (srcOffset destOffset : Z) (dest : bytes) : bytes :=
  match n with
  | O => dest
  | S n' =>
      let dest := DeviceCmyk_convertToRgb (ofInts src) srcOffset scale dest destOffset in
      DeviceCmyk_loop scale src alpha01 n' (srcOffset + 4) (destOffset + (3 + alpha01)) dest
  end.

Definition DeviceCmyk_getRgbBuffer (src : list Z) (srcOffset count : Z)
    (dest : bytes) (destOffset bits alpha01 : Z) : bytes :=
  let scale := (1 / JS.Z2F (JS.shl 1 bits - 1))%float in
  DeviceCmyk_loop scale src alpha01 (Z.to_nat count) srcOffset destOffset dest.

(** *** Lab *)

Definition Lab_fn_g (x : float) : float :=
  if (6 / 29 <=? x)%float then (x * x * x)%float
  else ((108 / 841) * (x - 4 / 29))%float.

Definition Lab_decode (value high1 low2 high2 : float) : float :=
  (low2 + value * (high2 - low2) / high1)%float.

(** [maxVal] is [None] for the [false] that [getRgbItem] passes. *)
Definition Lab_convertToRgb (cs : Lab.t) (src : numbers) (srcOffset : Z)
    (maxVal : option float) (dest : bytes) (destOffset : Z) : bytes :=
  let Ls := src srcOffset in
  let as_ := src (srcOffset + 1) in
  let bs := src (srcOffset + 2) in
  let '(Ls, as_, bs) :=
    match maxVal with
    | Some mv => (Lab_decode Ls mv 0 100,
                  Lab_decode as_ mv (Lab.amin cs) (Lab.amax cs),
                  Lab_decode bs mv (Lab.bmin cs) (Lab.bmax cs))
    | None => (Ls, as_, bs)
    end in
  let as_ := if (Lab.amax cs <? as_)%float then Lab.amax cs
             else if (as_ <? Lab.amin cs)%float then Lab.amin cs else as_ in
  let bs := if (Lab.bmax cs <? bs)%float then Lab.bmax cs
            else if (bs <? Lab.bmin cs)%float then Lab.bmin cs else bs in
  let M := ((Ls + 16) / 116)%float in
  let L := (M + (as_ / 500))%float in
  let N := (M - (bs / 200))%float in
  let X := (Lab.XW cs * Lab_fn_g L)%float in
  let Y := (Lab.YW cs * Lab_fn_g M)%float in
  let Z_ := (Lab.ZW cs * Lab_fn_g N)%float in
  let '(r, g, b) :=
    if (Lab.ZW cs <? 1)%float then
      ((X * 3.1339 + Y * -1.6170 + Z_ * -0.4906)%float,
       (X * -0.9785 + Y * 1.9160 + Z_ * 0.0333)%float,
       (X * 0.0720 + Y * -0.2290 + Z_ * 1.4057)%float)
    else
      ((X * 3.2406 + Y * -1.5372 + Z_ * -0.4986)%float,
       (X * -0.9689 + Y * 1.8758 + Z_ * 0.0415)%float,
       (X * 0.0557 + Y * -0.2040 + Z_ * 1.0570)%float) in
  let dest := store8c dest destOffset (JS.Math_sqrt r * 255)%float in
  let dest := store8c dest (destOffset + 1) (JS.Math_sqrt g * 255)%float in
  store8c dest (destOffset + 2) (JS.Math_sqrt b * 255)%float.

Definition Lab_getRgbItem (cs : Lab.t) (src : list float) (srcOffset : Z)
    (dest : bytes) (destOffset : Z) : bytes :=
  Lab_convertToRgb cs (ofFloats src) srcOffset None dest destOffset.

Fixpoint Lab_loop (cs : Lab.t) (maxVal : float) (src : list Z) (alpha01 : Z)
    (n : nat) (srcOffset destOffset : Z) (dest : bytes) : bytes :=
  match n with
  | O => dest
  | S n' =>
      let dest := Lab_convertToRgb cs (ofInts src) srcOffset (Some maxVal) dest destOffset in
      Lab_loop cs maxVal src alpha01 n' (srcOffset + 3) (destOffset + (3 + alpha01)) dest
  end.

Definition Lab_getRgbBuffer (cs : Lab.t) (src : list Z) (srcOffset count : Z)
    (dest : bytes) (destOffset bits alpha01 : Z) : bytes :=
  let maxVal := JS.Z2F (JS.shl 1 bits - 1) in
  Lab_loop cs maxVal src alpha01 (Z.to_nat count) srcOffset destOffset dest.


(** ** The colour spaces that need [Math.pow], and the composite ones

    [Math.pow] is implementation-approximated in ECMA-262, so it is a
    parameter of the model. *)

Section Engine.

Variable Math_pow : float -> float -> float.

(** *** CalGray *)

Definition CalGray_convertToRgb (cs : CalGray.t) (src : numbers)
    (srcOffset : Z) (dest : bytes) (destOffset : Z) (scale : float) : bytes :=
  let A := (src srcOffset * scale)%float in
  let AG := Math_pow A (CalGray.G cs) in
  let L := (CalGray.YW cs * AG)%float in
  let val :=
    JS.Math_max (295.8 * Math_pow L 0.333333333333333333 - 40.8)%float 0%float in
  let dest := store8c dest destOffset val in
  let dest := store8c dest (destOffset + 1) val in
  store8c dest (destOffset + 2) val.

Definition CalGray_getRgbItem (cs : CalGray.t) (src : list float)
    (srcOffset : Z) (dest : bytes) (destOffset : Z) : bytes :=
  CalGray_convertToRgb cs (ofFloats src) srcOffset dest destOffset 1.

Fixpoint CalGray_loop (cs : CalGray.t) (scale : float) (src : list Z)
    (alpha01 : Z) (n : nat) (srcOffset destOffset : Z) (dest : bytes) : bytes :=
  match n with
  | O => dest
  | S n' =>
      let dest := CalGray_convertToRgb cs (ofInts src) srcOffset dest destOffset scale in
      CalGray_loop cs scale src alpha01 n' (srcOffset + 1) (destOffset + (3 + alpha01)) dest
  end.

Definition CalGray_getRgbBuffer (cs : CalGray.t) (src : list Z)
    (srcOffset count : Z) (dest : bytes) (destOffset bits alpha01 : Z) : bytes :=
  let scale := (1 / JS.Z2F (JS.shl 1 bits - 1))%float in
  CalGray_loop cs scale src alpha01 (Z.to_nat count) srcOffset destOffset dest.

(** *** CalRGB *)

(** The contents of a three-element Float32Array. *)
Definition vec3 : Type := (float * float * float)%type.

Definition f32vec (x y z : float) : vec3 :=
  (JS.fround x, JS.fround y, JS.fround z).

Definition elt (a : list float) (i : Z) : float := JS.NumF (JS.get a i).

Definition BRADFORD_SCALE_MATRIX : list float :=
  map JS.fround
    [0.8951; 0.2664; -0.1614;
     -0.7502; 1.7135; 0.0367;
     0.0389; -0.0685; 1.0296]%float.

Definition BRADFORD_SCALE_INVERSE_MATRIX : list float :=
  map JS.fround
    [0.9869929; -0.1470543; 0.1599627;
     0.4323053; 0.5183603; 0.0492912;
     -0.0085287; 0.0400428; 0.9684867]%float.

Definition SRGB_D65_XYZ_TO_RGB_MATRIX : list float :=
  map JS.fround
    [3.2404542; -1.5371385; -0.4985314;
     -0.9692660; 1.8760108; 0.0415560;
     0.0556434; -0.2040259; 1.0572252]%float.

Definition FLAT_WHITEPOINT_MATRIX : list float := [1; 1; 1]%float.

Definition DECODE_L_CONSTANT : float :=
  (Math_pow ((8 + 16) / 116) 3 / 8.0)%float.

Definition matrixProduct (a : list float) (b : vec3) : vec3 :=
  let '(b0, b1, b2) := b in
  f32vec (elt a 0 * b0 + elt a 1 * b1 + elt a 2 * b2)%float
         (elt a 3 * b0 + elt a 4 * b1 + elt a 5 * b2)%float
         (elt a 6 * b0 + elt a 7 * b1 + elt a 8 * b2)%float.

Definition convertToFlat (sourceWhitePoint : list float) (LMS : vec3) : vec3 :=
  let '(l0, l1, l2) := LMS in
  f32vec (l0 * 1 / elt sourceWhitePoint 0)%float
         (l1 * 1 / elt sourceWhitePoint 1)%float
         (l2 * 1 / elt sourceWhitePoint 2)%float.

Definition convertToD65 (sourceWhitePoint : list float) (LMS : vec3) : vec3 :=
  let D65X := 0.95047%float in
  let D65Y := 1%float in
  let D65Z := 1.08883%float in
  let '(l0, l1, l2) := LMS in
  f32vec (l0 * D65X / elt sourceWhitePoint 0)%float
         (l1 * D65Y / elt sourceWhitePoint 1)%float
         (l2 * D65Z / elt sourceWhitePoint 2)%float.

Definition adjustToRange (min max value : float) : float :=
  JS.Math_max min (JS.Math_min max value).

Definition sRGBTransferFunction (color : float) : float :=
  if (color <=? 0.0031308)%float then adjustToRange 0 1 (12.92 * color)%float
  else adjustToRange 0 1 ((1 + 0.055) * Math_pow color (1 / 2.4) - 0.055)%float.

Definition decodeL_nonneg (L : float) : float :=
  if (8.0 <? L)%float then Math_pow ((L + 16) / 116)%float 3
  else (L * DECODE_L_CONSTANT)%float.

(** [decodeL] calls itself once, on [-L], when [L < 0]. *)
Definition decodeL (L : float) : float :=
  if (L <? 0)%float then (- decodeL_nonneg (- L))%float else decodeL_nonneg L.

Definition compensateBlackPoint (sourceBlackPoint : list float)
    (XYZ_Flat : vec3) : vec3 :=
  let '(x, y, z) := XYZ_Flat in
  if JS.seq (elt sourceBlackPoint 0) 0 && JS.seq (elt sourceBlackPoint 1) 0
     && JS.seq (elt sourceBlackPoint 2) 0
  then f32vec x y z
  else
    let zeroDecodeL := decodeL 0 in
    let X_DST := zeroDecodeL in
    let X_SRC := decodeL (elt sourceBlackPoint 0) in
    let Y_DST := zeroDecodeL in
    let Y_SRC := decodeL (elt sourceBlackPoint 1) in
    let Z_DST := zeroDecodeL in
    let Z_SRC := decodeL (elt sourceBlackPoint 2) in
    let X_Scale := ((1 - X_DST) / (1 - X_SRC))%float in
    let X_Offset := (1 - X_Scale)%float in
    let Y_Scale := ((1 - Y_DST) / (1 - Y_SRC))%float in
    let Y_Offset := (1 - Y_Scale)%float in
    let Z_Scale := ((1 - Z_DST) / (1 - Z_SRC))%float in
    let Z_Offset := (1 - Z_Scale)%float in
    f32vec (x * X_Scale + X_Offset)%float
           (y * Y_Scale + Y_Offset)%float
           (z * Z_Scale + Z_Offset)%float.

Definition normalizeWhitePointToFlat (sourceWhitePoint : list float)
    (XYZ_In : vec3) : vec3 :=
  if JS.seq (elt sourceWhitePoint 0) 1 && JS.seq (elt sourceWhitePoint 2) 1
  then let '(x, y, z) := XYZ_In in f32vec x y z
  else
    let LMS := matrixProduct BRADFORD_SCALE_MATRIX XYZ_In in
    let LMS_Flat := convertToFlat sourceWhitePoint LMS in
    matrixProduct BRADFORD_SCALE_INVERSE_MATRIX LMS_Flat.

Definition normalizeWhitePointToD65 (sourceWhitePoint : list float)
    (XYZ_In : vec3) : vec3 :=
  let LMS := matrixProduct BRADFORD_SCALE_MATRIX XYZ_In in
  let LMS_D65 := convertToD65 sourceWhitePoint LMS in
  matrixProduct BRADFORD_SCALE_INVERSE_MATRIX LMS_D65.

Definition CalRGB_convertToRgb (cs : CalRGB.t) (src : numbers)
    (srcOffset : Z) (dest : bytes) (destOffset : Z) (scale : float) : bytes :=
  let A := adjustToRange 0 1 (src srcOffset * scale)%float in
  let B := adjustToRange 0 1 (src (srcOffset + 1)%Z * scale)%float in
  let C := adjustToRange 0 1 (src (srcOffset + 2)%Z * scale)%float in
  let AGR := Math_pow A (CalRGB.GR cs) in
  let BGG := Math_pow B (CalRGB.GG cs) in
  let CGB := Math_pow C (CalRGB.GB cs) in
  let X := (CalRGB.MXA cs * AGR + CalRGB.MXB cs * BGG + CalRGB.MXC cs * CGB)%float in
  let Y := (CalRGB.MYA cs * AGR + CalRGB.MYB cs * BGG + CalRGB.MYC cs * CGB)%float in
  let Z_ := (CalRGB.MZA cs * AGR + CalRGB.MZB cs * BGG + CalRGB.MZC cs * CGB)%float in
  let XYZ := f32vec X Y Z_ in
  let XYZ_Flat := normalizeWhitePointToFlat (CalRGB.whitePoint cs) XYZ in
  let XYZ_Black := compensateBlackPoint (CalRGB.blackPoint cs) XYZ_Flat in
  let XYZ_D65 := normalizeWhitePointToD65 FLAT_WHITEPOINT_MATRIX XYZ_Black in
  let '(s0, s1, s2) := matrixProduct SRGB_D65_XYZ_TO_RGB_MATRIX XYZ_D65 in
  let dest := store8c dest destOffset (sRGBTransferFunction s0 * 255)%float in
  let dest := store8c dest (destOffset + 1) (sRGBTransferFunction s1 * 255)%float in
  store8c dest (destOffset + 2) (sRGBTransferFunction s2 * 255)%float.

Definition CalRGB_getRgbItem (cs : CalRGB.t) (src : list float)
    (srcOffset : Z) (dest : bytes) (destOffset : Z) : bytes :=
  CalRGB_convertToRgb cs (ofFloats src) srcOffset dest destOffset 1.

Fixpoint CalRGB_loop (cs : CalRGB.t) (scale : float) (src : list Z)
    (alpha01 : Z) (n : nat) (srcOffset destOffset : Z) (dest : bytes) : bytes :=
  match n with
  | O => dest
  | S n' =>
      let dest := CalRGB_convertToRgb cs (ofInts src) srcOffset dest destOffset scale in
      CalRGB_loop cs scale src alpha01 n' (srcOffset + 3) (destOffset + (3 + alpha01)) dest
  end.

Definition CalRGB_getRgbBuffer (cs : CalRGB.t) (src : list Z)
    (srcOffset count : Z) (dest : bytes) (destOffset bits alpha01 : Z) : bytes :=
  let scale := (1 / JS.Z2F (JS.shl 1 bits - 1))%float in
  CalRGB_loop cs scale src alpha01 (Z.to_nat count) srcOffset destOffset dest.

(** *** getOutputLength *)

Fixpoint getOutputLength (cs : ColorSpace) (inputLength : float) (alpha01 : Z)
  : exn + float :=
  match cs with
  | DeviceGrayCS | CalGrayCS _ =>
      inr (inputLength * JS.Z2F (3 + alpha01))%float
  | DeviceRgbCS | CalRGBCS _ | LabCS _ =>
      inr (JS.or0 (inputLength * JS.Z2F (3 + alpha01) / 3)%float)
  | DeviceCmykCS =>
      inr (JS.or0 (inputLength / 4 * JS.Z2F (3 + alpha01))%float)
  | IndexedCS base _ _ =>
      getOutputLength base
        (inputLength * JS.Z2F (countOf (numComps base)))%float alpha01
  | AlternateCS n base _ _ =>
      getOutputLength base
        (inputLength * JS.Z2F (countOf (numComps base)) / JS.Z2F n)%float alpha01
  | PatternCS _ =>
      inl (UnreachableError "Should not call ColorSpace.getOutputLength")
  end.

(** *** Indexed

    The type of [getRgbBuffer] of the base space, as the composite spaces
    call it. *)
Definition BufferFn : Type :=
  list Z -> Z -> Z -> bytes -> Z -> Z -> Z -> completion.
Definition ItemFn : Type :=
  list float -> Z -> bytes -> Z -> completion.

(** A position in [a] made from a Number that is not an element index (NaN
    from an [undefined] sample, an infinity): every read at it, and at it
    plus an integer, is [undefined], and the subarray from it is empty.  The
    first position past the end of [a] reads the same, and stands for it. *)
Definition noIndex (a : list Z) : Z := Z.of_nat (length a).

(** [src[srcOffset] * numComps] is computed on integers; the product of the
    Numbers is the same integer below 2^53 and is past the end of every
    array beyond.  A sample with a fractional part is outside the model. *)
Definition IndexedCS_getRgbItem (base_numComps : option Z)
    (base_getRgbBuffer : BufferFn) (lookup : bytes)
    (src : list float) (srcOffset : Z) (dest : bytes) (destOffset : Z)
  : completion :=
  let numComps := countOf base_numComps in
  let s := JS.NumF (JS.get src srcOffset) in
  match JS.F2Z s with
  | Some i => base_getRgbBuffer lookup (i * numComps) 1 dest destOffset 8 0
  | None =>
      if is_finite s
      then Abrupt (OutOfModel "IndexedCS.getRgbItem: fractional index") dest
      else base_getRgbBuffer lookup (noIndex lookup) 1 dest destOffset 8 0
  end.

Fixpoint IndexedCS_loop (base_getRgbBuffer : BufferFn) (numComps : Z)
    (outputDelta : float) (lookup : bytes) (src : list Z) (alpha01 : Z)
    (n : nat) (srcOffset : Z) (dest : bytes) (destOffset : Z) : completion :=
  match n with
  | O => Normal dest
  | S n' =>
      let lookupPos :=
        match JS.get src srcOffset with
        | Some s => s * numComps
        | None => noIndex lookup
        end in
      match base_getRgbBuffer lookup lookupPos 1 dest destOffset 8 alpha01 with
      | Abrupt e d => Abrupt e d
      | Normal d =>
          match n' with
          | O => Normal d
          | S _ =>
              match JS.F2Z (JS.Z2F destOffset + outputDelta)%float with
              | Some destOffset' =>
                  IndexedCS_loop base_getRgbBuffer numComps outputDelta lookup
                    src alpha01 n' (srcOffset + 1) d destOffset'
              | None =>
                  Abrupt (OutOfModel "IndexedCS.getRgbBuffer: offset is not an integer") d
              end
          end
      end
  end.

Definition IndexedCS_getRgbBuffer (base : ColorSpace)
    (base_getRgbBuffer : BufferFn) (lookup : bytes)
    (src : list Z) (srcOffset count : Z) (dest : bytes)
    (destOffset bits alpha01 : Z) : completion :=
  let numComps := countOf (numComps base) in
  match getOutputLength base (JS.Z2F numComps) alpha01 with
  | inl e => Abrupt e dest
  | inr outputDelta =>
      IndexedCS_loop base_getRgbBuffer numComps outputDelta lookup src alpha01
        (Z.to_nat count) srcOffset dest destOffset
  end.

(** *** Alternate *)

Definition AlternateCS_getRgbItem (base_getRgbItem : ItemFn)
    (tintFn : TintFn) (tmpBuf : list float)
    (src : list float) (srcOffset : Z) (dest : bytes) (destOffset : Z)
  : completion :=
  let tmpBuf := storeF32_run tmpBuf 0 (tintFn src srcOffset) in
  base_getRgbItem tmpBuf 0 dest destOffset.

(** [for (j = 0; j < numComps; j++) scaled[j] = src[srcOffset++] * scale] *)
Fixpoint Alternate_scale_loop (scale : float) (src : list Z) (n : nat)
    (j srcOffset : Z) (scaled : list float) : list float * Z :=
  match n with
  | O => (scaled, srcOffset)
  | S n' =>
      Alternate_scale_loop scale src n' (j + 1) (srcOffset + 1)
        (storeF32 scaled j (JS.NumZ (JS.get src srcOffset) * scale)%float)
  end.

(** [for (j = 0; j < baseNumComps; j++) baseBuf[pos++] = tinted[j] * 255] *)
Fixpoint Alternate_stage_loop (tinted : list float) (n : nat) (j pos : Z)
    (baseBuf : bytes) : bytes * Z :=
  match n with
  | O => (baseBuf, pos)
  | S n' =>
      Alternate_stage_loop tinted n' (j + 1) (pos + 1)
        (store8c baseBuf pos (elt tinted j * 255)%float)
  end.

(** The loop over the pixels; its state is [srcOffset], [pos], the two
    Float32Array scratch buffers and [baseBuf]. *)
Fixpoint Alternate_loop (base_getRgbItem : ItemFn) (tintFn : TintFn)
    (scale : float) (numComps baseNumComps : Z) (usesZeroToOneRange : bool)
    (src : list Z) (n : nat) (srcOffset pos : Z)
    (scaled tinted : list float) (baseBuf : bytes) : completion :=
  match n with
  | O => Normal baseBuf
  | S n' =>
      let '(scaled, srcOffset) :=
        Alternate_scale_loop scale src (Z.to_nat numComps) 0 srcOffset scaled in
      let tinted := storeF32_run tinted 0 (tintFn scaled 0) in
      if usesZeroToOneRange then
        let '(baseBuf, pos) :=
          Alternate_stage_loop tinted (Z.to_nat baseNumComps) 0 pos baseBuf in
        Alternate_loop base_getRgbItem tintFn scale numComps baseNumComps
          usesZeroToOneRange src n' srcOffset pos scaled tinted baseBuf
      else
        match base_getRgbItem tinted 0 baseBuf pos with
        | Abrupt e b => Abrupt e b
        | Normal baseBuf =>
            Alternate_loop base_getRgbItem tintFn scale numComps baseNumComps
              usesZeroToOneRange src n' srcOffset (pos + baseNumComps)
              scaled tinted baseBuf
        end
  end.

(** When [isPassthrough] holds, [baseBuf] is [dest] itself. *)
Definition AlternateCS_getRgbBuffer (this_numComps : Z) (base : ColorSpace)
    (base_getRgbItem : ItemFn) (base_getRgbBuffer : BufferFn) (tintFn : TintFn)
    (src : list Z) (srcOffset count : Z) (dest : bytes)
    (destOffset bits alpha01 : Z) : completion :=
  let scale := (1 / JS.Z2F (JS.shl 1 bits - 1))%float in
  let baseNumComps := countOf (numComps base) in
  let usesZeroToOneRange := usesZeroToOneRange base in
  let isPassthrough :=
    (isPassthrough base 8 || negb usesZeroToOneRange) && (alpha01 =? 0) in
  let pos := if isPassthrough then destOffset else 0 in
  if negb isPassthrough && (baseNumComps * count <? 0)
  then Abrupt (RangeError "Invalid typed array length") dest
  else
    let baseBuf := if isPassthrough then dest else zeros (baseNumComps * count) in
    if (this_numComps <? 0) || (baseNumComps <? 0)
    then Abrupt (RangeError "Invalid typed array length") dest
    else
      let scaled := fzeros this_numComps in
      let tinted := fzeros baseNumComps in
      match Alternate_loop base_getRgbItem tintFn scale this_numComps
              baseNumComps usesZeroToOneRange src (Z.to_nat count)
              srcOffset pos scaled tinted baseBuf with
      | Abrupt e b => Abrupt e (if isPassthrough then b else dest)
      | Normal b =>
          if isPassthrough then Normal b
          else base_getRgbBuffer b 0 count dest destOffset 8 alpha01
      end.

(** *** Dynamic dispatch of [getRgbItem] and [getRgbBuffer]

    PatternCS overrides neither method and inherits the ones of ColorSpace,
    which call [unreachable]. *)
Fixpoint getRgbItem (cs : ColorSpace) (src : list float) (srcOffset : Z)
    (dest : bytes) (destOffset : Z) {struct cs} : completion :=
  match cs with
  | DeviceGrayCS => Normal (DeviceGray_getRgbItem src srcOffset dest destOffset)
  | DeviceRgbCS => Normal (DeviceRgb_getRgbItem src srcOffset dest destOffset)
  | DeviceCmykCS => Normal (DeviceCmyk_getRgbItem src srcOffset dest destOffset)
  | CalGrayCS p => Normal (CalGray_getRgbItem p src srcOffset dest destOffset)
  | CalRGBCS p => Normal (CalRGB_getRgbItem p src srcOffset dest destOffset)
  | LabCS p => Normal (Lab_getRgbItem p src srcOffset dest destOffset)
  | IndexedCS base _ lookup =>
      IndexedCS_getRgbItem (numComps base) (getRgbBuffer base) lookup
        src srcOffset dest destOffset
  | AlternateCS _ base tintFn tmpBuf =>
      AlternateCS_getRgbItem (getRgbItem base) tintFn tmpBuf
        src srcOffset dest destOffset
  | PatternCS _ =>
      Abrupt (UnreachableError "Should not call ColorSpace.getRgbItem") dest
  end
with getRgbBuffer (cs : ColorSpace) (src : list Z) (srcOffset count : Z)
    (dest : bytes) (destOffset bits alpha01 : Z) {struct cs} : completion :=
  match cs with
  | DeviceGrayCS =>
      Normal (DeviceGray_getRgbBuffer src srcOffset count dest destOffset bits alpha01)
  | DeviceRgbCS =>
      DeviceRgb_getRgbBuffer src srcOffset count dest destOffset bits alpha01
  | DeviceCmykCS =>
      Normal (DeviceCmyk_getRgbBuffer src srcOffset count dest destOffset bits alpha01)
  | CalGrayCS p =>
      Normal (CalGray_getRgbBuffer p src srcOffset count dest destOffset bits alpha01)
  | CalRGBCS p =>
      Normal (CalRGB_getRgbBuffer p src srcOffset count dest destOffset bits alpha01)
  | LabCS p =>
      Normal (Lab_getRgbBuffer p src srcOffset count dest destOffset bits alpha01)
  | IndexedCS base _ lookup =>
      IndexedCS_getRgbBuffer base (getRgbBuffer base) lookup
        src srcOffset count dest destOffset bits alpha01
  | AlternateCS n base tintFn _ =>
      AlternateCS_getRgbBuffer n base (getRgbItem base) (getRgbBuffer base)
        tintFn src srcOffset count dest destOffset bits alpha01
  | PatternCS _ =>
      Abrupt (UnreachableError "Should not call ColorSpace.getRgbBuffer") dest
  end.

(** ** resizeRgbImage

    [src[oldIndex]] where [oldIndex] is a Number. *)
Definition getAt (a : list Z) (idx : float) : option Z :=
  match JS.F2Z idx with
  | Some k => JS.get a k
  | None => None
  end.

(** [for (i = 0; i < w2; i++) xScaled[i] = Math.floor(i * xRatio) * COMPONENTS],
    [xScaled] being a Uint16Array. *)
Fixpoint xScaled_loop (xRatio : float) (n : nat) (i : Z) (xScaled : list Z)
  : list Z :=
  match n with
  | O => xScaled
  | S n' =>
      xScaled_loop xRatio n' (i + 1)
        (JS.put xScaled i (JS.ToUint16 (JS.Math_floor (JS.Z2F i * xRatio) * 3)%float))
  end.

(** The loop over the columns [j] of one output row. *)
Fixpoint resize_row (src xScaled : list Z) (py : float) (alpha01 : Z)
    (n : nat) (j newIndex : Z) (dest : bytes) : bytes * Z :=
  match n with
  | O => (dest, newIndex)
  | S n' =>
      let oldIndex := (py + JS.NumZ (JS.get xScaled j))%float in
      let dest := store8c dest newIndex (JS.NumZ (getAt src oldIndex)) in
      let dest := store8c dest (newIndex + 1) (JS.NumZ (getAt src (oldIndex + 1)%float)) in
      let dest := store8c dest (newIndex + 2) (JS.NumZ (getAt src (oldIndex + 1 + 1)%float)) in
      resize_row src xScaled py alpha01 n' (j + 1) (newIndex + 3 + alpha01) dest
  end.

(** The loop over the output rows [i]. *)
Fixpoint resize_rows (src xScaled : list Z) (yRatio : float)
    (w1Scanline w2 alpha01 : Z) (n : nat) (i newIndex : Z) (dest : bytes)
  : bytes :=
  match n with
  | O => dest
  | S n' =>
      let py := (JS.Math_floor (JS.Z2F i * yRatio) * JS.Z2F w1Scanline)%float in
      let '(dest, newIndex) :=
        resize_row src xScaled py alpha01 (Z.to_nat w2) 0 newIndex dest in
      resize_rows src xScaled yRatio w1Scanline w2 alpha01 n' (i + 1) newIndex dest
  end.

Definition resizeRgbImage (src : list Z) (dest : bytes)
    (w1 h1 w2 h2 alpha01 : Z) : completion :=
  let COMPONENTS := 3 in
  let alpha01 := if negb (alpha01 =? 1) then 0 else alpha01 in
  let xRatio := (JS.Z2F w1 / JS.Z2F w2)%float in
  let yRatio := (JS.Z2F h1 / JS.Z2F h2)%float in
  if w2 <? 0 then Abrupt (RangeError "Invalid typed array length") dest
  else
    let xScaled := zeros w2 in
    let w1Scanline := w1 * COMPONENTS in
    let xScaled := xScaled_loop xRatio (Z.to_nat w2) 0 xScaled in
    Normal (resize_rows src xScaled yRatio w1Scanline w2 alpha01
              (Z.to_nat h2) 0 0 dest).

(** ** ColorSpace.fillRgb *)

(** [for (i = 0; i < numComponentColors; i++) allColors[i] = i], the array
    being a Uint8Array ([wrap = 256]) or a Uint16Array ([wrap = 65536]). *)
Fixpoint allColors_loop (wrap : Z) (n : nat) (i : Z) (allColors : list Z)
  : list Z :=
  match n with
  | O => allColors
  | S n' => allColors_loop wrap n' (i + 1) (JS.put allColors i (i mod wrap))
  end.

(** [colorMap[comps[i] * 3 + d]]: [undefined] when the sample is. *)
Definition colorAt (colorMap comps : list Z) (i d : Z) : option Z :=
  match JS.get comps i with
  | Some c => JS.get colorMap (c * 3 + d)
  | None => None
  end.

(** The colour map applied straight into [dest]. *)
Fixpoint map_dest_loop (colorMap comps : list Z) (alpha01 : Z)
    (n : nat) (i destPos : Z) (dest : bytes) : bytes :=
  match n with
  | O => dest
  | S n' =>
      let dest := store8c dest destPos (JS.NumZ (colorAt colorMap comps i 0)) in
      let dest := store8c dest (destPos + 1) (JS.NumZ (colorAt colorMap comps i 1)) in
      let dest := store8c dest (destPos + 2) (JS.NumZ (colorAt colorMap comps i 2)) in
      map_dest_loop colorMap comps alpha01 n' (i + 1) (destPos + 3 + alpha01) dest
  end.

(** The colour map applied into the Uint8Array [rgbBuf]. *)
Fixpoint map_rgbBuf_loop (colorMap comps : list Z)
    (n : nat) (i rgbPos : Z) (rgbBuf : list Z) : list Z :=
  match n with
  | O => rgbBuf
  | S n' =>
      let rgbBuf := JS.put rgbBuf rgbPos (JS.ToUint8 (JS.NumZ (colorAt colorMap comps i 0))) in
      let rgbBuf := JS.put rgbBuf (rgbPos + 1) (JS.ToUint8 (JS.NumZ (colorAt colorMap comps i 1))) in
      let rgbBuf := JS.put rgbBuf (rgbPos + 2) (JS.ToUint8 (JS.NumZ (colorAt colorMap comps i 2))) in
      map_rgbBuf_loop colorMap comps n' (i + 1) (rgbPos + 3) rgbBuf
  end.

(** The final copy of [rgbBuf] into [dest], expanding by [alpha01]. *)
Fixpoint copy_loop (rgbBuf : list Z) (alpha01 : Z)
    (n : nat) (destPos rgbPos : Z) (dest : bytes) : bytes :=
  match n with
  | O => dest
  | S n' =>
      let dest := store8c dest destPos (JS.NumZ (JS.get rgbBuf rgbPos)) in
      let dest := store8c dest (destPos + 1) (JS.NumZ (JS.get rgbBuf (rgbPos + 1))) in
      let dest := store8c dest (destPos + 2) (JS.NumZ (JS.get rgbBuf (rgbPos + 2))) in
      copy_loop rgbBuf alpha01 n' (destPos + 3 + alpha01) (rgbPos + 3) dest
  end.

(** The tail of [fillRgb]: what happens to a non-null [rgbBuf]. *)
Definition fillRgb_finish (rgbBuf : list Z) (dest : bytes)
    (originalWidth originalHeight width height actualHeight alpha01 : Z)
    (needsResizing : bool) : completion :=
  if needsResizing then
    resizeRgbImage rgbBuf dest originalWidth originalHeight width height alpha01
  else
    Normal (copy_loop rgbBuf alpha01 (Z.to_nat (width * actualHeight)) 0 0 dest).

Definition fillRgb (cs : ColorSpace) (dest : bytes)
    (originalWidth originalHeight width height actualHeight bpc : Z)
    (comps : list Z) (alpha01 : Z) : completion :=
  let count := originalWidth * originalHeight in
  let numComponentColors := JS.shl 1 bpc in
  let needsResizing :=
    negb (originalHeight =? height) || negb (originalWidth =? width) in
  if isPassthrough cs bpc then
    fillRgb_finish comps dest originalWidth originalHeight width height
      actualHeight alpha01 needsResizing
  else if match numComps cs with Some n => n =? 1 | None => false end
          && (numComponentColors <? count)
          && negb (String.eqb (name cs) "DeviceGray")
          && negb (String.eqb (name cs) "DeviceRGB")
  then
    if numComponentColors <? 0
    then Abrupt (RangeError "Invalid typed array length") dest
    else
      let allColors :=
        allColors_loop (if bpc <=? 8 then 256 else 65536)
          (Z.to_nat numComponentColors) 0 (zeros numComponentColors) in
      let colorMap := zeros (numComponentColors * 3) in
      match getRgbBuffer cs allColors 0 numComponentColors colorMap 0 bpc 0 with
      | Abrupt e _ => Abrupt e dest
      | Normal colorMap =>
          if negb needsResizing then
            Normal (map_dest_loop colorMap comps alpha01 (Z.to_nat count) 0 0 dest)
          else if count * 3 <? 0
          then Abrupt (RangeError "Invalid typed array length") dest
          else
            let rgbBuf :=
              map_rgbBuf_loop colorMap comps (Z.to_nat count) 0 0 (zeros (count * 3)) in
            fillRgb_finish rgbBuf dest originalWidth originalHeight width
              height actualHeight alpha01 needsResizing
      end
  else
    if negb needsResizing then
      getRgbBuffer cs comps 0 (width * actualHeight) dest 0 bpc alpha01
    else if count * 3 <? 0
    then Abrupt (RangeError "Invalid typed array length") dest
    else
      match getRgbBuffer cs comps 0 count (zeros (count * 3)) 0 bpc 0 with
      | Abrupt e _ => Abrupt e dest
      | Normal rgbBuf =>
          fillRgb_finish rgbBuf dest originalWidth originalHeight width
            height actualHeight alpha01 needsResizing
      end.

(** ** Construction

    Parsing and construction log through [info] and [warn] and can throw.
    A computation yields the messages logged and then a value or the
    exception; the interpolated parts of a message are left as written in
    the source. *)

Inductive logmsg : Type :=
| Info (text : string)
| Warn (text : string).

Definition M (A : Type) : Type := (list logmsg * (exn + A))%type.

Definition ret {A : Type} (a : A) : M A := ([], inr a).
Definition throw {A : Type} (e : exn) : M A := ([], inl e).
Definition bind {A B : Type} (m : M A) (k : A -> M B) : M B :=
  match m with
  | (l, inl e) => (l, inl e)
  | (l, inr a) => let '(l', r) := k a in (l ++ l', r)
  end.
Definition info (text : string) : M unit := ([Info text], inr tt).
Definition warn (text : string) : M unit := ([Warn text], inr tt).
Definition lift {A : Type} (r : exn + A) : M A := ([], r).

Notation "x <- m ;; k" := (bind m (fun x => k))
  (at level 61, m at next level, right associativity).
Notation "m ;;; k" := (bind m (fun _ => k))
  (at level 61, right associativity).

(** [a || d] for an optional array: an array is truthy. *)
Definition orElse {A : Type} (a : option A) (d : A) : A :=
  match a with Some x => x | None => d end.

(** [new CalGrayCS(whitePoint, blackPoint, gamma)] *)
Definition CalGrayCS_new (whitePoint blackPoint : option (list float))
    (gamma : option float) : M ColorSpace :=
  match whitePoint with
  | None => throw (FormatError "WhitePoint missing - required for color space CalGray")
  | Some whitePoint =>
      let blackPoint := orElse blackPoint [0; 0; 0]%float in
      let gamma := match gamma with
                   | Some g => if JS.truthy g then g else 1%float
                   | None => 1%float
                   end in
      let XW := elt whitePoint 0 in
      let YW := elt whitePoint 1 in
      let ZW := elt whitePoint 2 in
      let XB := elt blackPoint 0 in
      let YB := elt blackPoint 1 in
      let ZB := elt blackPoint 2 in
      let G := gamma in
      if (XW <? 0)%float || (ZW <? 0)%float || JS.sneq YW 1
      then throw (FormatError
                    "Invalid WhitePoint components for CalGray, no fallback available")
      else
        B <- (if (XB <? 0)%float || (YB <? 0)%float || (ZB <? 0)%float
              then info "Invalid BlackPoint for CalGray, falling back to default." ;;;
                   ret (0%float, 0%float, 0%float)
              else ret (XB, YB, ZB)) ;;
        let '(XB, YB, ZB) := B in
        (if JS.sneq XB 0 || JS.sneq YB 0 || JS.sneq ZB 0
         then warn "CalGray, BlackPoint: XB: ${this.XB}, YB: ${this.YB}, ZB: ${this.ZB}, only default values are supported."
         else ret tt) ;;;
        G <- (if (G <? 1)%float
              then info "Invalid Gamma: ${this.G} for CalGray, falling back to default." ;;;
                   ret 1%float
              else ret G) ;;
        ret (CalGrayCS (CalGray.mk XW YW ZW XB YB ZB G))
  end.

(** [new CalRGBCS(whitePoint, blackPoint, gamma, matrix)] *)
Definition CalRGBCS_new (whitePoint blackPoint gamma matrix : option (list float))
  : M ColorSpace :=
  match whitePoint with
  | None => throw (FormatError "WhitePoint missing - required for color space CalRGB")
  | Some whitePoint =>
      let blackPoint := orElse blackPoint (fzeros 3) in
      let gamma := orElse gamma [1; 1; 1]%float in
      let matrix := orElse matrix [1; 0; 0; 0; 1; 0; 0; 0; 1]%float in
      let XW := elt whitePoint 0 in
      let YW := elt whitePoint 1 in
      let ZW := elt whitePoint 2 in
      let XB := elt blackPoint 0 in
      let YB := elt blackPoint 1 in
      let ZB := elt blackPoint 2 in
      let GR := elt gamma 0 in
      let GG := elt gamma 1 in
      let GB := elt gamma 2 in
      if (XW <? 0)%float || (ZW <? 0)%float || JS.sneq YW 1
      then throw (FormatError
                    "Invalid WhitePoint components for CalRGB, no fallback available")
      else
        blackPoint <-
          (if (XB <? 0)%float || (YB <? 0)%float || (ZB <? 0)%float
           then info "Invalid BlackPoint for CalRGB [${XB}, ${YB}, ${ZB}], falling back to default." ;;;
                ret (fzeros 3)
           else ret blackPoint) ;;
        G <- (if (GR <? 0)%float || (GG <? 0)%float || (GB <? 0)%float
              then info "Invalid Gamma [${this.GR}, ${this.GG}, ${this.GB}] for CalRGB, falling back to default." ;;;
                   ret (1%float, 1%float, 1%float)
              else ret (GR, GG, GB)) ;;
        let '(GR, GG, GB) := G in
        ret (CalRGBCS
               (CalRGB.mk whitePoint blackPoint GR GG GB
                  (elt matrix 0) (elt matrix 1) (elt matrix 2)
                  (elt matrix 3) (elt matrix 4) (elt matrix 5)
                  (elt matrix 6) (elt matrix 7) (elt matrix 8)))
  end.

(** [new LabCS(whitePoint, blackPoint, range)] *)
Definition LabCS_new (whitePoint blackPoint range : option (list float))
  : M ColorSpace :=
  match whitePoint with
  | None => throw (FormatError "WhitePoint missing - required for color space Lab")
  | Some whitePoint =>
      let blackPoint := orElse blackPoint [0; 0; 0]%float in
      let range := orElse range [-100; 100; -100; 100]%float in
      let XW := elt whitePoint 0 in
      let YW := elt whitePoint 1 in
      let ZW := elt whitePoint 2 in
      let amin := elt range 0 in
      let amax := elt range 1 in
      let bmin := elt range 2 in
      let bmax := elt range 3 in
      let XB := elt blackPoint 0 in
      let YB := elt blackPoint 1 in
      let ZB := elt blackPoint 2 in
      if (XW <? 0)%float || (ZW <? 0)%float || JS.sneq YW 1
      then throw (FormatError "Invalid WhitePoint components, no fallback available")
      else
        B <- (if (XB <? 0)%float || (YB <? 0)%float || (ZB <? 0)%float
              then info "Invalid BlackPoint, falling back to default" ;;;
                   ret (0%float, 0%float, 0%float)
              else ret (XB, YB, ZB)) ;;
        let '(XB, YB, ZB) := B in
        R <- (if (amax <? amin)%float || (bmax <? bmin)%float
              then info "Invalid Range, falling back to defaults" ;;;
                   ret ((-100)%float, 100%float, (-100)%float, 100%float)
              else ret (amin, amax, bmin, bmax)) ;;
        let '(amin, amax, bmin, bmax) := R in
        ret (LabCS (Lab.mk XW YW ZW amin amax bmin bmax XB YB ZB))
  end.

(** The [lookup] argument of [new IndexedCS(base, highVal, lookup)]: a
    Stream (an external object, given by its method [getBytes], whose
    argument is [None] when called without one), a string (its UTF-16 code
    units), a Uint8Array, or anything else. *)
Inductive LookupArg : Type :=
| LookupStream (getBytes : option Z -> list Z)
| LookupString (codeUnits : list Z)
| LookupBytes (b : bytes)
| LookupOther.

(** [target.set(source)] between two Uint8Arrays. *)
Definition set_bytes (target source : list Z) : exn + list Z :=
  if Z.of_nat (length target) <? Z.of_nat (length source)
  then inl (RangeError "offset is out of bounds")
  else inr (source ++ skipn (length source) target).

(** [for (i = 0; i < length; ++i) this.lookup[i] = lookup.charCodeAt(i)];
    [charCodeAt] past the end of the string is NaN, stored as 0. *)
Fixpoint charCode_loop (codeUnits : list Z) (n : nat) (i : Z) (lookup : list Z)
  : list Z :=
  match n with
  | O => lookup
  | S n' =>
      charCode_loop codeUnits n' (i + 1)
        (JS.put lookup i (JS.ToUint8 (JS.NumZ (JS.get codeUnits i))))
  end.

Definition IndexedCS_new (base : ColorSpace) (highVal : Z) (lookup : LookupArg)
  : exn + ColorSpace :=
  let baseNumComps := countOf (numComps base) in
  let length := baseNumComps * highVal in
  match lookup with
  | LookupStream getBytes =>
      if length <? 0 then inl (RangeError "Invalid typed array length")
      else
        match set_bytes (zeros length) (getBytes (Some length)) with
        | inl e => inl e
        | inr l => inr (IndexedCS base highVal l)
        end
  | LookupString codeUnits =>
      if length <? 0 then inl (RangeError "Invalid typed array length")
      else inr (IndexedCS base highVal
                  (charCode_loop codeUnits (Z.to_nat length) 0 (zeros length)))
  | LookupBytes b => inr (IndexedCS base highVal b)
  | LookupOther => inl (FormatError "Unrecognized lookup table: ${lookup}")
  end.

(** [new AlternateCS(numComps, base, tintFn)] *)
Definition AlternateCS_new (numComps_ : Z) (base : ColorSpace) (tintFn : TintFn)
  : exn + ColorSpace :=
  if countOf (numComps base) <? 0
  then inl (RangeError "Invalid typed array length")
  else inr (AlternateCS numComps_ base tintFn (fzeros (countOf (numComps base)))).

(** ** The intermediate representation *)

Inductive IR : Type :=
| IR_DeviceGrayCS
| IR_DeviceRgbCS
| IR_DeviceCmykCS
| IR_CalGrayCS (whitePoint blackPoint : option (list float)) (gamma : option float)
| IR_CalRGBCS (whitePoint blackPoint gamma matrix : option (list float))
| IR_PatternCS (base : option IR)
| IR_IndexedCS (base : IR) (hiVal : Z) (lookup : LookupArg)
| IR_AlternateCS (numComps : Z) (base : IR) (tintFn : TintFn)
| IR_LabCS (whitePoint blackPoint range : option (list float))
| IR_Other (name : string).

Fixpoint fromIR (ir : IR) : M ColorSpace :=
  match ir with
  | IR_DeviceGrayCS => ret DeviceGrayCS
  | IR_DeviceRgbCS => ret DeviceRgbCS
  | IR_DeviceCmykCS => ret DeviceCmykCS
  | IR_CalGrayCS whitePoint blackPoint gamma =>
      CalGrayCS_new whitePoint blackPoint gamma
  | IR_CalRGBCS whitePoint blackPoint gamma matrix =>
      CalRGBCS_new whitePoint blackPoint gamma matrix
  | IR_PatternCS basePatternCS =>
      match basePatternCS with
      | Some b => cs <- fromIR b ;; ret (PatternCS (Some cs))
      | None => ret (PatternCS None)
      end
  | IR_IndexedCS baseIndexedCS hiVal lookup =>
      base <- fromIR baseIndexedCS ;;
      lift (IndexedCS_new base hiVal lookup)
  | IR_AlternateCS numComps_ alt tintFn =>
      base <- fromIR alt ;;
      lift (AlternateCS_new numComps_ base tintFn)
  | IR_LabCS whitePoint blackPoint range =>
      LabCS_new whitePoint blackPoint range
  | IR_Other name_ =>
      throw (FormatError ("Unknown colorspace name: " ++ name_)%string)
  end.

(** ** The PDF object model *)

(** Modelled from the spec: the PDF primitives (Name, Dict, Stream, Ref of
    core/primitives.js) and the cross-reference table are external
    collaborators, consumed through [fetchIfRef], [isName], [isDict],
    [isStream], [Dict.get], [Dict.getArray], [Stream.getBytes] and
    [Name.name].  A number is a JavaScript Number; a Stream is its dictionary
    and its method [getBytes]. *)
Inductive pdfobj : Type :=
| PNull
| PBool (b : bool)
| PNum (x : float)
| PString (codeUnits : list Z)
| PName (name : string)
| PArray (items : list pdfobj)
| PDict (entries : list (string * pdfobj))
| PStream (dict : list (string * pdfobj)) (getBytes : option Z -> list Z)
| PRef (num : nat).

(** A JavaScript value that may be [undefined] is an [option pdfobj]. *)
Definition jsval : Type := option pdfobj.

(** Modelled from the spec: the cross-reference table resolves an indirect
    reference to the object it names. *)
Definition Xref : Type := nat -> pdfobj.

(** Modelled from the spec: [xref.fetchIfRef(obj)]. *)
Definition fetchIfRef (xref : Xref) (obj : jsval) : jsval :=
  match obj with
  | Some (PRef n) => Some (xref n)
  | _ => obj
  end.

Fixpoint lookup_key (entries : list (string * pdfobj)) (key : string) : jsval :=
  match entries with
  | [] => None
  | (k, v) :: rest => if String.eqb k key then Some v else lookup_key rest key
  end.

(** Modelled from the spec: [Dict.get(key)], which resolves a reference. *)
Definition Dict_get (xref : Xref) (entries : list (string * pdfobj))
    (key : string) : jsval :=
  fetchIfRef xref (lookup_key entries key).

(** Modelled from the spec: [Dict.getArray(key)], which also resolves the
    references among the elements of an array. *)
Definition Dict_getArray (xref : Xref) (entries : list (string * pdfobj))
    (key : string) : jsval :=
  match Dict_get xref entries key with
  | Some (PArray items) =>
      Some (PArray (map (fun o => match o with PRef n => xref n | _ => o end) items))
  | v => v
  end.

(** Truthiness of a value. *)
Definition truthy (v : jsval) : bool :=
  match v with
  | None => false
  | Some PNull => false
  | Some (PBool b) => b
  | Some (PNum x) => JS.truthy x
  | Some (PString s) => match s with [] => false | _ => true end
  | Some _ => true
  end.

(** [cs[i]] on an array. *)
Definition item (items : list pdfobj) (i : Z) : jsval := JS.get items i.

(** An entry that holds an array of numbers, or is absent (or null): the
    parameter arrays WhitePoint, BlackPoint, Gamma, Matrix and Range.  Any
    other value is outside the model. *)
Fixpoint numbers_of (items : list pdfobj) : option (list float) :=
  match items with
  | [] => Some []
  | PNum x :: rest =>
      match numbers_of rest with
      | Some xs => Some (x :: xs)
      | None => None
      end
  | _ :: _ => None
  end.

Definition number_array (v : jsval) : M (option (list float)) :=
  match v with
  | None | Some PNull => ret None
  | Some (PArray items) =>
      match numbers_of items with
      | Some xs => ret (Some xs)
      | None => throw (OutOfModel "an array with an element that is not a number")
      end
  | Some _ => throw (OutOfModel "a parameter that is not an array of numbers")
  end.

(** An entry that holds a number, or is absent (or null): Gamma of CalGray. *)
Definition number_entry (v : jsval) : M (option float) :=
  match v with
  | None | Some PNull => ret None
  | Some (PNum x) => ret (Some x)
  | Some _ => throw (OutOfModel "a parameter that is not a number")
  end.

(** [params.getArray(...)] needs [params] to be a Dict. *)
Definition as_params (v : jsval) : M (list (string * pdfobj)) :=
  match v with
  | Some (PDict entries) => ret entries
  | _ => throw (TypeError "params.getArray is not a function")
  end.

(** [altCS.numComps === numComps], the right side read from the stream
    dictionary. *)
Definition numComps_seq (n : option Z) (v : jsval) : bool :=
  match n, v with
  | Some z, Some (PNum x) => JS.seq (JS.Z2F z) x
  | None, Some PNull => true
  | _, _ => false
  end.

(** [numComps === k] for an integer literal [k]. *)
Definition is_number (v : jsval) (k : Z) : bool := numComps_seq (Some k) v.

(** Modelled from the spec: [pdfFunctionFactory.create(fn)] builds the tint
    function from a PDF function object, or throws. *)
Variable create : jsval -> exn + TintFn.

(** ** ColorSpace.parseToIR

    The recursion follows the descriptor through indirect references, so it
    is bounded by [fuel]; running out of it is reported as [OutOfModel]. *)

Definition out_of_fuel : exn := OutOfModel "parseToIR: recursion bound reached".

(** The double quote, and the message of the last [throw] of [parseToIR]
    with its interpolation left as written. *)
Definition dquote : string := String (Ascii.ascii_of_nat 34) EmptyString.
Definition unrecognized_object : string :=
  ("unrecognized color space object: " ++ dquote ++ "${cs}" ++ dquote)%string.

(** The [switch (mode)] of the array form, [parse] being [parseToIR] for the
    nested descriptors. *)
Definition parseToIR_array (parse : jsval -> M IR) (xref : Xref)
    (cs : list pdfobj) : M IR :=
  match fetchIfRef xref (item cs 0) with
  | None | Some PNull => throw (TypeError "Cannot read property 'name'")
  | Some first =>
      let mode := match first with PName n => Some n | _ => None end in
      let unimplemented :=
        throw (FormatError
                 ("unimplemented color space object " ++ dquote
                  ++ orElse mode "undefined"%string ++ dquote)%string) in
      match mode with
      | None => unimplemented
      | Some mode =>
          if String.eqb mode "DeviceGray" || String.eqb mode "G"
          then ret IR_DeviceGrayCS
          else if String.eqb mode "DeviceRGB" || String.eqb mode "RGB"
          then ret IR_DeviceRgbCS
          else if String.eqb mode "DeviceCMYK" || String.eqb mode "CMYK"
          then ret IR_DeviceCmykCS
          else if String.eqb mode "CalGray" then
            params <- as_params (fetchIfRef xref (item cs 1)) ;;
            whitePoint <- number_array (Dict_getArray xref params "WhitePoint") ;;
            blackPoint <- number_array (Dict_getArray xref params "BlackPoint") ;;
            gamma <- number_entry (Dict_get xref params "Gamma") ;;
            ret (IR_CalGrayCS whitePoint blackPoint gamma)
          else if String.eqb mode "CalRGB" then
            params <- as_params (fetchIfRef xref (item cs 1)) ;;
            whitePoint <- number_array (Dict_getArray xref params "WhitePoint") ;;
            blackPoint <- number_array (Dict_getArray xref params "BlackPoint") ;;
            gamma <- number_array (Dict_getArray xref params "Gamma") ;;
            matrix <- number_array (Dict_getArray xref params "Matrix") ;;
            ret (IR_CalRGBCS whitePoint blackPoint gamma matrix)
          else if String.eqb mode "ICCBased" then
            match fetchIfRef xref (item cs 1) with
            | Some (PStream dict _) =>
                let numComps_ := Dict_get xref dict "N" in
                let alt := Dict_get xref dict "Alternate" in
                usable <-
                  (if truthy alt then
                     altIR <- parse alt ;;
                     altCS <- fromIR altIR ;;
                     if numComps_seq (numComps altCS) numComps_
                     then ret (Some altIR)
                     else warn "ICCBased color space: Ignoring incorrect /Alternate entry." ;;;
                          ret None
                   else ret None) ;;
                match usable with
                | Some altIR => ret altIR
                | None =>
                    if is_number numComps_ 1 then ret IR_DeviceGrayCS
                    else if is_number numComps_ 3 then ret IR_DeviceRgbCS
                    else if is_number numComps_ 4 then ret IR_DeviceCmykCS
                    else throw (FormatError unrecognized_object)
                end
            | _ => throw (TypeError "Cannot read property 'get'")
            end
          else if String.eqb mode "Pattern" then
            if truthy (item cs 1) then
              basePatternCS <- parse (item cs 1) ;;
              ret (IR_PatternCS (Some basePatternCS))
            else ret (IR_PatternCS None)
          else if String.eqb mode "Indexed" || String.eqb mode "I" then
            baseIndexedCS <- parse (item cs 1) ;;
            hiVal <-
              match fetchIfRef xref (item cs 2) with
              | Some (PNum x) =>
                  match JS.F2Z (x + 1)%float with
                  | Some z => ret z
                  | None => throw (OutOfModel "Indexed: hival is not an integer")
                  end
              | _ => throw (OutOfModel "Indexed: hival is not a number")
              end ;;
            let lookup :=
              match fetchIfRef xref (item cs 3) with
              | Some (PStream _ getBytes) => LookupBytes (getBytes None)
              | Some (PString codeUnits) => LookupString codeUnits
              | _ => LookupOther
              end in
            ret (IR_IndexedCS baseIndexedCS hiVal lookup)
          else if String.eqb mode "Separation" || String.eqb mode "DeviceN" then
            let name_ := fetchIfRef xref (item cs 1) in
            let numComps_ :=
              match name_ with
              | Some (PArray names) => Z.of_nat (length names)
              | _ => 1
              end in
            alt <- parse (item cs 2) ;;
            tintFn <- lift (create (fetchIfRef xref (item cs 3))) ;;
            ret (IR_AlternateCS numComps_ alt tintFn)
          else if String.eqb mode "Lab" then
            params <- as_params (fetchIfRef xref (item cs 1)) ;;
            whitePoint <- number_array (Dict_getArray xref params "WhitePoint") ;;
            blackPoint <- number_array (Dict_getArray xref params "BlackPoint") ;;
            range <- number_array (Dict_getArray xref params "Range") ;;
            ret (IR_LabCS whitePoint blackPoint range)
          else unimplemented
      end
  end.

(** What follows the name form: the array form, or the final throw. *)
Definition parseToIR_rest (parse : jsval -> M IR) (xref : Xref) (cs : jsval)
  : M IR :=
  match cs with
  | Some (PArray items) => parseToIR_array parse xref items
  | _ => throw (FormatError unrecognized_object)
  end.

Fixpoint parseToIR (fuel : nat) (cs : jsval) (xref : Xref) (res : jsval)
  : M IR :=
  match fuel with
  | O => throw out_of_fuel
  | S fuel' =>
      let parse := fun c => parseToIR fuel' c xref res in
      let cs := fetchIfRef xref cs in
      match cs with
      | Some (PName n) =>
          if String.eqb n "DeviceGray" || String.eqb n "G"
          then ret IR_DeviceGrayCS
          else if String.eqb n "DeviceRGB" || String.eqb n "RGB"
          then ret IR_DeviceRgbCS
          else if String.eqb n "DeviceCMYK" || String.eqb n "CMYK"
          then ret IR_DeviceCmykCS
          else if String.eqb n "Pattern"
          then ret (IR_PatternCS None)
          else
            let unrecognized :=
              throw (FormatError ("unrecognized colorspace " ++ n)%string) in
            match res with
            | Some (PDict resEntries) =>
                match Dict_get xref resEntries "ColorSpace" with
                | Some (PDict colorSpaces) =>
                    let resCS := Dict_get xref colorSpaces n in
                    if truthy resCS then
                      match resCS with
                      | Some (PName _) => parse resCS
                      | _ => parseToIR_rest parse xref resCS
                      end
                    else unrecognized
                | _ => unrecognized
                end
            | _ => unrecognized
            end
      | _ => parseToIR_rest parse xref cs
      end
  end.

(** [ColorSpace.parse] *)
Definition parse (fuel : nat) (cs : jsval) (xref : Xref) (res : jsval)
  : M ColorSpace :=
  ir <- parseToIR fuel cs xref res ;;
  fromIR ir.

(** ** The vocabulary of the statements, and sample inputs *)

Definition byte (b : Z) : Prop := 0 <= b <= 255.

(** [dest'] comes from [dest] by stores of bytes: same length, and every
    element is the one of [dest] or lies in [0, 255]. *)
Definition writes_bytes (dest dest' : bytes) : Prop :=
  length dest' = length dest /\
  forall i, JS.get dest' i = JS.get dest i
            \/ exists b, JS.get dest' i = Some b /\ byte b.

(** The conversion [f], run on a buffer [d] that came from [d0] by stores of
    bytes, leaves a buffer that comes from [d0] by stores of bytes. *)
Definition ItemFn_ok (f : ItemFn) : Prop :=
  forall src srcOffset d destOffset d0,
    writes_bytes d0 d -> writes_bytes d0 (dest_of (f src srcOffset d destOffset)).

Definition BufferFn_ok (f : BufferFn) : Prop :=
  forall src srcOffset count d destOffset bits alpha01 d0,
    writes_bytes d0 d ->
    writes_bytes d0 (dest_of (f src srcOffset count d destOffset bits alpha01)).

Definition all_bytes : list Z := map Z.of_nat (seq 0 256).

(** The device space chosen by the component count [N] alone. *)
Definition device_by_N (N : jsval) : exn + IR :=
  if is_number N 1 then inr IR_DeviceGrayCS
  else if is_number N 3 then inr IR_DeviceRgbCS
  else if is_number N 4 then inr IR_DeviceCmykCS
  else inl (FormatError unrecognized_object).

Definition ignoring_alternate : logmsg :=
  Warn "ICCBased color space: Ignoring incorrect /Alternate entry.".

(** The entry of [xScaled] for the output column [k]. *)
Definition xScaled_entry (xRatio : float) (k : Z) : Z :=
  JS.ToUint16 (JS.Math_floor (JS.Z2F k * xRatio) * 3)%float.



(** Lab with the D65 white point and the default range. *)
Definition lab_D65 : Lab.t :=
  Lab.mk 0.9505 1 1.089 (-100) 100 (-100) 100 0 0 0.

(** A tint function to Lab: lightness [100 * t], no chroma. *)
Definition tint_lightness : TintFn :=
  fun src srcOffset => [(100 * JS.NumF (JS.get src srcOffset))%float; 0%float; 0%float].

Definition separation_over_lab : ColorSpace :=
  AlternateCS 1 (LabCS lab_D65) tint_lightness (fzeros 3).

(** Red and green, indexed over DeviceRGB. *)
Definition red_green : ColorSpace :=
  IndexedCS DeviceRgbCS 2 [255; 0; 0; 0; 255; 0].


(** ** Further methods and the vocabulary of their properties *)

(** [getRgb(src, srcOffset)]: a fresh Uint8ClampedArray of three elements,
    filled by [getRgbItem]. *)
Definition getRgb (cs : ColorSpace) (src : list float) (srcOffset : Z)
  : exn + bytes :=
  match getRgbItem cs src srcOffset (zeros 3) 0 with
  | Normal rgb => inr rgb
  | Abrupt e _ => inl e
  end.

(** The class that [fromIR] instantiates for an IR, by its name and its
    component count; nothing for an unknown tag. *)
Definition IR_name (ir : IR) : option string :=
  match ir with
  | IR_DeviceGrayCS => Some "DeviceGray"
  | IR_DeviceRgbCS => Some "DeviceRGB"
  | IR_DeviceCmykCS => Some "DeviceCMYK"
  | IR_CalGrayCS _ _ _ => Some "CalGray"
  | IR_CalRGBCS _ _ _ _ => Some "CalRGB"
  | IR_PatternCS _ => Some "Pattern"
  | IR_IndexedCS _ _ _ => Some "Indexed"
  | IR_AlternateCS _ _ _ => Some "Alternate"
  | IR_LabCS _ _ _ => Some "Lab"
  | IR_Other _ => None
  end%string.

Definition IR_numComps (ir : IR) : option Z :=
  match ir with
  | IR_DeviceGrayCS | IR_CalGrayCS _ _ _ | IR_IndexedCS _ _ _ => Some 1
  | IR_DeviceRgbCS | IR_CalRGBCS _ _ _ _ | IR_LabCS _ _ _ => Some 3
  | IR_DeviceCmykCS => Some 4
  | IR_AlternateCS n _ _ => Some n
  | IR_PatternCS _ | IR_Other _ => None
  end.

(** An IR built from the nine known tags only, at every depth. *)
Fixpoint IR_known (ir : IR) : Prop :=
  match ir with
  | IR_PatternCS (Some b) => IR_known b
  | IR_IndexedCS b _ _ => IR_known b
  | IR_AlternateCS _ b _ => IR_known b
  | IR_Other _ => False
  | _ => True
  end.

(** The space at the bottom of a chain of Indexed and Alternate spaces. *)
Fixpoint innermost (cs : ColorSpace) : ColorSpace :=
  match cs with
  | IndexedCS base _ _ => innermost base
  | AlternateCS _ base _ _ => innermost base
  | _ => cs
  end.

Definition is_pattern (cs : ColorSpace) : bool :=
  match cs with PatternCS _ => true | _ => false end.

(** The spaces that convert a pixel by themselves, and the spaces with no
    Indexed space in their chain. *)
Definition is_simple (cs : ColorSpace) : bool :=
  match cs with
  | IndexedCS _ _ _ | AlternateCS _ _ _ _ | PatternCS _ => false
  | _ => true
  end.

Fixpoint indexed_free (cs : ColorSpace) : bool :=
  match cs with
  | IndexedCS _ _ _ => false
  | AlternateCS _ base _ _ => indexed_free base
  | _ => true
  end.

(** The position in [dest] of component [c] of pixel [k], and the positions
    that hold a component of one of [count] pixels. *)
Definition slot (destOffset alpha01 k c : Z) : Z :=
  destOffset + k * (3 + alpha01) + c.

Definition rgb_slot (destOffset count alpha01 i : Z) : Prop :=
  exists k c, 0 <= k < count /\ 0 <= c < 3 /\ i = slot destOffset alpha01 k c.

(** [getRgbBuffer] on the one pixel at [s], written at [q]. *)
Definition one_pixel (cs : ColorSpace) (src : list Z) (bits alpha01 : Z)
  : Z -> bytes -> Z -> bytes :=
  fun s d q => dest_of (getRgbBuffer cs src s 1 d q bits alpha01).

(** The shape that the pixel loops share: [W] converts the pixel at [s] into
    the slots at [q]; the source advances by [step] and the destination by
    [stride]. *)
Fixpoint pixel_loop (W : Z -> bytes -> Z -> bytes) (step stride : Z)
    (n : nat) (s q : Z) (d : bytes) : bytes :=
  match n with
  | O => d
  | S n' => pixel_loop W step stride n' (s + step) (q + stride) (W s d q)
  end.

(** [W] stores three bytes, which depend on the source position only, at
    [q], [q + 1] and [q + 2]. *)
Definition pixel_writer (W : Z -> bytes -> Z -> bytes) : Prop :=
  forall s, exists r g b, forall d q,
    W s d q = JS.put (JS.put (JS.put d q r) (q + 1) g) (q + 2) b.

(** The path of [DeviceRgbCS.getRgbBuffer] that copies with [set]. *)
Definition copies (cs : ColorSpace) (bits alpha01 : Z) : bool :=
  isPassthrough cs bits && (alpha01 =? 0).

(** The two gray spaces. *)
Definition is_gray (cs : ColorSpace) : bool :=
  match cs with
  | DeviceGrayCS | CalGrayCS _ => true
  | _ => false
  end.

(** The integer nearest to [a / b], for [0 <= a] and [0 < b]. *)
Definition nearest (a b : Z) : Z := (2 * a + b) / (2 * b).

(** [P] holds of [z], [z + 1], ..., [z + n - 1]. *)
Fixpoint all_from (P : Z -> bool) (n : nat) (z : Z) : bool :=
  match n with
  | O => true
  | S k => P z && all_from P k (z + 1)
  end.

(** A sample of [bits] bits scaled as DeviceGrayCS and DeviceRgbCS scale it,
    and the check that the clamped store gives the nearest level for each of
    the [2 ^ bits] samples. *)
Definition scaled_sample (bits s : Z) : float :=
  (255 / JS.Z2F (JS.shl 1 bits - 1) * JS.NumZ (Some s))%float.

Definition levels_exact (bits : Z) : bool :=
  all_from (fun s => JS.ToUint8Clamp (scaled_sample bits s)
                     =? nearest (255 * s) (2 ^ bits - 1))
           (Z.to_nat (2 ^ bits)) 0.

(** A byte divided by 255, the component that [getRgbItem] takes. *)
Definition unit_of_byte (b : Z) : float := (JS.Z2F b / 255)%float.

(** [dest'] comes from [dest] by stores of elements of [src] and of zeros:
    same length, and every element is the one of [dest], an element of
    [src], or 0. *)
Definition samples_of (src : list Z) (dest dest' : bytes) : Prop :=
  length dest' = length dest /\
  forall i, JS.get dest' i = JS.get dest i
            \/ exists b, JS.get dest' i = Some b /\ (In b src \/ b = 0).

(** [alpha01] as [resizeRgbImage] normalizes it. *)
Definition normalized (alpha01 : Z) : Z := if alpha01 =? 1 then 1 else 0.

(** ** The script around the engine: NodeCanvasFactory and
    JotformCanvasMiddleware

    The canvas library is an external collaborator: a canvas is made by
    [createCanvas], gives its 2d context, and has a [width] and a [height]
    that can be assigned. *)
Record CanvasLib : Type := mkCanvasLib
  { Canvas : Type;
    Context : Type;
    createCanvas : float -> float -> Canvas;
    getContext2d : Canvas -> Context;
    set_width : Canvas -> float -> Canvas;
    set_height : Canvas -> float -> Canvas }.

(** The object [{ canvas, context }]; [None] is [null]. *)
Record CanvasAndContext (L : CanvasLib) : Type := mkCanvasAndContext
  { canvas : option (Canvas L);
    context : option (Context L) }.

Arguments mkCanvasAndContext {L} _ _.
Arguments canvas {L} _.
Arguments context {L} _.

(** What [assert] throws. *)
Inductive AssertionError : Type :=
| Assertion (message : string).

Definition assert (value : bool) (message : string) : AssertionError + unit :=
  if value then inr tt else inl (Assertion message).

Definition NodeCanvasFactory_create (L : CanvasLib) (width height : float)
  : AssertionError + CanvasAndContext L :=
  match assert ((0 <? width)%float && (0 <? height)%float) "Invalid canvas size" with
  | inl e => inl e
  | inr _ =>
      let canvas := createCanvas L width height in
      let context := getContext2d L canvas in
      inr (mkCanvasAndContext (Some canvas) (Some context))
  end.

Definition NodeCanvasFactory_reset {L : CanvasLib}
    (canvasAndContext : CanvasAndContext L) (width height : float)
  : AssertionError + CanvasAndContext L :=
  match canvas canvasAndContext with
  | None => inl (Assertion "Canvas is not specified")
  | Some c =>
      match assert ((0 <? width)%float && (0 <? height)%float)
                   "Invalid canvas size" with
      | inl e => inl e
      | inr _ =>
          let c := set_width L c width in
          let c := set_height L c height in
          inr (mkCanvasAndContext (Some c) (context canvasAndContext))
      end
  end.

(** [destroy] returns the object, and the canvas as it leaves it: zeroed,
    and no longer reachable from the object. *)
Definition NodeCanvasFactory_destroy {L : CanvasLib}
    (canvasAndContext : CanvasAndContext L)
  : AssertionError + (CanvasAndContext L * Canvas L) :=
  match canvas canvasAndContext with
  | None => inl (Assertion "Canvas is not specified")
  | Some c =>
      let c := set_width L c 0 in
      let c := set_height L c 0 in
      inr (mkCanvasAndContext None None, c)
  end.

(** The first argument of [process]: a string, or a value of another type,
    which is never [=== 'image']. *)
Inductive event_type : Type :=
| TypeString (s : string)
| TypeOther.

(** A JotformCanvasMiddleware over payloads of type [Data], with the lines it
    has sent to [console.log]. *)
Record JotformCanvasMiddleware (Data : Type) : Type := mkMiddleware
  { images : list Data;
    console : list (event_type * Data) }.

Arguments mkMiddleware {Data} _ _.
Arguments images {Data} _.
Arguments console {Data} _.

Definition JotformCanvasMiddleware_new {Data : Type} : JotformCanvasMiddleware Data :=
  mkMiddleware [] [].

Definition processImage {Data : Type} (data : Data) : Data := data.

Definition process {Data : Type} (this : JotformCanvasMiddleware Data)
    (type : event_type) (data : Data) : JotformCanvasMiddleware Data :=
  let console := console this ++ [(type, data)] in
  match type with
  | TypeString s =>
      if String.eqb s "image"
      then mkMiddleware (images this ++ [processImage data]) console
      else mkMiddleware (images this) console
  | TypeOther => mkMiddleware (images this) console
  end.

(** A run of calls of [process], in order. *)
Definition process_all {Data : Type} (this : JotformCanvasMiddleware Data)
    (calls : list (event_type * Data)) : JotformCanvasMiddleware Data :=
  fold_left (fun m c => process m (fst c) (snd c)) calls this.

Definition is_image {Data : Type} (c : event_type * Data) : bool :=
  match fst c with
  | TypeString s => String.eqb s "image"
  | TypeOther => false
  end.

(** The binary64 form of the integer [v], for [0 < v < 2^53]: a mantissa of
    53 bits and the exponent that goes with it. *)
Definition canon (s : bool) (v : Z) : spec_float :=
  S754_finite s (Z.to_pos (v * 2 ^ (52 - Z.log2 v))) (Z.log2 v - 52).

(** A chain of spaces that ends in a simple space, with between 1 and 32
    colorants (the limit of a DeviceN space) in each Alternate space. *)
Fixpoint chain_ok (cs : ColorSpace) : bool :=
  match cs with
  | IndexedCS base _ _ => chain_ok base
  | AlternateCS n base _ _ => (0 <? n) && (n <=? 32) && chain_ok base
  | PatternCS _ => false
  | _ => true
  end.

(** The position in [lookup] of the palette entry that the sample [src[j]]
    selects in an Indexed space over [base]. *)
Definition lookupPos (base : ColorSpace) (lookup src : list Z) (j : Z) : Z :=
  match JS.get src j with
  | Some s => s * countOf (numComps base)
  | None => noIndex lookup
  end.

(** The three bytes that [base] gives the palette entry at [pos], stored at
    [q], [q + 1], [q + 2]. *)
Definition palette_store (base : ColorSpace) (lookup : list Z) (alpha01 : Z)
    (pos : Z) (d : bytes) (q : Z) : bytes :=
  let o := one_pixel base lookup 8 alpha01 pos (zeros 3) 0 in
  JS.put (JS.put (JS.put d q (nth 0 o 0)) (q + 1) (nth 1 o 0)) (q + 2) (nth 2 o 0).

(** A conversion of one pixel that stays inside the three positions of the
    pixel. *)
Definition local_writer (W : Z -> bytes -> Z -> bytes) : Prop :=
  forall s d q,
    length (W s d q) = length d
    /\ forall i, i < q \/ q + 3 <= i -> JS.get (W s d q) i = JS.get d i.

(** The call that [IndexedCS.getRgbBuffer] makes for the sample at [j]. *)
Definition palette_call (base : ColorSpace) (lookup src : list Z) (alpha01 : Z)
  : Z -> bytes -> Z -> bytes :=
  fun j d q =>
    dest_of (getRgbBuffer base lookup (lookupPos base lookup src j) 1 d q 8 alpha01).

(** A conversion that stores nothing outside the positions of its pixels. *)
Definition item_frames (f : ItemFn) : Prop :=
  forall src srcOffset d destOffset i,
    i < destOffset \/ destOffset + 3 <= i ->
    JS.get (dest_of (f src srcOffset d destOffset)) i = JS.get d i.

Definition buffer_frames (f : BufferFn) : Prop :=
  forall src srcOffset count d destOffset bits alpha01 i,
    0 <= count -> ~ rgb_slot destOffset count alpha01 i ->
    JS.get (dest_of (f src srcOffset count d destOffset bits alpha01)) i
    = JS.get d i.

(** * Properties *)

Lemma isDefaultDecode_loop_default (n : nat) :
  isDefaultDecode_loop (default_decode n) = true.
Proof using.
  induction n as [|k IH]; [reflexivity|].
  simpl default_decode. simpl isDefaultDecode_loop.
  exact IH.
Qed.

Lemma default_decode_length (n : nat) : length (default_decode n) = (2 * n)%nat.
Proof using. induction n as [|k IH]; simpl; [reflexivity | rewrite IH; lia]. Qed.

Lemma isDefaultDecode_loop_spec (d : list float) :
  Nat.Even (length d) -> (isDefaultDecode_loop d = true <-> alternating01 d).
Proof using.
  clear Math_pow create.
  remember (length d) as len eqn:Hlen.
  revert d Hlen.
  induction len as [len IH] using lt_wf_ind; intros d Hlen Hev.
  destruct d as [|d0 [|d1 rest]].
  - simpl; tauto.
  - exfalso. subst len. destruct Hev as [k Hk]. simpl in Hk. lia.
  - simpl. unfold JS.sneq, JS.seq.
    assert (Hrest : isDefaultDecode_loop rest = true <-> alternating01 rest).
    { apply (IH (length rest)); [subst len; simpl; lia | reflexivity |].
      subst len. destruct Hev as [k Hk]. simpl in Hk. exists (k - 1)%nat. lia. }
    destruct (d0 =? 0)%float; destruct (d1 =? 1)%float; simpl;
      try (split; [discriminate | intros (H0 & H1 & _); discriminate]).
    rewrite Hrest. tauto.
Qed.

(** C1. For every [n >= 1]: [isDefaultDecode] is true on the array
    [0,1,0,1,...] of length [2n]; it is true when [decode] is absent; on an
    array of length [2n] it is false as soon as the array deviates from the
    alternating pattern; and on an array whose length is not [2n] it warns
    and answers true. *)
Theorem C1_isDefaultDecode (n : Z) (Hn : 1 <= n) :
  isDefaultDecode (Some (default_decode (Z.to_nat n))) n = (true, [])
  /\ isDefaultDecode None n = (true, [])
  /\ (forall d, Z.of_nat (length d) = 2 * n -> ~ alternating01 d ->
        isDefaultDecode (Some d) n = (false, []))
  /\ (forall d, Z.of_nat (length d) <> 2 * n ->
        isDefaultDecode (Some d) n
        = (true, ["The decode map is not the correct length"%string])).
Proof using.
  repeat split.
  - unfold isDefaultDecode. rewrite default_decode_length.
    replace (n * 2 =? Z.of_nat (2 * Z.to_nat n)) with true
      by (symmetry; apply Z.eqb_eq; lia).
    simpl. now rewrite isDefaultDecode_loop_default.
  - intros d Hlen Hdev. unfold isDefaultDecode.
    replace (n * 2 =? Z.of_nat (length d)) with true
      by (symmetry; apply Z.eqb_eq; lia).
    simpl. f_equal.
    destruct (isDefaultDecode_loop d) eqn:E; [|reflexivity].
    exfalso. apply Hdev. apply isDefaultDecode_loop_spec; [|exact E].
    exists (Z.to_nat n). lia.
  - intros d Hlen. unfold isDefaultDecode.
    replace (n * 2 =? Z.of_nat (length d)) with false
      by (symmetry; apply Z.eqb_neq; lia).
    reflexivity.
Qed.

(** ** Typed arrays *)

Lemma nth_error_replace {A : Type} (a : list A) (n m : nat) (v : A) :
  (n < length a)%nat ->
  nth_error (firstn n a ++ v :: skipn (S n) a) m
  = if Nat.eqb m n then Some v else nth_error a m.
Proof using.
  clear Math_pow create.
  revert n m. induction a as [|x a IH]; intros n m Hn; simpl in Hn; [lia|].
  destruct n as [|n]; destruct m as [|m]; simpl; try reflexivity.
  apply IH. lia.
Qed.

Lemma put_length {A : Type} (a : list A) (i : Z) (v : A) :
  length (JS.put a i v) = length a.
Proof using.
  unfold JS.put.
  destruct ((0 <=? i) && (i <? Z.of_nat (length a))) eqn:E; [|reflexivity].
  apply andb_prop in E. destruct E as [E1 E2].
  apply Z.leb_le in E1. apply Z.ltb_lt in E2.
  rewrite length_app, length_firstn, length_cons, length_skipn. lia.
Qed.

Lemma get_put_same {A : Type} (a : list A) (i : Z) (v : A) :
  0 <= i < Z.of_nat (length a) -> JS.get (JS.put a i v) i = Some v.
Proof using.
  intros [H1 H2]. unfold JS.put, JS.get.
  replace ((0 <=? i) && (i <? Z.of_nat (length a))) with true
    by (symmetry; apply andb_true_intro; split;
        [apply Z.leb_le | apply Z.ltb_lt]; lia).
  replace (i <? 0) with false by (symmetry; apply Z.ltb_ge; lia).
  rewrite nth_error_replace by lia. now rewrite Nat.eqb_refl.
Qed.

Lemma get_put_other {A : Type} (a : list A) (i j : Z) (v : A) :
  i <> j -> JS.get (JS.put a i v) j = JS.get a j.
Proof using.
  intros Hij. unfold JS.put, JS.get.
  destruct ((0 <=? i) && (i <? Z.of_nat (length a))) eqn:E; [|reflexivity].
  apply andb_prop in E. destruct E as [E1 E2].
  apply Z.leb_le in E1. apply Z.ltb_lt in E2.
  destruct (j <? 0) eqn:Ej; [reflexivity|]. apply Z.ltb_ge in Ej.
  rewrite nth_error_replace by lia.
  replace (Nat.eqb (Z.to_nat j) (Z.to_nat i)) with false
    by (symmetry; apply Nat.eqb_neq; lia).
  reflexivity.
Qed.

(** ** The clamped store *)

Lemma ToUint8Clamp_range (x : float) : byte (JS.ToUint8Clamp x).
Proof using.
  unfold byte, JS.ToUint8Clamp.
  destruct (Prim2SF x) as [s|s| |s m e]; try (destruct s; lia); try lia.
  destruct s; [lia|].
  destruct (0 <=? e) eqn:He.
  - destruct (255 <=? Z.pos m * 2 ^ e) eqn:Hv; [lia|].
    apply Z.leb_gt in Hv. apply Z.leb_le in He.
    assert (0 < 2 ^ e) by (apply Z.pow_pos_nonneg; lia). nia.
  - apply Z.leb_gt in He.
    assert (Hd : 0 < 2 ^ (- e)) by (apply Z.pow_pos_nonneg; lia).
    cbv zeta.
    destruct (255 * 2 ^ (- e) <=? Z.pos m) eqn:Hv; [lia|].
    apply Z.leb_gt in Hv.
    assert (Hf0 : 0 <= Z.pos m / 2 ^ (- e)) by (apply Z.div_pos; lia).
    assert (Hf1 : Z.pos m / 2 ^ (- e) < 255)
      by (apply Z.div_lt_upper_bound; lia).
    destruct (2 ^ (- e) <? 2 * (Z.pos m mod 2 ^ (- e))); [lia|].
    destruct (2 * (Z.pos m mod 2 ^ (- e)) <? 2 ^ (- e)); [lia|].
    destruct (Z.even (Z.pos m / 2 ^ (- e))); lia.
Qed.

Lemma writes_bytes_refl (dest : bytes) : writes_bytes dest dest.
Proof using. split; [reflexivity | intros i; now left]. Qed.

Lemma writes_bytes_trans (d0 d1 d2 : bytes) :
  writes_bytes d0 d1 -> writes_bytes d1 d2 -> writes_bytes d0 d2.
Proof using.
  intros [L1 H1] [L2 H2]. split; [congruence|].
  intros i. destruct (H2 i) as [E|E]; [|now right].
  rewrite E. apply H1.
Qed.

Lemma writes_bytes_store8c (d0 d : bytes) (i : Z) (x : float) :
  writes_bytes d0 d -> writes_bytes d0 (store8c d i x).
Proof using.
  intros H. apply (writes_bytes_trans d0 d); [exact H|].
  unfold store8c. split; [apply put_length|].
  intros j. destruct (Z.eq_dec i j) as [->|Hij].
  - destruct ((0 <=? j) && (j <? Z.of_nat (length d))) eqn:E.
    + right. exists (JS.ToUint8Clamp x). split; [|apply ToUint8Clamp_range].
      apply andb_prop in E. destruct E as [E1 E2].
      apply Z.leb_le in E1. apply Z.ltb_lt in E2.
      apply get_put_same. lia.
    + left. unfold JS.put. now rewrite E.
  - left. now apply get_put_other.
Qed.

Ltac stores := repeat apply writes_bytes_store8c; try assumption.

Lemma DeviceGray_loop_ok scale src alpha01 n : forall j q d d0,
  writes_bytes d0 d -> writes_bytes d0 (DeviceGray_loop scale src alpha01 n j q d).
Proof using.
  induction n as [|n IH]; intros j q d d0 H; simpl; [exact H|].
  apply IH. stores.
Qed.

Lemma DeviceRgb_loop_ok scale src alpha01 n : forall j q d d0,
  writes_bytes d0 d -> writes_bytes d0 (DeviceRgb_loop scale src alpha01 n j q d).
Proof using.
  induction n as [|n IH]; intros j q d d0 H; simpl; [exact H|].
  apply IH. stores.
Qed.

Lemma set_run_ok source : forall i d d0,
  writes_bytes d0 d -> writes_bytes d0 (set_run d i source).
Proof using.
  induction source as [|v rest IH]; intros i d d0 H; simpl; [exact H|].
  apply IH. stores.
Qed.

Lemma DeviceRgb_getRgbBuffer_ok : BufferFn_ok DeviceRgb_getRgbBuffer.
Proof using.
  intros src srcOffset count d destOffset bits alpha01 d0 H.
  unfold DeviceRgb_getRgbBuffer.
  destruct ((bits =? 8) && (alpha01 =? 0)).
  - unfold typed_set.
    match goal with |- context [if ?c then _ else _] => destruct c end; simpl;
      [exact H | now apply set_run_ok].
  - simpl. now apply DeviceRgb_loop_ok.
Qed.

Lemma DeviceCmyk_convertToRgb_ok src srcOffset srcScale d destOffset d0 :
  writes_bytes d0 d ->
  writes_bytes d0 (DeviceCmyk_convertToRgb src srcOffset srcScale d destOffset).
Proof using. intros H. unfold DeviceCmyk_convertToRgb. cbv zeta. stores. Qed.

Lemma DeviceCmyk_loop_ok scale src alpha01 n : forall so q d d0,
  writes_bytes d0 d -> writes_bytes d0 (DeviceCmyk_loop scale src alpha01 n so q d).
Proof using.
  induction n as [|n IH]; intros so q d d0 H; simpl; [exact H|].
  apply IH. now apply DeviceCmyk_convertToRgb_ok.
Qed.

Lemma Lab_convertToRgb_ok cs src srcOffset maxVal d destOffset d0 :
  writes_bytes d0 d ->
  writes_bytes d0 (Lab_convertToRgb cs src srcOffset maxVal d destOffset).
Proof using.
  intros H. unfold Lab_convertToRgb.
  destruct maxVal; destruct (Lab.ZW cs <? 1)%float; cbv beta iota zeta; stores.
Qed.

Lemma Lab_loop_ok cs maxVal src alpha01 n : forall so q d d0,
  writes_bytes d0 d -> writes_bytes d0 (Lab_loop cs maxVal src alpha01 n so q d).
Proof using.
  induction n as [|n IH]; intros so q d d0 H; simpl; [exact H|].
  apply IH. now apply Lab_convertToRgb_ok.
Qed.

Lemma CalGray_convertToRgb_ok cs src srcOffset d destOffset scale d0 :
  writes_bytes d0 d ->
  writes_bytes d0 (CalGray_convertToRgb cs src srcOffset d destOffset scale).
Proof using Math_pow. intros H. unfold CalGray_convertToRgb. cbv zeta. stores. Qed.

Lemma CalGray_loop_ok cs scale src alpha01 n : forall so q d d0,
  writes_bytes d0 d -> writes_bytes d0 (CalGray_loop cs scale src alpha01 n so q d).
Proof using Math_pow.
  induction n as [|n IH]; intros so q d d0 H; simpl; [exact H|].
  apply IH. now apply CalGray_convertToRgb_ok.
Qed.

Lemma CalRGB_convertToRgb_ok cs src srcOffset d destOffset scale d0 :
  writes_bytes d0 d ->
  writes_bytes d0 (CalRGB_convertToRgb cs src srcOffset d destOffset scale).
Proof using Math_pow.
  intros H. unfold CalRGB_convertToRgb. cbv zeta.
  match goal with |- context [matrixProduct ?a ?b] =>
    destruct (matrixProduct a b) as [[s0 s1] s2] end.
  stores.
Qed.

Lemma CalRGB_loop_ok cs scale src alpha01 n : forall so q d d0,
  writes_bytes d0 d -> writes_bytes d0 (CalRGB_loop cs scale src alpha01 n so q d).
Proof using Math_pow.
  induction n as [|n IH]; intros so q d d0 H; simpl; [exact H|].
  apply IH. now apply CalRGB_convertToRgb_ok.
Qed.

Lemma IndexedCS_loop_ok base_getRgbBuffer numComps_ outputDelta lookup src alpha01 :
  BufferFn_ok base_getRgbBuffer ->
  forall n srcOffset d destOffset d0,
    writes_bytes d0 d ->
    writes_bytes d0
      (dest_of (IndexedCS_loop base_getRgbBuffer numComps_ outputDelta lookup
                  src alpha01 n srcOffset d destOffset)).
Proof using.
  intros Hb. induction n as [|n IH]; intros srcOffset d destOffset d0 H;
    simpl; [exact H|].
  match goal with |- context [base_getRgbBuffer ?a ?b ?c ?e ?f ?g ?h] =>
    pose proof (Hb a b c e f g h d0 H) as Hstep;
    destruct (base_getRgbBuffer a b c e f g h) as [d1|e1 d1] end;
    simpl in Hstep; [|exact Hstep].
  destruct n as [|n']; [exact Hstep|].
  destruct (JS.F2Z (JS.Z2F destOffset + outputDelta)) as [destOffset'|];
    [|exact Hstep].
  now apply IH.
Qed.

Lemma IndexedCS_getRgbItem_ok base_numComps base_getRgbBuffer lookup :
  BufferFn_ok base_getRgbBuffer ->
  ItemFn_ok (IndexedCS_getRgbItem base_numComps base_getRgbBuffer lookup).
Proof using.
  intros Hb src srcOffset d destOffset d0 H. unfold IndexedCS_getRgbItem.
  cbv zeta.
  destruct (JS.F2Z (JS.NumF (JS.get src srcOffset))); [now apply Hb|].
  destruct (is_finite (JS.NumF (JS.get src srcOffset))); [exact H | now apply Hb].
Qed.

Lemma IndexedCS_getRgbBuffer_ok base base_getRgbBuffer lookup :
  BufferFn_ok base_getRgbBuffer ->
  BufferFn_ok (IndexedCS_getRgbBuffer base base_getRgbBuffer lookup).
Proof using.
  intros Hb src srcOffset count d destOffset bits alpha01 d0 H.
  unfold IndexedCS_getRgbBuffer. cbv zeta.
  destruct (getOutputLength base _ alpha01) as [e|outputDelta]; [exact H|].
  now apply IndexedCS_loop_ok.
Qed.

Lemma Alternate_stage_loop_ok tinted n : forall j pos b d0,
  writes_bytes d0 b ->
  writes_bytes d0 (fst (Alternate_stage_loop tinted n j pos b)).
Proof using.
  induction n as [|n IH]; intros j pos b d0 H; simpl; [exact H|].
  apply IH. stores.
Qed.

Lemma Alternate_loop_ok base_getRgbItem tintFn scale numComps_ baseNumComps
    uses src :
  ItemFn_ok base_getRgbItem ->
  forall n srcOffset pos scaled tinted b d0,
    writes_bytes d0 b ->
    writes_bytes d0
      (dest_of (Alternate_loop base_getRgbItem tintFn scale numComps_
                  baseNumComps uses src n srcOffset pos scaled tinted b)).
Proof using.
  intros Hi. induction n as [|n IH];
    intros srcOffset pos scaled tinted b d0 H; simpl; [exact H|].
  destruct (Alternate_scale_loop scale src (Z.to_nat numComps_) 0 srcOffset scaled)
    as [scaled' srcOffset'].
  destruct uses.
  - pose proof (Alternate_stage_loop_ok
                  (storeF32_run tinted 0 (tintFn scaled' 0))
                  (Z.to_nat baseNumComps) 0 pos b d0 H) as Hs.
    destruct (Alternate_stage_loop _ (Z.to_nat baseNumComps) 0 pos b)
      as [b' pos'].
    simpl in Hs. now apply IH.
  - match goal with |- context [base_getRgbItem ?a ?o ?c ?p] =>
      pose proof (Hi a o c p d0 H) as Hstep;
      destruct (base_getRgbItem a o c p) as [b1|e1 b1] end;
      simpl in Hstep; [|exact Hstep].
    now apply IH.
Qed.

Lemma AlternateCS_getRgbItem_ok base_getRgbItem tintFn tmpBuf :
  ItemFn_ok base_getRgbItem ->
  ItemFn_ok (AlternateCS_getRgbItem base_getRgbItem tintFn tmpBuf).
Proof using.
  intros Hi src srcOffset d destOffset d0 H. unfold AlternateCS_getRgbItem.
  now apply Hi.
Qed.

Lemma AlternateCS_getRgbBuffer_ok n base base_getRgbItem base_getRgbBuffer tintFn :
  ItemFn_ok base_getRgbItem -> BufferFn_ok base_getRgbBuffer ->
  BufferFn_ok (AlternateCS_getRgbBuffer n base base_getRgbItem
                 base_getRgbBuffer tintFn).
Proof using.
  intros Hi Hb src srcOffset count d destOffset bits alpha01 d0 H.
  unfold AlternateCS_getRgbBuffer. cbv zeta.
  set (pt := (isPassthrough base 8 || negb (usesZeroToOneRange base))
             && (alpha01 =? 0)).
  destruct (negb pt && (countOf (numComps base) * count <? 0)); [exact H|].
  destruct ((n <? 0) || (countOf (numComps base) <? 0)); [exact H|].
  destruct pt.
  - match goal with |- context [Alternate_loop ?f ?t ?s ?a ?b ?u ?sr ?k ?so ?p ?sc ?ti ?bb] =>
      pose proof (Alternate_loop_ok f t s a b u sr Hi k so p sc ti bb d0 H) as Hl;
      destruct (Alternate_loop f t s a b u sr k so p sc ti bb) end;
      exact Hl.
  - match goal with |- context [Alternate_loop ?f ?t ?s ?a ?b ?u ?sr ?k ?so ?p ?sc ?ti ?bb] =>
      destruct (Alternate_loop f t s a b u sr k so p sc ti bb) as [b1|e1 b1] end;
      [now apply Hb | exact H].
Qed.

Lemma getRgb_ok (cs : ColorSpace) :
  ItemFn_ok (getRgbItem cs) /\ BufferFn_ok (getRgbBuffer cs).
Proof using.
  induction cs as [ | | | p | p | p | base IH hv lookup | n base IH tintFn tmpBuf | base ].
  - split.
    + intros src so d do_ d0 H. simpl. unfold DeviceGray_getRgbItem. cbv zeta. stores.
    + intros src so c d do_ bits a d0 H. simpl. now apply DeviceGray_loop_ok.
  - split.
    + intros src so d do_ d0 H. simpl. unfold DeviceRgb_getRgbItem. cbv zeta. stores.
    + exact DeviceRgb_getRgbBuffer_ok.
  - split.
    + intros src so d do_ d0 H. simpl. now apply DeviceCmyk_convertToRgb_ok.
    + intros src so c d do_ bits a d0 H. simpl. now apply DeviceCmyk_loop_ok.
  - split.
    + intros src so d do_ d0 H. simpl. now apply CalGray_convertToRgb_ok.
    + intros src so c d do_ bits a d0 H. simpl. now apply CalGray_loop_ok.
  - split.
    + intros src so d do_ d0 H. simpl. now apply CalRGB_convertToRgb_ok.
    + intros src so c d do_ bits a d0 H. simpl. now apply CalRGB_loop_ok.
  - split.
    + intros src so d do_ d0 H. simpl. now apply Lab_convertToRgb_ok.
    + intros src so c d do_ bits a d0 H. simpl. now apply Lab_loop_ok.
  - destruct IH as [IHi IHb]. split.
    + simpl. now apply IndexedCS_getRgbItem_ok.
    + simpl. now apply IndexedCS_getRgbBuffer_ok.
  - destruct IH as [IHi IHb]. split.
    + simpl. now apply AlternateCS_getRgbItem_ok.
    + simpl. now apply AlternateCS_getRgbBuffer_ok.
  - split.
    + intros src so d do_ d0 H. exact H.
    + intros src so c d do_ bits a d0 H. exact H.
Qed.

(** C8. For every colour space and every input, what [getRgbItem] and
    [getRgbBuffer] leave in [dest] comes from the initial [dest] by stores of
    bytes: every element they wrote lies in [0, 255], whatever the
    intermediate value (the DeviceCMYK polynomial, the square root of Lab)
    was before the clamped store. *)
Theorem C8_written_bytes_in_range (cs : ColorSpace) :
  (forall src srcOffset dest destOffset,
      writes_bytes dest
        (dest_of (getRgbItem cs src srcOffset dest destOffset)))
  /\ (forall src srcOffset count dest destOffset bits alpha01,
        writes_bytes dest
          (dest_of (getRgbBuffer cs src srcOffset count dest destOffset
                      bits alpha01))).
Proof using.
  destruct (getRgb_ok cs) as [Hi Hb]. split.
  - intros. apply Hi. apply writes_bytes_refl.
  - intros. apply Hb. apply writes_bytes_refl.
Qed.

(** C10. A PatternCS inherits both conversion methods from ColorSpace:
    either call throws the [unreachable] error and [dest] is left as it
    was. *)
Theorem C10_pattern_fails_fast (base : option ColorSpace) :
  (forall src srcOffset dest destOffset,
      getRgbItem (PatternCS base) src srcOffset dest destOffset
      = Abrupt (UnreachableError "Should not call ColorSpace.getRgbItem") dest)
  /\ (forall src srcOffset count dest destOffset bits alpha01,
        getRgbBuffer (PatternCS base) src srcOffset count dest
          destOffset bits alpha01
        = Abrupt (UnreachableError "Should not call ColorSpace.getRgbBuffer") dest).
Proof using. split; intros; reflexivity. Qed.

(** ** DeviceRGB at 8 bits *)

Lemma clamp_all_bytes :
  forallb (fun b => JS.ToUint8Clamp (JS.Z2F b) =? b) all_bytes = true.
Proof using. vm_compute. reflexivity. Qed.

(** A byte read as a Number and stored clamped is the same byte. *)
Lemma clamp_byte (b : Z) : byte b -> JS.ToUint8Clamp (JS.Z2F b) = b.
Proof using.
  intros [H0 H1].
  pose proof (proj1 (forallb_forall _ _) clamp_all_bytes b) as H.
  apply Z.eqb_eq. apply H. unfold all_bytes.
  replace b with (Z.of_nat (Z.to_nat b)) by lia.
  apply in_map. apply in_seq. lia.
Qed.

Lemma put_as_app {A : Type} (a : list A) (i : nat) (v : A) :
  (i < length a)%nat ->
  JS.put a (Z.of_nat i) v = firstn i a ++ v :: skipn (S i) a.
Proof using.
  intros H. unfold JS.put.
  replace ((0 <=? Z.of_nat i) && (Z.of_nat i <? Z.of_nat (length a))) with true
    by (symmetry; apply andb_true_intro; split;
        [apply Z.leb_le | apply Z.ltb_lt]; lia).
  now rewrite Nat2Z.id.
Qed.

Lemma firstn_succ_replace {A : Type} (a : list A) (i : nat) (v : A) :
  (i < length a)%nat ->
  firstn (S i) (firstn i a ++ v :: skipn (S i) a) = firstn i a ++ [v].
Proof using.
  intros H.
  rewrite firstn_app, length_firstn, Nat.min_l by lia.
  rewrite firstn_firstn, Nat.min_r by lia.
  replace (S i - i)%nat with 1%nat by lia. reflexivity.
Qed.

Lemma skipn_past_replace {A : Type} (a : list A) (i k : nat) (v : A) :
  (i < length a)%nat ->
  skipn (S i + k) (firstn i a ++ v :: skipn (S i) a) = skipn (S i + k) a.
Proof using.
  intros H.
  rewrite skipn_app, length_firstn, Nat.min_l by lia.
  rewrite skipn_all2 by (rewrite length_firstn; lia).
  replace (S i + k - i)%nat with (S k) by lia.
  rewrite app_nil_l, skipn_cons, skipn_skipn. f_equal. lia.
Qed.

(** Copying a run of bytes into a Uint8ClampedArray that has room for it
    replaces that stretch of the array by the run. *)
Lemma set_run_copy (source : list Z) : forall (i : nat) (d : bytes),
  Forall byte source ->
  (i + length source <= length d)%nat ->
  set_run d (Z.of_nat i) source
  = firstn i d ++ source ++ skipn (i + length source) d.
Proof using.
  induction source as [|v rest IH]; intros i d Hb Hlen; simpl.
  - rewrite Nat.add_0_r. now rewrite firstn_skipn.
  - simpl in Hlen. inversion Hb as [|? ? Hv Hrest]; subst.
    unfold store8c. rewrite clamp_byte by exact Hv.
    rewrite put_as_app by lia.
    replace (Z.of_nat i + 1) with (Z.of_nat (S i)) by lia.
    rewrite IH; [| exact Hrest
                 | rewrite length_app, length_firstn, length_cons, length_skipn; lia].
    rewrite firstn_succ_replace by lia.
    replace (S i + length rest)%nat with (S i + length rest)%nat by reflexivity.
    rewrite skipn_past_replace by lia.
    rewrite <- app_assoc. simpl.
    replace (i + S (length rest))%nat with (S i + length rest)%nat by lia.
    reflexivity.
Qed.

Lemma Forall_slice {A : Type} (P : A -> Prop) (a : list A) (n m : nat) :
  Forall P a -> Forall P (firstn n (skipn m a)).
Proof using.
  intros H.
  rewrite <- (firstn_skipn m a) in H. apply Forall_app in H. destruct H as [_ H].
  rewrite <- (firstn_skipn n (skipn m a)) in H. apply Forall_app in H.
  now destruct H.
Qed.

Lemma subarray_inside {A : Type} (a : list A) (b n : Z) :
  0 <= b -> 0 <= n -> b + n <= Z.of_nat (length a) ->
  JS.subarray a b (b + n) = firstn (Z.to_nat n) (skipn (Z.to_nat b) a).
Proof using.
  intros Hb Hn Hlen. unfold JS.subarray. cbv zeta.
  replace (b <? 0) with false by (symmetry; apply Z.ltb_ge; lia).
  replace (b + n <? 0) with false by (symmetry; apply Z.ltb_ge; lia).
  rewrite !Z.min_l by lia.
  replace (Z.max (b + n - b) 0) with n by lia. reflexivity.
Qed.

(** C5. [isPassthrough] is true exactly for DeviceRGB at 8 bits; and
    [getRgbBuffer] of DeviceRGB at 8 bits without alpha, on [n] pixels that
    the source holds as bytes and the destination has room for, replaces
    [dest[destOffset .. destOffset + 3n)] by
    [src[srcOffset .. srcOffset + 3n)] and leaves the rest of [dest]. *)
Theorem C5_passthrough_copy :
  (forall cs bits, isPassthrough cs bits = true <-> cs = DeviceRgbCS /\ bits = 8)
  /\ (forall src srcOffset n dest destOffset,
        Forall byte src ->
        0 <= n -> 0 <= srcOffset -> 0 <= destOffset ->
        srcOffset + 3 * n <= Z.of_nat (length src) ->
        destOffset + 3 * n <= Z.of_nat (length dest) ->
        getRgbBuffer DeviceRgbCS src srcOffset n dest destOffset 8 0
        = Normal (firstn (Z.to_nat destOffset) dest
                  ++ firstn (Z.to_nat (3 * n)) (skipn (Z.to_nat srcOffset) src)
                  ++ skipn (Z.to_nat (destOffset + 3 * n)) dest)).
Proof using.
  split.
  - intros cs bits. split.
    + destruct cs; simpl; try discriminate. intros H. apply Z.eqb_eq in H. now split.
    + intros [-> ->]. reflexivity.
  - intros src srcOffset n dest destOffset Hb Hn Hs Hd Hsl Hdl.
    change (getRgbBuffer DeviceRgbCS src srcOffset n dest destOffset 8 0)
      with (typed_set dest (JS.subarray src srcOffset (srcOffset + n * 3)) destOffset).
    replace (n * 3) with (3 * n) by lia.
    rewrite subarray_inside by lia.
    set (run := firstn (Z.to_nat (3 * n)) (skipn (Z.to_nat srcOffset) src)).
    assert (Hrun : length run = Z.to_nat (3 * n)).
    { unfold run. rewrite length_firstn, length_skipn. lia. }
    unfold typed_set.
    replace ((destOffset <? 0)
             || (Z.of_nat (length dest) <? Z.of_nat (length run) + destOffset))
      with false
      by (symmetry; apply orb_false_intro;
          [apply Z.ltb_ge | apply Z.ltb_ge]; lia).
    f_equal.
    replace destOffset with (Z.of_nat (Z.to_nat destOffset)) at 1 by lia.
    rewrite set_run_copy.
    + rewrite Hrun. do 3 f_equal. lia.
    + unfold run. now apply Forall_slice.
    + lia.
Qed.

(** ** Indexed *)

(** C6. [getRgbItem] of an IndexedCS on a sample that is the integer [i]
    (in particular on every index of [[0, highVal)]) is the call
    [base.getRgbBuffer(lookup, i * base.numComps, 1, dest, destOffset, 8, 0)]. *)
Theorem C6_indexed_item base highVal lookup src srcOffset (s : float) (i : Z)
    dest destOffset :
  JS.get src srcOffset = Some s ->
  JS.F2Z s = Some i ->
  0 <= i < highVal ->
  getRgbItem (IndexedCS base highVal lookup) src srcOffset dest destOffset
  = getRgbBuffer base lookup (i * countOf (numComps base)) 1 dest destOffset 8 0.
Proof using.
  intros Hs Hi _. simpl. unfold IndexedCS_getRgbItem. cbv zeta.
  rewrite Hs. simpl JS.NumF. now rewrite Hi.
Qed.

Lemma ToUint8_range (x : float) : byte (JS.ToUint8 x).
Proof using.
  unfold byte, JS.ToUint8.
  pose proof (Z.mod_pos_bound (JS.ToInteger x) 256 ltac:(lia)). lia.
Qed.

Lemma Forall_put {A : Type} (P : A -> Prop) (a : list A) (i : Z) (v : A) :
  Forall P a -> P v -> Forall P (JS.put a i v).
Proof using.
  intros Ha Hv. unfold JS.put.
  destruct ((0 <=? i) && (i <? Z.of_nat (length a))); [|exact Ha].
  rewrite <- (firstn_skipn (Z.to_nat i) a) in Ha.
  apply Forall_app in Ha. destruct Ha as [Hf Hs].
  apply Forall_app. split; [exact Hf|]. constructor; [exact Hv|].
  rewrite <- (firstn_skipn 1 (skipn (Z.to_nat i) a)) in Hs.
  apply Forall_app in Hs. destruct Hs as [_ Hs].
  rewrite skipn_skipn in Hs. exact Hs.
Qed.

Lemma Forall_skipn {A : Type} (P : A -> Prop) (a : list A) (n : nat) :
  Forall P a -> Forall P (skipn n a).
Proof using.
  intros H. rewrite <- (firstn_skipn n a) in H.
  apply Forall_app in H. now destruct H.
Qed.

Lemma zeros_bytes (n : Z) : Forall byte (zeros n).
Proof using.
  unfold zeros. apply Forall_forall. intros x Hx.
  apply repeat_spec in Hx. subst x. unfold byte. lia.
Qed.

Lemma charCode_loop_bytes codeUnits n : forall i a,
  Forall byte a -> Forall byte (charCode_loop codeUnits n i a).
Proof using.
  induction n as [|n IH]; intros i a Ha; simpl; [exact Ha|].
  apply IH. apply Forall_put; [exact Ha | apply ToUint8_range].
Qed.

Lemma charCode_loop_length codeUnits n : forall i a,
  length (charCode_loop codeUnits n i a) = length a.
Proof using.
  induction n as [|n IH]; intros i a; simpl; [reflexivity|].
  rewrite IH. apply put_length.
Qed.

(** C4, on a Uint8Array that is not sized for the palette: the constructor
    stores it as it is.  A buffer of 5 bytes given for a palette of 2 RGB
    entries makes an instance whose lookup has 5 bytes, not the 6 of
    [base.numComps * highVal]. *)
Lemma C4_unsized_buffer_is_kept :
  IndexedCS_new DeviceRgbCS 2 (LookupBytes [255; 0; 0; 0; 255])
  = inr (IndexedCS DeviceRgbCS 2 [255; 0; 0; 0; 255])
  /\ Z.of_nat (length [255; 0; 0; 0; 255])
     <> countOf (numComps DeviceRgbCS) * 2.
Proof using. split; [reflexivity | vm_compute; discriminate]. Qed.

(** C4, as amended.  A successful [new IndexedCS(base, highVal, lookup)]
    stores a buffer of bytes.  From a Stream (of bytes) and from a string the
    buffer is allocated by the constructor and has
    [base.numComps * highVal] bytes; a Uint8Array is stored as it is,
    whatever its length; and a [lookup] of any other kind makes the
    construction throw a FormatError. *)
Theorem C4_indexed_lookup_stored base highVal lookup :
  match lookup with
  | LookupStream getBytes =>
      Forall byte (getBytes (Some (countOf (numComps base) * highVal)))
  | LookupBytes b => Forall byte b
  | _ => True
  end ->
  (forall cs, IndexedCS_new base highVal lookup = inr cs ->
     exists l, cs = IndexedCS base highVal l
               /\ Forall byte l
               /\ match lookup with
                  | LookupBytes b => l = b
                  | _ => Z.of_nat (length l) = countOf (numComps base) * highVal
                  end)
  /\ (match lookup with
      | LookupBytes b => IndexedCS_new base highVal lookup
                         = inr (IndexedCS base highVal b)
      | LookupOther => exists msg,
          IndexedCS_new base highVal lookup = inl (FormatError msg)
      | _ => True
      end).
Proof using.
  intros Hwf. split.
  - intros cs Hnew. unfold IndexedCS_new in Hnew. cbv zeta in Hnew.
    set (len := countOf (numComps base) * highVal) in *.
    destruct lookup as [getBytes|codeUnits|b|].
    + destruct (len <? 0) eqn:Hneg; [discriminate|]. apply Z.ltb_ge in Hneg.
      unfold set_bytes in Hnew.
      destruct (Z.of_nat (length (zeros len))
                <? Z.of_nat (length (getBytes (Some len)))) eqn:Hfit;
        [discriminate|].
      apply Z.ltb_ge in Hfit. injection Hnew as <-.
      eexists. split; [reflexivity|]. split.
      * apply Forall_app. split; [exact Hwf|].
        apply Forall_skipn. apply zeros_bytes.
      * unfold zeros in *. rewrite repeat_length in Hfit.
        rewrite length_app, length_skipn, repeat_length. lia.
    + destruct (len <? 0) eqn:Hneg; [discriminate|]. apply Z.ltb_ge in Hneg.
      injection Hnew as <-. eexists. split; [reflexivity|]. split.
      * apply charCode_loop_bytes. apply zeros_bytes.
      * rewrite charCode_loop_length. unfold zeros. rewrite repeat_length. lia.
    + injection Hnew as <-. eexists. split; [reflexivity|].
      split; [exact Hwf | reflexivity].
    + discriminate.
  - destruct lookup; try exact I; [reflexivity | eexists; reflexivity].
Qed.

(** The construction does succeed on a string and on a Stream that hands out
    no more bytes than asked for. *)
Lemma IndexedCS_new_succeeds base highVal :
  0 <= countOf (numComps base) * highVal ->
  (forall codeUnits,
      exists l, IndexedCS_new base highVal (LookupString codeUnits)
                = inr (IndexedCS base highVal l))
  /\ (forall getBytes,
        Z.of_nat (length (getBytes (Some (countOf (numComps base) * highVal))))
        <= countOf (numComps base) * highVal ->
        exists l, IndexedCS_new base highVal (LookupStream getBytes)
                  = inr (IndexedCS base highVal l)).
Proof using.
  intros Hlen. unfold IndexedCS_new. cbv zeta.
  replace (countOf (numComps base) * highVal <? 0) with false
    by (symmetry; apply Z.ltb_ge; exact Hlen).
  split.
  - intros codeUnits. eexists. reflexivity.
  - intros getBytes Hfit. unfold set_bytes.
    replace (Z.of_nat (length (zeros (countOf (numComps base) * highVal)))
             <? Z.of_nat (length (getBytes (Some (countOf (numComps base) * highVal)))))
      with false.
    + eexists. reflexivity.
    + symmetry. apply Z.ltb_ge. unfold zeros. rewrite repeat_length. lia.
Qed.

(** ** The ICCBased descriptor *)

Lemma bind_ext {A B : Type} (m : M A) (k1 k2 : A -> M B) :
  (forall a, k1 a = k2 a) -> bind m k1 = bind m k2.
Proof using.
  intros H. destruct m as [l [e|a]]; simpl; [reflexivity | now rewrite H].
Qed.

Lemma parseToIR_ICCBased fuel xref res items dict gb :
  fetchIfRef xref (item items 0) = Some (PName "ICCBased") ->
  fetchIfRef xref (item items 1) = Some (PStream dict gb) ->
  parseToIR (S fuel) (Some (PArray items)) xref res
  = (usable <-
       (if truthy (Dict_get xref dict "Alternate") then
          altIR <- parseToIR fuel (Dict_get xref dict "Alternate") xref res ;;
          altCS <- fromIR altIR ;;
          if numComps_seq (numComps altCS) (Dict_get xref dict "N")
          then ret (Some altIR)
          else warn "ICCBased color space: Ignoring incorrect /Alternate entry." ;;;
               ret None
        else ret None) ;;
     match usable with
     | Some altIR => ret altIR
     | None => lift (device_by_N (Dict_get xref dict "N"))
     end).
Proof using.
  intros H0 H1.
  change (parseToIR (S fuel) (Some (PArray items)) xref res)
    with (parseToIR_array (fun c => parseToIR fuel c xref res) xref items).
  unfold parseToIR_array. rewrite H0. cbv beta iota.
  change (String.eqb "ICCBased" "DeviceGray") with false.
  change (String.eqb "ICCBased" "G") with false.
  change (String.eqb "ICCBased" "DeviceRGB") with false.
  change (String.eqb "ICCBased" "RGB") with false.
  change (String.eqb "ICCBased" "DeviceCMYK") with false.
  change (String.eqb "ICCBased" "CMYK") with false.
  change (String.eqb "ICCBased" "CalGray") with false.
  change (String.eqb "ICCBased" "CalRGB") with false.
  change (String.eqb "ICCBased" "ICCBased") with true.
  cbv beta iota. simpl orb. cbv beta iota. rewrite H1.
  apply bind_ext. intros [altIR|]; [reflexivity|].
  unfold device_by_N, lift, ret, throw.
  destruct (is_number _ 1); [reflexivity|].
  destruct (is_number _ 3); [reflexivity|].
  destruct (is_number _ 4); reflexivity.
Qed.

Lemma device_by_N_numComps (N : jsval) (ir : IR) (l : list logmsg) (cs : ColorSpace) :
  device_by_N N = inr ir -> fromIR ir = (l, inr cs) ->
  numComps_seq (numComps cs) N = true.
Proof using.
  unfold device_by_N, is_number. intros HN Hir.
  destruct (numComps_seq (Some 1) N) eqn:E1.
  { injection HN as <-. simpl in Hir. injection Hir as _ <-. exact E1. }
  destruct (numComps_seq (Some 3) N) eqn:E3.
  { injection HN as <-. simpl in Hir. injection Hir as _ <-. exact E3. }
  destruct (numComps_seq (Some 4) N) eqn:E4.
  { injection HN as <-. simpl in Hir. injection Hir as _ <-. exact E4. }
  discriminate.
Qed.

(** C7. Parsing [[/ICCBased stream]], with [N] and [Alternate] read from the
    dictionary of the stream and enough fuel for the Alternate:
    - without an Alternate, the result is the device space that [N] selects:
      DeviceGrayCS for 1, DeviceRgbCS for 3, DeviceCmykCS for 4, and a
      FormatError for any other [N];
    - when parsing or building the Alternate throws, so does the parse;
    - when the component count of the Alternate is [N], the result is the
      IR of the Alternate;
    - when it is not, a warning is logged, the result is again what [N]
      selects, and it is not the IR of the Alternate. *)
Theorem C7_parse_ICCBased fuel xref res items dict gb :
  fetchIfRef xref (item items 0) = Some (PName "ICCBased") ->
  fetchIfRef xref (item items 1) = Some (PStream dict gb) ->
  let N := Dict_get xref dict "N" in
  let alt := Dict_get xref dict "Alternate" in
  let r := parseToIR (S fuel) (Some (PArray items)) xref res in
  (truthy alt = false -> r = ([], device_by_N N))
  /\ (truthy alt = true ->
      (forall l1 e, parseToIR fuel alt xref res = (l1, inl e) -> r = (l1, inl e))
      /\ (forall l1 altIR, parseToIR fuel alt xref res = (l1, inr altIR) ->
          (forall l2 e, fromIR altIR = (l2, inl e) -> r = (l1 ++ l2, inl e))
          /\ (forall l2 altCS, fromIR altIR = (l2, inr altCS) ->
              (numComps_seq (numComps altCS) N = true ->
               r = (l1 ++ l2, inr altIR))
              /\ (numComps_seq (numComps altCS) N = false ->
                  r = (l1 ++ l2 ++ [ignoring_alternate], device_by_N N)
                  /\ snd r <> inr altIR)))).
Proof using.
  intros H0 H1 N alt r.
  assert (Hr := parseToIR_ICCBased fuel xref res items dict gb H0 H1).
  fold N alt r in Hr.
  split.
  - intros Hf. rewrite Hr, Hf. cbn [bind ret lift]. now destruct (device_by_N N).
  - intros Ht. rewrite Ht in Hr. split.
    + intros l1 e Hp. rewrite Hr, Hp. reflexivity.
    + intros l1 altIR Hp. rewrite Hp in Hr. split.
      * intros l2 e Hf. rewrite Hr. cbn [bind]. rewrite Hf. reflexivity.
      * intros l2 altCS Hf. split.
        -- intros Hn. rewrite Hr. cbn [bind]. rewrite Hf. cbn [bind].
           rewrite Hn. cbn [bind ret]. now rewrite !app_nil_r.
        -- intros Hn.
           assert (E : r = (l1 ++ l2 ++ [ignoring_alternate], device_by_N N)).
           { rewrite Hr. cbn [bind]. rewrite Hf. cbn [bind].
             rewrite Hn. cbn [bind ret warn lift].
             destruct (device_by_N N); cbn [app]; now rewrite ?app_nil_r. }
           split; [exact E|].
           rewrite E. cbn [snd]. intros HN.
           pose proof (device_by_N_numComps N altIR l2 altCS HN Hf) as Hc.
           congruence.
Qed.

(** ** resizeRgbImage *)

Lemma xScaled_loop_length xRatio n : forall i xs,
  length (xScaled_loop xRatio n i xs) = length xs.
Proof using.
  induction n as [|n IH]; intros i xs; simpl; [reflexivity|].
  rewrite IH. apply put_length.
Qed.

Lemma xScaled_loop_below xRatio n : forall i xs k,
  k < i -> JS.get (xScaled_loop xRatio n i xs) k = JS.get xs k.
Proof using.
  induction n as [|n IH]; intros i xs k Hk; simpl; [reflexivity|].
  rewrite IH by lia. apply get_put_other. lia.
Qed.

Lemma xScaled_loop_get xRatio n : forall i xs (j : nat),
  (j < n)%nat -> 0 <= i -> i + Z.of_nat j < Z.of_nat (length xs) ->
  JS.get (xScaled_loop xRatio n i xs) (i + Z.of_nat j)
  = Some (xScaled_entry xRatio (i + Z.of_nat j)).
Proof using.
  induction n as [|n IH]; intros i xs j Hj Hi Hlen; [lia|].
  cbn [xScaled_loop]. destruct j as [|j].
  - rewrite Z.add_0_r in *. rewrite xScaled_loop_below by lia.
    apply get_put_same. lia.
  - replace (i + Z.of_nat (S j)) with (i + 1 + Z.of_nat j) by lia.
    apply IH; [lia | lia | rewrite put_length; lia].
Qed.

Lemma resize_row_length src xScaled py alpha01 n : forall j newIndex d,
  length (fst (resize_row src xScaled py alpha01 n j newIndex d)) = length d.
Proof using.
  induction n as [|n IH]; intros j newIndex d; simpl; [reflexivity|].
  rewrite IH. unfold store8c. now rewrite !put_length.
Qed.





(** [alpha01] is normalized at entry: any value other than 1 behaves as 0. *)
Lemma resizeRgbImage_alpha01 src dest w1 h1 w2 h2 alpha01 :
  alpha01 <> 1 ->
  resizeRgbImage src dest w1 h1 w2 h2 alpha01
  = resizeRgbImage src dest w1 h1 w2 h2 0.
Proof using.
  intros H. unfold resizeRgbImage.
  replace (alpha01 =? 1) with false by (symmetry; apply Z.eqb_neq; exact H).
  reflexivity.
Qed.

(** ** A Separation space over Lab *)

(** C2, on a Separation space over Lab with one pixel of full tint at 8
    bits.  The tint function gives Lab (100, 0, 0), which the base space
    converts to white; [getRgbBuffer] writes white when [alpha01] is 0, but
    with [alpha01 = 1] it stages the white pixel and runs the Lab conversion
    on the staged bytes a second time, and writes (255, 137, 45). *)
Theorem C2_alternate_over_lab_converts_twice :
  let scaled := [JS.fround (JS.Z2F 255 * (1 / JS.Z2F (JS.shl 1 8 - 1)))%float] in
  let tinted := storeF32_run (fzeros 3) 0 (tint_lightness scaled 0) in
  getRgbItem (LabCS lab_D65) tinted 0 (zeros 4) 0 = Normal [255; 255; 255; 0]
  /\ getRgbBuffer separation_over_lab [255] 0 1 (zeros 3) 0 8 0
     = Normal [255; 255; 255]
  /\ getRgbBuffer separation_over_lab [255] 0 1 (zeros 4) 0 8 1
     = Normal [255; 137; 45; 0].
Proof using. cbv zeta. repeat split; vm_compute; reflexivity. Qed.

(** Over a base that uses the zero-to-one range the loop never throws: it
    only stages [tinted[j] * 255] as bytes. *)
Lemma Alternate_loop_stages base_getRgbItem tintFn scale numComps_ baseNumComps src :
  forall n srcOffset pos scaled tinted baseBuf,
    exists staged,
      Alternate_loop base_getRgbItem tintFn scale numComps_ baseNumComps true
        src n srcOffset pos scaled tinted baseBuf = Normal staged.
Proof using.
  induction n as [|n IH]; intros srcOffset pos scaled tinted baseBuf; simpl.
  - now exists baseBuf.
  - destruct (Alternate_scale_loop scale src (Z.to_nat numComps_) 0 srcOffset scaled)
      as [scaled' srcOffset'].
    destruct (Alternate_stage_loop (storeF32_run tinted 0 (tintFn scaled' 0))
                (Z.to_nat baseNumComps) 0 pos baseBuf) as [baseBuf' pos'].
    apply IH.
Qed.

(** The staged path of [AlternateCS.getRgbBuffer]: when the base uses the
    zero-to-one range and the output is not passed through, the call ends as
    [base.getRgbBuffer(staged, 0, count, dest, destOffset, 8, alpha01)] on a
    staging buffer of bytes. *)
Lemma AlternateCS_staged_then_base n base tintFn tmpBuf src srcOffset count
    dest destOffset bits alpha01 :
  usesZeroToOneRange base = true ->
  isPassthrough base 8 && (alpha01 =? 0) = false ->
  0 <= n -> 0 <= countOf (numComps base) -> 0 <= count ->
  exists staged,
    Forall byte staged
    /\ getRgbBuffer (AlternateCS n base tintFn tmpBuf) src srcOffset count dest
         destOffset bits alpha01
       = getRgbBuffer base staged 0 count dest destOffset 8 alpha01.
Proof using.
  intros Hu Hp Hn Hb Hc.
  change (getRgbBuffer (AlternateCS n base tintFn tmpBuf) src srcOffset count
            dest destOffset bits alpha01)
    with (AlternateCS_getRgbBuffer n base (getRgbItem base) (getRgbBuffer base)
            tintFn src srcOffset count dest destOffset bits alpha01).
  unfold AlternateCS_getRgbBuffer. cbv zeta. rewrite Hu.
  replace ((isPassthrough base 8 || negb true) && (alpha01 =? 0)) with false
    by (rewrite orb_false_r; symmetry; exact Hp).
  replace (negb false && (countOf (numComps base) * count <? 0)) with false
    by (symmetry; apply Z.ltb_ge; nia).
  replace ((n <? 0) || (countOf (numComps base) <? 0)) with false
    by (symmetry; apply orb_false_intro; apply Z.ltb_ge; lia).
  match goal with |- context [Alternate_loop ?f ?t ?s ?a ?b true ?sr ?k ?so ?p ?sc ?ti ?bb] =>
    pose proof (Alternate_loop_ok f t s a b true sr
                  (proj1 (getRgb_ok base)) k so p sc ti bb bb
                  (writes_bytes_refl bb)) as Hw;
    destruct (Alternate_loop_stages f t s a b sr k so p sc ti bb) as [staged Hs];
    rewrite Hs in Hw |- * end.
  exists staged. split; [|reflexivity].
  simpl in Hw. destruct Hw as [Hlen Hw].
  apply Forall_forall. intros x Hx.
  apply In_nth_error in Hx. destruct Hx as [k Hk].
  destruct (Hw (Z.of_nat k)) as [E|(b & E & Hbyte)];
    unfold JS.get in E;
    replace (Z.of_nat k <? 0) with false in E by (symmetry; apply Z.ltb_ge; lia);
    rewrite Nat2Z.id, Hk in E.
  - symmetry in E. apply nth_error_In in E. unfold zeros in E.
    apply repeat_spec in E. subst x. unfold byte. lia.
  - injection E as ->. exact Hbyte.
Qed.

(** ** fillRgb against the direct conversion *)

(** C3, without resizing.  On three one-bit pixels of the Separation space
    over Lab with [alpha01 = 1], the colour map (built with [alpha01 = 0])
    gives black, white, white, and the direct [getRgbBuffer] gives other
    colours; on a 2 x 2 indexed raster of which one row was decoded
    ([actualHeight = 1]), the colour-map path fills both rows and the direct
    [getRgbBuffer] the decoded row only. *)
Theorem C3_fillRgb_differs_from_direct :
  (fillRgb separation_over_lab (zeros 12) 3 1 3 1 1 1 [0; 1; 1] 1
   = Normal [0; 0; 0; 0; 255; 255; 255; 0; 255; 255; 255; 0]
   /\ getRgbBuffer separation_over_lab [0; 1; 1] 0 (3 * 1) (zeros 12) 0 1 1
      = Normal [0; 48; 139; 0; 255; 137; 45; 0; 255; 137; 45; 0])
  /\ (fillRgb red_green (repeat 9 12) 2 2 2 2 1 1 [1; 0; 1; 1] 0
      = Normal [0; 255; 0; 255; 0; 0; 0; 255; 0; 0; 255; 0]
      /\ getRgbBuffer red_green [1; 0; 1; 1] 0 (2 * 1) (repeat 9 12) 0 1 0
         = Normal [0; 255; 0; 255; 0; 0; 9; 9; 9; 9; 9; 9]).
Proof using. repeat split; vm_compute; reflexivity. Qed.

(** ** The scenarios of the specification, run on the model *)

Example DeviceGray_scenario :
  getRgbBuffer DeviceGrayCS [0; 127; 255] 0 3 (zeros 9) 0 8 0
  = Normal [0; 0; 0; 127; 127; 127; 255; 255; 255].
Proof using. vm_compute. reflexivity. Qed.

Example DeviceRgb_scenario :
  getRgbBuffer DeviceRgbCS [10; 20; 30; 40; 50; 60] 0 2 (zeros 6) 0 8 0
  = Normal [10; 20; 30; 40; 50; 60].
Proof using. vm_compute. reflexivity. Qed.

Example DeviceCmyk_scenario :
  getRgbBuffer DeviceCmykCS [0; 0; 0; 0; 255; 255; 255; 255] 0 2 (zeros 6) 0 8 0
  = Normal [255; 255; 255; 6; 6; 12].
Proof using. vm_compute. reflexivity. Qed.

Example Indexed_scenario :
  getRgbBuffer red_green [0; 1] 0 2 (zeros 6) 0 8 0
  = Normal [255; 0; 0; 0; 255; 0].
Proof using. vm_compute. reflexivity. Qed.

(** A 2 x 2 image resized to its own size is copied, with the alpha slot
    skipped when [alpha01] is 1. *)
Example resize_identity_small :
  resizeRgbImage [1; 2; 3; 4; 5; 6; 7; 8; 9; 10; 11; 12] (zeros 12) 2 2 2 2 0
  = Normal [1; 2; 3; 4; 5; 6; 7; 8; 9; 10; 11; 12]
  /\ resizeRgbImage [1; 2; 3; 4; 5; 6; 7; 8; 9; 10; 11; 12] (repeat 255 16) 2 2 2 2 1
     = Normal [1; 2; 3; 255; 4; 5; 6; 255; 7; 8; 9; 255; 10; 11; 12; 255].
Proof using. split; vm_compute; reflexivity. Qed.

(** Nearest-neighbour reduction of a 4 x 2 image to 2 x 1. *)
Example resize_halves :
  resizeRgbImage
    [1; 1; 1; 2; 2; 2; 3; 3; 3; 4; 4; 4; 5; 5; 5; 6; 6; 6; 7; 7; 7; 8; 8; 8]
    (zeros 6) 4 2 2 1 0
  = Normal [1; 1; 1; 3; 3; 3].
Proof using. vm_compute. reflexivity. Qed.

(** Without resizing and on a fully decoded raster of a space over
    DeviceRGB, [fillRgb] and the direct [getRgbBuffer] agree. *)
Example fillRgb_indexed_full :
  fillRgb red_green (repeat 9 16) 2 2 2 2 2 1 [1; 0; 1; 1] 1
  = getRgbBuffer red_green [1; 0; 1; 1] 0 (2 * 2) (repeat 9 16) 0 1 1.
Proof using. vm_compute. reflexivity. Qed.

(** DeviceRGB at 8 bits is passed through: [fillRgb] copies the samples. *)
Example fillRgb_passthrough :
  fillRgb DeviceRgbCS (repeat 9 8) 2 1 2 1 1 8 [10; 20; 30; 40; 50; 60] 1
  = Normal [10; 20; 30; 9; 40; 50; 60; 9].
Proof using. vm_compute. reflexivity. Qed.

(** * Further properties *)

(** ** The monad of construction *)

Lemma bind_inr {A B : Type} (m : M A) (k : A -> M B) l b :
  bind m k = (l, inr b) ->
  exists l1 a l2, m = (l1, inr a) /\ k a = (l2, inr b) /\ l = l1 ++ l2.
Proof using.
  destruct m as [l1 [e|a]]; simpl; [discriminate|].
  destruct (k a) as [l2 r] eqn:Hk. intros H. injection H as <- ->.
  exists l1, a, l2. repeat split. exact Hk.
Qed.

Lemma bind_inl {A B : Type} (m : M A) (k : A -> M B) l e :
  bind m k = (l, inl e) ->
  m = (l, inl e)
  \/ exists l1 a l2, m = (l1, inr a) /\ k a = (l2, inl e) /\ l = l1 ++ l2.
Proof using.
  destruct m as [l1 [e1|a]]; simpl.
  - intros H. injection H as <- <-. now left.
  - destruct (k a) as [l2 r] eqn:Hk. intros H. injection H as <- ->.
    right. exists l1, a, l2. repeat split. exact Hk.
Qed.

(** ** What the constructors guarantee *)







(** ** From the IR to the instance *)

Ltac new_shape :=
  repeat first
    [ progress cbn [bind info ret warn throw app]
    | match goal with
      | |- context [if ?c then _ else _] => destruct c
      end ];
  try discriminate;
  intros H; injection H as _ <-; eexists; reflexivity.

Lemma CalGrayCS_new_shape whitePoint blackPoint gamma l cs :
  CalGrayCS_new whitePoint blackPoint gamma = (l, inr cs) ->
  exists p, cs = CalGrayCS p.
Proof using.
  unfold CalGrayCS_new. cbv zeta.
  destruct whitePoint as [wp|]; [|discriminate].
  destruct (_ || _ || JS.sneq _ _); [discriminate|].
  set (g := match gamma with Some g0 => _ | None => _ end). clearbody g.
  set (bp := orElse blackPoint _). clearbody bp.
  new_shape.
Qed.

Lemma CalRGBCS_new_shape whitePoint blackPoint gamma matrix l cs :
  CalRGBCS_new whitePoint blackPoint gamma matrix = (l, inr cs) ->
  exists p, cs = CalRGBCS p.
Proof using.
  unfold CalRGBCS_new. cbv zeta.
  destruct whitePoint as [wp|]; [|discriminate].
  destruct (_ || _ || JS.sneq _ _); [discriminate|].
  set (bp := orElse blackPoint _). clearbody bp.
  set (gm := orElse gamma _). clearbody gm.
  set (mx := orElse matrix _). clearbody mx.
  new_shape.
Qed.

Lemma LabCS_new_shape whitePoint blackPoint range l cs :
  LabCS_new whitePoint blackPoint range = (l, inr cs) ->
  exists p, cs = LabCS p.
Proof using.
  unfold LabCS_new. cbv zeta.
  destruct whitePoint as [wp|]; [|discriminate].
  destruct (_ || _ || JS.sneq _ _); [discriminate|].
  set (bp := orElse blackPoint _). clearbody bp.
  set (rg := orElse range _). clearbody rg.
  new_shape.
Qed.

Lemma IndexedCS_new_shape base highVal lookup cs :
  IndexedCS_new base highVal lookup = inr cs ->
  exists l, cs = IndexedCS base highVal l.
Proof using.
  unfold IndexedCS_new. cbv zeta.
  destruct lookup as [getBytes|codeUnits|b|].
  - destruct (_ <? 0); [discriminate|].
    destruct (set_bytes _ _); [discriminate|].
    intros H. injection H as <-. eexists. reflexivity.
  - destruct (_ <? 0); [discriminate|].
    intros H. injection H as <-. eexists. reflexivity.
  - intros H. injection H as <-. eexists. reflexivity.
  - discriminate.
Qed.

(** X4. The instance that [fromIR] returns has the class that the tag of the
    IR names, and the component count that goes with it: 1 for the gray and
    the indexed spaces, 3 for the RGB and Lab spaces, 4 for CMYK, the number
    of colorants for an Alternate space and none for a Pattern. *)
Theorem fromIR_class ir l cs :
  fromIR ir = (l, inr cs) ->
  IR_name ir = Some (name cs) /\ IR_numComps ir = numComps cs.
Proof using.
  destruct ir as [ | | | wp bp g | wp bp g m | b | b hv lk | n b t | wp bp rg | nm];
    cbn [fromIR]; intros H.
  - injection H as _ <-. now split.
  - injection H as _ <-. now split.
  - injection H as _ <-. now split.
  - apply CalGrayCS_new_shape in H. destruct H as (p & ->). now split.
  - apply CalRGBCS_new_shape in H. destruct H as (p & ->). now split.
  - destruct b as [b|].
    + apply bind_inr in H. destruct H as (l1 & a & l2 & _ & H & _).
      injection H as _ <-. now split.
    + injection H as _ <-. now split.
  - apply bind_inr in H. destruct H as (l1 & a & l2 & _ & H & _).
    unfold lift in H. injection H as _ H.
    apply IndexedCS_new_shape in H. destruct H as (tbl & ->). now split.
  - apply bind_inr in H. destruct H as (l1 & a & l2 & _ & H & _).
    unfold lift, AlternateCS_new in H. injection H as _ H.
    destruct (_ <? 0); [discriminate|]. injection H as <-. now split.
  - apply LabCS_new_shape in H. destruct H as (p & ->). now split.
  - discriminate.
Qed.

(** ** getOutputLength and getRgb *)

(** X6. [getOutputLength] throws exactly when the chain of Indexed and
    Alternate spaces ends in a Pattern, which inherits the method that calls
    [unreachable]; on every other space it returns a Number. *)
Theorem getOutputLength_throws_iff_pattern cs : forall inputLength alpha01,
  (is_pattern (innermost cs) = true ->
   getOutputLength cs inputLength alpha01
   = inl (UnreachableError "Should not call ColorSpace.getOutputLength"))
  /\ (is_pattern (innermost cs) = false ->
      exists len, getOutputLength cs inputLength alpha01 = inr len).
Proof using.
  induction cs as [ | | | p | p | p | base IH hv lookup | n base IH tintFn tmpBuf | base ];
    intros inputLength alpha01; cbn [getOutputLength innermost is_pattern];
    try (split; [discriminate | intros _; eexists; reflexivity]).
  - apply IH.
  - apply IH.
  - split; [reflexivity | discriminate].
Qed.

Lemma writes_bytes_Forall (d d' : bytes) :
  writes_bytes d d' -> Forall byte d -> Forall byte d'.
Proof using.
  intros [_ Hw] Hd. apply Forall_forall. intros x Hx.
  apply In_nth_error in Hx. destruct Hx as [k Hk].
  destruct (Hw (Z.of_nat k)) as [E|(b & E & Hb)];
    unfold JS.get in E;
    replace (Z.of_nat k <? 0) with false in E by (symmetry; apply Z.ltb_ge; lia);
    rewrite Nat2Z.id, Hk in E.
  - symmetry in E. apply nth_error_In in E.
    exact (proj1 (Forall_forall _ _) Hd x E).
  - injection E as ->. exact Hb.
Qed.

(** X7. When [getRgb] returns, it returns three components, each in
    [0, 255]. *)
Theorem getRgb_three_bytes cs src srcOffset rgb :
  getRgb cs src srcOffset = inr rgb ->
  length rgb = 3%nat /\ Forall byte rgb.
Proof using.
  unfold getRgb. intros H.
  pose proof (proj1 (getRgb_ok cs) src srcOffset (zeros 3) 0 (zeros 3)
                (writes_bytes_refl _)) as Hw.
  destruct (getRgbItem cs src srcOffset (zeros 3) 0) as [d|e d]; [|discriminate].
  injection H as <-. cbn [dest_of] in Hw. split.
  - destruct Hw as [Hl _]. rewrite Hl. reflexivity.
  - apply (writes_bytes_Forall (zeros 3)); [exact Hw | apply zeros_bytes].
Qed.

(** ** What parseToIR returns *)

Ltac known_step :=
  match goal with
  | H : ret _ = (_, inr _) |- _ => injection H as _ <-
  | H : throw _ = (_, inr _) |- _ => discriminate H
  | H : lift (inl _) = (_, inr _) |- _ => discriminate H
  | H : bind _ _ = (_, inr _) |- _ =>
      let l1 := fresh "l" in let a := fresh "a" in let l2 := fresh "l" in
      let H1 := fresh "H" in let H2 := fresh "H" in
      apply bind_inr in H; destruct H as (l1 & a & l2 & H1 & H2 & _)
  | H : (if ?c then _ else _) = (_, inr _) |- _ => destruct c
  | H : match ?x with _ => _ end = (_, inr _) |- _ => destruct x
  end.

Lemma parseToIR_array_known (parse_ : jsval -> M IR) xref items l ir :
  (forall c l' ir', parse_ c = (l', inr ir') -> IR_known ir') ->
  parseToIR_array parse_ xref items = (l, inr ir) -> IR_known ir.
Proof using.
  intros Hp H. unfold parseToIR_array in H.
  repeat known_step; cbn [IR_known]; eauto.
Qed.

(** X5. Whatever the descriptor, the cross-reference table, the resources
    and the fuel, an IR that [parseToIR] returns is built from the nine tags
    that [fromIR] knows, at every depth. *)
Theorem parseToIR_known fuel : forall cs xref res l ir,
  parseToIR fuel cs xref res = (l, inr ir) -> IR_known ir.
Proof using.
  induction fuel as [|fuel IH]; intros cs xref res l ir H; [discriminate|].
  cbn [parseToIR] in H.
  assert (Hp : forall c l' ir',
             (fun c0 => parseToIR fuel c0 xref res) c = (l', inr ir') ->
             IR_known ir') by (intros c l' ir' Hc; eapply IH; exact Hc).
  unfold parseToIR_rest in H.
  repeat first
    [ match goal with
      | H : parseToIR_array _ _ _ = (_, inr _) |- _ =>
          exact (parseToIR_array_known _ _ _ _ _ Hp H)
      | H : parseToIR fuel _ _ _ = (_, inr _) |- _ => exact (IH _ _ _ _ _ H)
      end
    | known_step ]; cbn [IR_known]; eauto.
Qed.

(** ** The pixel loops *)

Lemma get_negative {A : Type} (a : list A) (i : Z) : i < 0 -> JS.get a i = None.
Proof using.
  intros H. unfold JS.get.
  now replace (i <? 0) with true by (symmetry; apply Z.ltb_lt; lia).
Qed.

Lemma get_beyond {A : Type} (a : list A) (i : Z) :
  Z.of_nat (length a) <= i -> JS.get a i = None.
Proof using.
  intros H. unfold JS.get. destruct (i <? 0); [reflexivity|].
  apply nth_error_None. lia.
Qed.

Lemma get_inside {A : Type} (a : list A) (i : Z) :
  0 <= i < Z.of_nat (length a) -> exists v, JS.get a i = Some v.
Proof using.
  intros H. unfold JS.get.
  replace (i <? 0) with false by (symmetry; apply Z.ltb_ge; lia).
  destruct (nth_error a (Z.to_nat i)) as [v|] eqn:E; [now exists v|].
  apply nth_error_None in E. lia.
Qed.

Lemma get_ext {A : Type} (a b : list A) :
  (forall i, JS.get a i = JS.get b i) -> a = b.
Proof using.
  intros H. apply nth_error_ext. intros n.
  specialize (H (Z.of_nat n)). unfold JS.get in H.
  replace (Z.of_nat n <? 0) with false in H by (symmetry; apply Z.ltb_ge; lia).
  now rewrite Nat2Z.id in H.
Qed.

Lemma get_put {A : Type} (a : list A) (i j : Z) (v : A) :
  JS.get (JS.put a i v) j
  = if (i =? j) && (0 <=? i) && (i <? Z.of_nat (length a)) then Some v
    else JS.get a j.
Proof using.
  destruct (Z.eq_dec i j) as [->|Hij].
  - rewrite Z.eqb_refl. cbn [andb].
    destruct ((0 <=? j) && (j <? Z.of_nat (length a))) eqn:E.
    + apply andb_prop in E. destruct E as [E1 E2].
      apply Z.leb_le in E1. apply Z.ltb_lt in E2.
      apply get_put_same. lia.
    + unfold JS.put. now rewrite E.
  - rewrite get_put_other by exact Hij.
    now replace (i =? j) with false by (symmetry; apply Z.eqb_neq; exact Hij).
Qed.

(** Three stores at [q], [q + 1], [q + 2], read back. *)
Lemma get_put3 (d : bytes) (q r g b i : Z) :
  JS.get (JS.put (JS.put (JS.put d q r) (q + 1) g) (q + 2) b) i
  = if (0 <=? i) && (i <? Z.of_nat (length d)) then
      if i =? q then Some r
      else if i =? q + 1 then Some g
      else if i =? q + 2 then Some b
      else JS.get d i
    else JS.get d i.
Proof using.
  rewrite !get_put, !put_length.
  repeat match goal with
         | |- context [Z.eqb ?a ?b] => destruct (Z.eqb_spec a b); try lia
         | |- context [Z.leb ?a ?b] => destruct (Z.leb_spec a b); try lia
         | |- context [Z.ltb ?a ?b] => destruct (Z.ltb_spec a b); try lia
         end; cbn [andb]; try reflexivity; try (subst; reflexivity).
Qed.

Section PixelLoop.

Variable W : Z -> bytes -> Z -> bytes.
Variables step stride : Z.
Hypothesis HW : pixel_writer W.

Lemma pixel_writer_length s d q : length (W s d q) = length d.
Proof using HW.
  destruct (HW s) as (r & g & b & E). rewrite E. now rewrite !put_length.
Qed.

Lemma pixel_loop_length n : forall s q d,
  length (pixel_loop W step stride n s q d) = length d.
Proof using HW.
  induction n as [|n IH]; intros s q d; cbn [pixel_loop]; [reflexivity|].
  rewrite IH. apply pixel_writer_length.
Qed.

(** Outside the slots of its pixels the loop leaves the buffer as it was. *)
Lemma pixel_loop_frame n : forall s q d i,
  (forall (k : nat) c, (k < n)%nat -> 0 <= c < 3 ->
                       i <> q + Z.of_nat k * stride + c) ->
  JS.get (pixel_loop W step stride n s q d) i = JS.get d i.
Proof using HW.
  induction n as [|n IH]; intros s q d i Hi; cbn [pixel_loop]; [reflexivity|].
  rewrite IH.
  - destruct (HW s) as (r & g & b & E). rewrite E, get_put3.
    pose proof (Hi 0%nat 0 ltac:(lia) ltac:(lia)) as H0.
    pose proof (Hi 0%nat 1 ltac:(lia) ltac:(lia)) as H1.
    pose proof (Hi 0%nat 2 ltac:(lia) ltac:(lia)) as H2.
    cbn [Z.of_nat] in H0, H1, H2.
    destruct ((0 <=? i) && (i <? Z.of_nat (length d))); [|reflexivity].
    destruct (Z.eqb_spec i q); [lia|].
    destruct (Z.eqb_spec i (q + 1)); [lia|].
    destruct (Z.eqb_spec i (q + 2)); [lia|]. reflexivity.
  - intros k c Hk Hc. specialize (Hi (S k) c ltac:(lia) Hc). lia.
Qed.

(** The bytes of pixel [k] are the bytes that [W] gives by itself for the
    source position of that pixel. *)
Lemma pixel_loop_slot n : forall s q d (k : nat) c,
  3 <= stride -> (k < n)%nat -> 0 <= c < 3 ->
  0 <= q + Z.of_nat k * stride + c < Z.of_nat (length d) ->
  JS.get (pixel_loop W step stride n s q d) (q + Z.of_nat k * stride + c)
  = JS.get (W (s + Z.of_nat k * step) (zeros 3) 0) c.
Proof using HW.
  induction n as [|n IH]; intros s q d k c Hs Hk Hc Hin; [lia|].
  cbn [pixel_loop]. destruct k as [|k].
  - cbn [Z.of_nat] in *. rewrite Z.mul_0_l, !Z.add_0_r in *.
    rewrite pixel_loop_frame by (intros; nia).
    destruct (HW s) as (r & g & b & E). rewrite !E, !get_put3.
    change (Z.of_nat (length (zeros 3))) with 3.
    replace ((0 <=? q + c) && (q + c <? Z.of_nat (length d))) with true
      by (symmetry; apply andb_true_intro; split;
          [apply Z.leb_le | apply Z.ltb_lt]; lia).
    replace ((0 <=? c) && (c <? 3)) with true
      by (symmetry; apply andb_true_intro; split;
          [apply Z.leb_le | apply Z.ltb_lt]; lia).
    assert (Hc' : c = 0 \/ c = 1 \/ c = 2) by lia.
    destruct Hc' as [-> | [-> | ->]].
    + now rewrite Z.add_0_r, !Z.eqb_refl.
    + rewrite Z.eqb_refl.
      now replace (q + 1 =? q) with false by (symmetry; apply Z.eqb_neq; lia).
    + rewrite Z.eqb_refl.
      replace (q + 2 =? q) with false by (symmetry; apply Z.eqb_neq; lia).
      now replace (q + 2 =? q + 1) with false by (symmetry; apply Z.eqb_neq; lia).
  - replace (q + Z.of_nat (S k) * stride + c)
      with (q + stride + Z.of_nat k * stride + c) by lia.
    replace (s + Z.of_nat (S k) * step)
      with (s + step + Z.of_nat k * step) by lia.
    apply IH; [lia | lia | lia |].
    rewrite pixel_writer_length. lia.
Qed.

End PixelLoop.

(** A loop over [n1 + n2] pixels is the loop over the first [n1] followed by
    the loop over the other [n2]. *)
Lemma pixel_loop_app W step stride n1 n2 : forall s q d,
  pixel_loop W step stride (n1 + n2) s q d
  = pixel_loop W step stride n2 (s + Z.of_nat n1 * step)
      (q + Z.of_nat n1 * stride) (pixel_loop W step stride n1 s q d).
Proof using.
  induction n1 as [|n1 IH]; intros s q d.
  - cbn [Nat.add pixel_loop Z.of_nat]. now rewrite !Z.mul_0_l, !Z.add_0_r.
  - cbn [Nat.add pixel_loop]. rewrite IH.
    replace (s + step + Z.of_nat n1 * step) with (s + Z.of_nat (S n1) * step) by lia.
    now replace (q + stride + Z.of_nat n1 * stride)
      with (q + Z.of_nat (S n1) * stride) by lia.
Qed.

Lemma pixel_loop_ext W1 W2 step stride n :
  (forall s d q, W1 s d q = W2 s d q) ->
  forall s q d,
    pixel_loop W1 step stride n s q d = pixel_loop W2 step stride n s q d.
Proof using.
  intros H. induction n as [|n IH]; intros s q d; cbn [pixel_loop];
    [reflexivity | now rewrite H, IH].
Qed.

(** Each loop of a simple space is the shared loop over its own conversion
    of one pixel. *)
Lemma DeviceGray_loop_pixels scale src alpha01 n : forall j q d,
  DeviceGray_loop scale src alpha01 n j q d
  = pixel_loop (fun s d q => DeviceGray_loop scale src alpha01 1 s q d)
      1 (3 + alpha01) n j q d.
Proof using.
  induction n as [|n IH]; intros j q d; [reflexivity|].
  cbn [DeviceGray_loop pixel_loop]. rewrite IH.
  now replace (q + 3 + alpha01) with (q + (3 + alpha01)) by lia.
Qed.

Lemma DeviceRgb_loop_pixels scale src alpha01 n : forall j q d,
  DeviceRgb_loop scale src alpha01 n j q d
  = pixel_loop (fun s d q => DeviceRgb_loop scale src alpha01 1 s q d)
      3 (3 + alpha01) n j q d.
Proof using.
  induction n as [|n IH]; intros j q d; [reflexivity|].
  cbn [DeviceRgb_loop pixel_loop]. rewrite IH.
  now replace (q + 3 + alpha01) with (q + (3 + alpha01)) by lia.
Qed.

Lemma DeviceCmyk_loop_pixels scale src alpha01 n : forall j q d,
  DeviceCmyk_loop scale src alpha01 n j q d
  = pixel_loop (fun s d q => DeviceCmyk_loop scale src alpha01 1 s q d)
      4 (3 + alpha01) n j q d.
Proof using.
  induction n as [|n IH]; intros j q d; [reflexivity|].
  cbn [DeviceCmyk_loop pixel_loop]. now rewrite IH.
Qed.

Lemma Lab_loop_pixels cs maxVal src alpha01 n : forall j q d,
  Lab_loop cs maxVal src alpha01 n j q d
  = pixel_loop (fun s d q => Lab_loop cs maxVal src alpha01 1 s q d)
      3 (3 + alpha01) n j q d.
Proof using.
  induction n as [|n IH]; intros j q d; [reflexivity|].
  cbn [Lab_loop pixel_loop]. now rewrite IH.
Qed.

Lemma CalGray_loop_pixels cs scale src alpha01 n : forall j q d,
  CalGray_loop cs scale src alpha01 n j q d
  = pixel_loop (fun s d q => CalGray_loop cs scale src alpha01 1 s q d)
      1 (3 + alpha01) n j q d.
Proof using.
  induction n as [|n IH]; intros j q d; [reflexivity|].
  cbn [CalGray_loop pixel_loop]. now rewrite IH.
Qed.

Lemma CalRGB_loop_pixels cs scale src alpha01 n : forall j q d,
  CalRGB_loop cs scale src alpha01 n j q d
  = pixel_loop (fun s d q => CalRGB_loop cs scale src alpha01 1 s q d)
      3 (3 + alpha01) n j q d.
Proof using.
  induction n as [|n IH]; intros j q d; [reflexivity|].
  cbn [CalRGB_loop pixel_loop]. now rewrite IH.
Qed.

Lemma copies_false_DeviceRgb bits alpha01 :
  copies DeviceRgbCS bits alpha01 = false ->
  (bits =? 8) && (alpha01 =? 0) = false.
Proof using. intros H. exact H. Qed.

(** Off the copying path, [getRgbBuffer] of a simple space is the shared
    loop over [one_pixel]. *)
Lemma getRgbBuffer_as_loop cs src srcOffset count dest destOffset bits alpha01 :
  is_simple cs = true -> copies cs bits alpha01 = false ->
  getRgbBuffer cs src srcOffset count dest destOffset bits alpha01
  = Normal (pixel_loop (one_pixel cs src bits alpha01)
              (countOf (numComps cs)) (3 + alpha01) (Z.to_nat count)
              srcOffset destOffset dest).
Proof using.
  intros Hs Hc. unfold one_pixel.
  destruct cs as [ | | | p | p | p | base hv lookup | n base tintFn tmpBuf | base ];
    try discriminate Hs; cbn [getRgbBuffer numComps countOf dest_of].
  - unfold DeviceGray_getRgbBuffer. cbv zeta.
    now rewrite DeviceGray_loop_pixels.
  - unfold DeviceRgb_getRgbBuffer. cbv zeta.
    rewrite (copies_false_DeviceRgb _ _ Hc). cbn [dest_of].
    now rewrite DeviceRgb_loop_pixels.
  - unfold DeviceCmyk_getRgbBuffer. cbv zeta.
    now rewrite DeviceCmyk_loop_pixels.
  - unfold CalGray_getRgbBuffer. cbv zeta.
    now rewrite CalGray_loop_pixels.
  - unfold CalRGB_getRgbBuffer. cbv zeta.
    now rewrite CalRGB_loop_pixels.
  - unfold Lab_getRgbBuffer. cbv zeta.
    now rewrite Lab_loop_pixels.
Qed.

Lemma one_pixel_writer cs src bits alpha01 :
  is_simple cs = true -> copies cs bits alpha01 = false ->
  pixel_writer (one_pixel cs src bits alpha01).
Proof using.
  intros Hs Hc. unfold one_pixel.
  destruct cs as [ | | | p | p | p | base hv lookup | n base tintFn tmpBuf | base ];
    try discriminate Hs; cbn [getRgbBuffer dest_of]; intros s.
  - unfold DeviceGray_getRgbBuffer. cbv zeta.
    do 3 eexists. intros d q. reflexivity.
  - unfold DeviceRgb_getRgbBuffer. cbv zeta.
    rewrite (copies_false_DeviceRgb _ _ Hc). cbn [dest_of].
    do 3 eexists. intros d q. reflexivity.
  - unfold DeviceCmyk_getRgbBuffer. cbv zeta.
    do 3 eexists. intros d q. reflexivity.
  - unfold CalGray_getRgbBuffer. cbv zeta.
    do 3 eexists. intros d q. reflexivity.
  - unfold CalRGB_getRgbBuffer. cbv zeta.
    change (Z.to_nat 1) with 1%nat. cbn [CalRGB_loop].
    unfold CalRGB_convertToRgb. cbv zeta.
    match goal with |- context [matrixProduct ?a ?b] =>
      destruct (matrixProduct a b) as [[s0 s1] s2] end.
    do 3 eexists. intros d q. reflexivity.
  - unfold Lab_getRgbBuffer. cbv zeta.
    change (Z.to_nat 1) with 1%nat. cbn [Lab_loop].
    unfold Lab_convertToRgb. cbv zeta.
    destruct (Lab.ZW p <? 1)%float; cbv beta iota zeta;
      do 3 eexists; intros d q; reflexivity.
Qed.

Lemma pixel_of_buffer cs src srcOffset count dest destOffset bits alpha01 k c :
  is_simple cs = true -> copies cs bits alpha01 = false ->
  0 <= alpha01 -> 0 <= k < count -> 0 <= c < 3 ->
  0 <= slot destOffset alpha01 k c < Z.of_nat (length dest) ->
  JS.get (dest_of (getRgbBuffer cs src srcOffset count dest destOffset bits alpha01))
         (slot destOffset alpha01 k c)
  = JS.get (one_pixel cs src bits alpha01 (srcOffset + k * countOf (numComps cs))
              (zeros 3) 0) c.
Proof using.
  intros Hs Hc Ha Hk Hc3 Hin. unfold slot in *.
  rewrite getRgbBuffer_as_loop by assumption. cbn [dest_of].
  replace k with (Z.of_nat (Z.to_nat k)) in * by lia.
  rewrite (pixel_loop_slot _ _ _ (one_pixel_writer cs src bits alpha01 Hs Hc));
    [reflexivity | lia | lia | lia | lia].
Qed.

(** X8. Off the copying path, [getRgbBuffer] of a simple space converts
    pixel by pixel: the three bytes it leaves for pixel [k] are the bytes
    that the same method gives for that pixel alone in a fresh array of
    three elements, whatever the other samples and the contents of [dest]
    are. *)
Theorem getRgbBuffer_pixel cs src srcOffset count dest destOffset bits alpha01 k c :
  is_simple cs = true -> copies cs bits alpha01 = false ->
  0 <= alpha01 -> 0 <= k < count -> 0 <= c < 3 ->
  0 <= slot destOffset alpha01 k c < Z.of_nat (length dest) ->
  JS.get (dest_of (getRgbBuffer cs src srcOffset count dest destOffset bits alpha01))
         (slot destOffset alpha01 k c)
  = JS.get (dest_of (getRgbBuffer cs src (srcOffset + k * countOf (numComps cs)) 1
                       (zeros 3) 0 bits alpha01)) c.
Proof using.
  intros Hs Hc Ha Hk Hc3 Hin.
  exact (pixel_of_buffer cs src srcOffset count dest destOffset bits alpha01 k c
           Hs Hc Ha Hk Hc3 Hin).
Qed.

(** X10. Off the copying path, a conversion of [n1 + n2] pixels by a simple
    space is the conversion of the first [n1] followed by the conversion of
    the other [n2] into the same buffer, source and destination advanced by
    [n1] pixels. *)
Theorem getRgbBuffer_chunks cs src srcOffset n1 n2 dest destOffset bits alpha01 :
  is_simple cs = true -> copies cs bits alpha01 = false ->
  0 <= n1 -> 0 <= n2 ->
  getRgbBuffer cs src srcOffset (n1 + n2) dest destOffset bits alpha01
  = getRgbBuffer cs src (srcOffset + n1 * countOf (numComps cs)) n2
      (dest_of (getRgbBuffer cs src srcOffset n1 dest destOffset bits alpha01))
      (destOffset + n1 * (3 + alpha01)) bits alpha01.
Proof using.
  intros Hs Hc H1 H2. rewrite !getRgbBuffer_as_loop by assumption.
  cbn [dest_of]. rewrite Z2Nat.inj_add by lia. rewrite pixel_loop_app.
  now rewrite !Z2Nat.id by lia.
Qed.

(** ** What a conversion leaves untouched *)

Lemma store3_frame (d : bytes) (q i : Z) (r g b : float) :
  i < q \/ q + 3 <= i ->
  JS.get (store8c (store8c (store8c d q r) (q + 1) g) (q + 2) b) i = JS.get d i.
Proof using.
  intros H. unfold store8c. rewrite !get_put_other by lia. reflexivity.
Qed.

Lemma set_run_frame source : forall i d j,
  j < i \/ i + Z.of_nat (length source) <= j ->
  JS.get (set_run d i source) j = JS.get d j.
Proof using.
  induction source as [|v rest IH]; intros i d j Hj; cbn [set_run]; [reflexivity|].
  cbn [length] in Hj. rewrite IH by lia.
  unfold store8c. apply get_put_other. lia.
Qed.

Lemma subarray_length_le {A : Type} (a : list A) (b n : Z) :
  0 <= n -> Z.of_nat (length (JS.subarray a b (b + n))) <= n.
Proof using.
  intros Hn. unfold JS.subarray. cbv zeta. rewrite length_firstn.
  destruct (Z.ltb_spec b 0); destruct (Z.ltb_spec (b + n) 0); lia.
Qed.

Lemma not_slot_loop destOffset count alpha01 i :
  ~ rgb_slot destOffset count alpha01 i ->
  forall (k : nat) c, (k < Z.to_nat count)%nat -> 0 <= c < 3 ->
                      i <> destOffset + Z.of_nat k * (3 + alpha01) + c.
Proof using.
  intros H k c Hk Hc E. apply H. exists (Z.of_nat k), c.
  unfold slot. repeat split; try lia.
Qed.

Lemma simple_item_frames cs :
  is_simple cs = true -> item_frames (getRgbItem cs).
Proof using.
  intros Hs src so d q i Hi.
  destruct cs as [ | | | p | p | p | base hv lookup | n base tintFn tmpBuf | base ];
    try discriminate Hs; cbn [getRgbItem dest_of].
  - unfold DeviceGray_getRgbItem, store8c. cbv zeta.
    rewrite !get_put_other by lia. reflexivity.
  - unfold DeviceRgb_getRgbItem. cbv zeta. now apply store3_frame.
  - unfold DeviceCmyk_getRgbItem, DeviceCmyk_convertToRgb. cbv zeta.
    now apply store3_frame.
  - unfold CalGray_getRgbItem, CalGray_convertToRgb. cbv zeta.
    now apply store3_frame.
  - unfold CalRGB_getRgbItem, CalRGB_convertToRgb. cbv zeta.
    match goal with |- context [matrixProduct ?a ?b] =>
      destruct (matrixProduct a b) as [[s0 s1] s2] end.
    now apply store3_frame.
  - unfold Lab_getRgbItem, Lab_convertToRgb. cbv zeta.
    destruct (Lab.ZW p <? 1)%float; cbv beta iota zeta; now apply store3_frame.
Qed.

Lemma simple_buffer_frames cs :
  is_simple cs = true -> buffer_frames (getRgbBuffer cs).
Proof using.
  intros Hs src so count d q bits a i Hcount Hi.
  destruct (copies cs bits a) eqn:Hc.
  - destruct cs; try discriminate Hc. cbn [getRgbBuffer].
    unfold DeviceRgb_getRgbBuffer. unfold copies in Hc. cbn [isPassthrough] in Hc.
    rewrite Hc. apply andb_prop in Hc. destruct Hc as [_ Ha].
    apply Z.eqb_eq in Ha. subst a.
    unfold typed_set.
    match goal with |- context [if ?c then _ else _] => destruct c end;
      cbn [dest_of]; [reflexivity|].
    apply set_run_frame.
    pose proof (subarray_length_le src so (count * 3) ltac:(lia)) as Hl.
    destruct (Z_lt_le_dec i q) as [Hlt|Hge]; [now left | right].
    destruct (Z_lt_le_dec i (q + count * 3)) as [Hin|Hout]; [|lia].
    exfalso. apply Hi. exists ((i - q) / 3), ((i - q) mod 3). unfold slot.
    pose proof (Z.div_mod (i - q) 3 ltac:(lia)).
    pose proof (Z.mod_pos_bound (i - q) 3 ltac:(lia)).
    assert (0 <= (i - q) / 3) by (apply Z.div_pos; lia).
    assert ((i - q) / 3 < count) by (apply Z.div_lt_upper_bound; lia).
    repeat split; lia.
  - rewrite getRgbBuffer_as_loop by assumption. cbn [dest_of].
    apply (pixel_loop_frame _ _ _ (one_pixel_writer cs src bits a Hs Hc)).
    now apply not_slot_loop.
Qed.

(** The loop of [AlternateCS.getRgbBuffer] when it runs on [dest] itself,
    over a base of three components. *)
Lemma Alternate_loop_frame base_getRgbItem tintFn scale numComps_ uses src :
  item_frames base_getRgbItem ->
  forall n srcOffset pos scaled tinted b i,
    (forall (k : nat) c, (k < n)%nat -> 0 <= c < 3 ->
                         i <> pos + Z.of_nat k * 3 + c) ->
    JS.get (dest_of (Alternate_loop base_getRgbItem tintFn scale numComps_ 3
                       uses src n srcOffset pos scaled tinted b)) i
    = JS.get b i.
Proof using.
  intros Hitem. induction n as [|n IH]; intros so pos scaled tinted b i Hi;
    cbn [Alternate_loop]; [reflexivity|].
  destruct (Alternate_scale_loop scale src (Z.to_nat numComps_) 0 so scaled)
    as [scaled' so'].
  assert (H0 : i < pos \/ pos + 3 <= i).
  { pose proof (Hi 0%nat 0 ltac:(lia) ltac:(lia)).
    pose proof (Hi 0%nat 1 ltac:(lia) ltac:(lia)).
    pose proof (Hi 0%nat 2 ltac:(lia) ltac:(lia)). lia. }
  assert (Hn : forall (k : nat) c, (k < n)%nat -> 0 <= c < 3 ->
                                   i <> pos + 3 + Z.of_nat k * 3 + c).
  { intros k c Hk Hc. specialize (Hi (S k) c ltac:(lia) Hc). lia. }
  destruct uses.
  - change (Z.to_nat 3) with 3%nat. cbn [Alternate_stage_loop].
    replace (pos + 1 + 1 + 1) with (pos + 3) by lia.
    rewrite IH by exact Hn.
    replace (pos + 1 + 1) with (pos + 2) by lia.
    now apply store3_frame.
  - pose proof (Hitem (storeF32_run tinted 0 (tintFn scaled' 0)) 0 b pos i H0) as Hb.
    destruct (base_getRgbItem (storeF32_run tinted 0 (tintFn scaled' 0)) 0 b pos)
      as [b'|e b']; cbn [dest_of] in *.
    + rewrite IH by exact Hn. exact Hb.
    + exact Hb.
Qed.

Lemma getRgb_frames cs :
  indexed_free cs = true ->
  item_frames (getRgbItem cs) /\ buffer_frames (getRgbBuffer cs).
Proof using.
  induction cs as [ | | | p | p | p | base IH hv lookup | n base IH tintFn tmpBuf | base ];
    intros Hf;
    try (split; [now apply simple_item_frames | now apply simple_buffer_frames]).
  - cbn [indexed_free] in Hf. destruct (IH Hf) as [IHi IHb]. split.
    + intros src so d q i Hi. cbn [getRgbItem]. unfold AlternateCS_getRgbItem.
      now apply IHi.
    + intros src so count d q bits a i Hcount Hi. cbn [getRgbBuffer].
      unfold AlternateCS_getRgbBuffer. cbv zeta.
      destruct ((isPassthrough base 8 || negb (usesZeroToOneRange base)) && (a =? 0))
        eqn:HP.
      * cbn [negb andb].
        destruct ((n <? 0) || (countOf (numComps base) <? 0)); [reflexivity|].
        apply andb_prop in HP. destruct HP as [HP Ha]. apply Z.eqb_eq in Ha. subst a.
        assert (H3 : countOf (numComps base) = 3).
        { destruct base; try discriminate HP; reflexivity. }
        rewrite H3.
        pose proof (Alternate_loop_frame (getRgbItem base) tintFn
                      (1 / JS.Z2F (JS.shl 1 bits - 1))%float n
                      (usesZeroToOneRange base) src IHi (Z.to_nat count) so q
                      (fzeros n) (fzeros 3) d i) as HA.
        destruct (Alternate_loop _ _ _ _ _ _ _ _ _ _ _ _ _) as [b|e b];
          cbn [dest_of] in *; apply HA; intros k c Hk Hc E; apply Hi;
          exists (Z.of_nat k), c; unfold slot; repeat split; lia.
      * cbn [negb andb].
        destruct (countOf (numComps base) * count <? 0); [reflexivity|].
        destruct ((n <? 0) || (countOf (numComps base) <? 0)); [reflexivity|].
        destruct (Alternate_loop _ _ _ _ _ _ _ _ _ _ _ _ _) as [b|e b];
          [|reflexivity].
        now apply IHb.
  - split.
    + intros src so d q i Hi. reflexivity.
    + intros src so count d q bits a i Hcount Hi. reflexivity.
Qed.

(** X9. A conversion by a space with no Indexed space in its chain stores
    nothing outside the three RGB positions of its [count] pixels: the
    alpha positions of an RGBA buffer, the bytes before [destOffset] and the
    bytes after the last pixel are left as they were. *)
Theorem getRgbBuffer_frame cs src srcOffset count dest destOffset bits alpha01 i :
  indexed_free cs = true -> 0 <= count ->
  ~ rgb_slot destOffset count alpha01 i ->
  JS.get (dest_of (getRgbBuffer cs src srcOffset count dest destOffset bits alpha01)) i
  = JS.get dest i.
Proof using.
  intros Hf Hc Hi. now apply (proj2 (getRgb_frames cs Hf)).
Qed.

(** ** The levels that the device spaces write *)

Lemma all_from_spec (P : Z -> bool) n : forall z,
  all_from P n z = true ->
  forall s, z <= s < z + Z.of_nat n -> P s = true.
Proof using.
  induction n as [|n IH]; intros z H s Hs; [lia|].
  cbn [all_from] in H. apply andb_prop in H. destruct H as [H0 H1].
  destruct (Z.eq_dec s z) as [->|Hne]; [exact H0|].
  apply (IH (z + 1) H1). lia.
Qed.

Lemma levels_exact_1 : levels_exact 1 = true.
Proof using. vm_compute. reflexivity. Qed.

Lemma levels_exact_2 : levels_exact 2 = true.
Proof using. vm_compute. reflexivity. Qed.

Lemma levels_exact_4 : levels_exact 4 = true.
Proof using. vm_compute. reflexivity. Qed.

Lemma levels_exact_8 : levels_exact 8 = true.
Proof using. vm_compute. reflexivity. Qed.

(** For the bit depths up to 8 of PDF images, the clamped store of a scaled sample
    is the level nearest to [255 * s / (2 ^ bits - 1)]. *)
Lemma scaled_sample_level bits s :
  In bits [1; 2; 4; 8] -> 0 <= s < 2 ^ bits ->
  JS.ToUint8Clamp (scaled_sample bits s) = nearest (255 * s) (2 ^ bits - 1).
Proof using.
  intros Hb Hs.
  assert (He : levels_exact bits = true).
  { cbn [In] in Hb.
    destruct Hb as [<-|[<-|[<-|[<-|[]]]]];
      [ apply levels_exact_1 | apply levels_exact_2 | apply levels_exact_4
      | apply levels_exact_8 ]. }
  apply Z.eqb_eq.
  apply (all_from_spec _ _ _ He s).
  rewrite Z2Nat.id by (apply Z.lt_le_incl, Z.pow_pos_nonneg; cbn [In] in Hb; lia).
  lia.
Qed.

Lemma store3_zeros (r g b : float) :
  store8c (store8c (store8c (zeros 3) 0 r) (0 + 1) g) (0 + 2) b
  = [JS.ToUint8Clamp r; JS.ToUint8Clamp g; JS.ToUint8Clamp b].
Proof using. reflexivity. Qed.

Lemma get_list3 (a b c : Z) (i : Z) :
  0 <= i < 3 -> exists v, JS.get [a; b; c] i = Some v /\ In v [a; b; c].
Proof using.
  intros H. assert (Hi : i = 0 \/ i = 1 \/ i = 2) by lia.
  destruct Hi as [-> | [-> | ->]]; eexists; (split; [reflexivity|]); cbn [In]; auto.
Qed.

(** One sample of DeviceGray, one pixel of DeviceRGB, alone. *)
Lemma one_pixel_DeviceGray src bits alpha01 s :
  one_pixel DeviceGrayCS src bits alpha01 s (zeros 3) 0
  = let v := JS.ToUint8Clamp
               (255 / JS.Z2F (JS.shl 1 bits - 1) * JS.NumZ (JS.get src s))%float in
    [v; v; v].
Proof using. reflexivity. Qed.

Lemma one_pixel_DeviceRgb src bits alpha01 s :
  copies DeviceRgbCS bits alpha01 = false ->
  one_pixel DeviceRgbCS src bits alpha01 s (zeros 3) 0
  = let scale := (255 / JS.Z2F (JS.shl 1 bits - 1))%float in
    [JS.ToUint8Clamp (scale * JS.NumZ (JS.get src s))%float;
     JS.ToUint8Clamp (scale * JS.NumZ (JS.get src (s + 1)))%float;
     JS.ToUint8Clamp (scale * JS.NumZ (JS.get src (s + 2)))%float].
Proof using.
  intros Hc. unfold one_pixel. cbn [getRgbBuffer].
  unfold DeviceRgb_getRgbBuffer. rewrite (copies_false_DeviceRgb _ _ Hc).
  reflexivity.
Qed.

Lemma one_pixel_CalGray p src bits alpha01 s :
  exists v, byte v /\
    one_pixel (CalGrayCS p) src bits alpha01 s (zeros 3) 0 = [v; v; v].
Proof using.
  eexists. split; [apply ToUint8Clamp_range|]. reflexivity.
Qed.

(** X11. The gray spaces write neutral colours: for every input, the three
    bytes that DeviceGrayCS and CalGrayCS give a pixel are one and the same
    byte, from [getRgb] and from [getRgbBuffer] alike. *)
Theorem gray_is_neutral cs :
  is_gray cs = true ->
  (forall src srcOffset, exists v, getRgb cs src srcOffset = inr [v; v; v])
  /\ (forall src srcOffset count dest destOffset bits alpha01 k,
        0 <= alpha01 -> 0 <= k < count ->
        0 <= slot destOffset alpha01 k 0 ->
        slot destOffset alpha01 k 2 < Z.of_nat (length dest) ->
        exists v, byte v /\
          forall c, 0 <= c < 3 ->
            JS.get (dest_of (getRgbBuffer cs src srcOffset count dest
                               destOffset bits alpha01))
                   (slot destOffset alpha01 k c)
            = Some v).
Proof using.
  intros Hg. split.
  - intros src so.
    destruct cs; try discriminate Hg; eexists; reflexivity.
  - intros src so count dest q bits a k Ha Hk H0 H2.
    assert (Hs : is_simple cs = true) by (destruct cs; try discriminate Hg; reflexivity).
    assert (Hc : copies cs bits a = false) by (destruct cs; try discriminate Hg; reflexivity).
    assert (Hv : exists v, byte v /\
                   one_pixel cs src bits a (so + k * countOf (numComps cs)) (zeros 3) 0
                   = [v; v; v]).
    { destruct cs; try discriminate Hg.
      - rewrite one_pixel_DeviceGray. cbv zeta. eexists.
        split; [apply ToUint8Clamp_range | reflexivity].
      - apply one_pixel_CalGray. }
    destruct Hv as (v & Hb & Hv). exists v. split; [exact Hb|].
    intros c Hc3. rewrite pixel_of_buffer; try assumption.
    + rewrite Hv. destruct (get_list3 v v v c Hc3) as (w & -> & Hw).
      cbn [In] in Hw. destruct Hw as [<-|[<-|[<-|[]]]]; reflexivity.
    + unfold slot in *. lia.
Qed.

(** X12. DeviceGrayCS maps gray levels linearly: at a bit depth of 1, 2, 4
    or 8, a sample [s] in [0, 2^bits) becomes the byte nearest to
    [255 * s / (2^bits - 1)] in all three components, so that 0 is black,
    [2^bits - 1] is white and an 8-bit sample is kept as it is. *)
Theorem DeviceGray_levels src srcOffset count dest destOffset bits alpha01 k s c :
  In bits [1; 2; 4; 8] ->
  0 <= alpha01 -> 0 <= k < count -> 0 <= c < 3 ->
  JS.get src (srcOffset + k) = Some s -> 0 <= s < 2 ^ bits ->
  0 <= slot destOffset alpha01 k c < Z.of_nat (length dest) ->
  JS.get (dest_of (getRgbBuffer DeviceGrayCS src srcOffset count dest
                     destOffset bits alpha01))
         (slot destOffset alpha01 k c)
  = Some (nearest (255 * s) (2 ^ bits - 1))
  /\ nearest (255 * 0) (2 ^ bits - 1) = 0
  /\ nearest (255 * (2 ^ bits - 1)) (2 ^ bits - 1) = 255
  /\ (bits = 8 -> nearest (255 * s) (2 ^ bits - 1) = s).
Proof using.
  intros Hb Ha Hk Hc Hsrc Hs Hin. split; [|split; [|split]].
  - rewrite pixel_of_buffer by (try assumption; reflexivity).
    cbn [numComps countOf]. rewrite Z.mul_1_r, one_pixel_DeviceGray, Hsrc.
    cbv zeta. fold (scaled_sample bits s).
    rewrite (scaled_sample_level bits s Hb Hs).
    destruct (get_list3 (nearest (255 * s) (2 ^ bits - 1))
                (nearest (255 * s) (2 ^ bits - 1))
                (nearest (255 * s) (2 ^ bits - 1)) c Hc) as (w & -> & Hw).
    cbn [In] in Hw. destruct Hw as [<-|[<-|[<-|[]]]]; reflexivity.
  - cbn [In] in Hb. destruct Hb as [<-|[<-|[<-|[<-|[]]]]]; reflexivity.
  - cbn [In] in Hb. destruct Hb as [<-|[<-|[<-|[<-|[]]]]]; reflexivity.
  - intros ->. unfold nearest. change (2 ^ 8 - 1) with 255.
    change (2 ^ 8) with 256 in Hs.
    symmetry. apply (Z.div_unique _ _ s 255); lia.
Qed.

(** X13. Off the copying path, DeviceRgbCS maps each of the three samples of
    a pixel as DeviceGrayCS maps its one: at a bit depth of 1, 2, 4 or 8
    component [c] of pixel [k] becomes the byte nearest to
    [255 * s / (2^bits - 1)]; with 8 bits and [alpha01 = 1] the RGB bytes
    are copied as they are. *)
Theorem DeviceRgb_levels src srcOffset count dest destOffset bits alpha01 k s c :
  In bits [1; 2; 4; 8] ->
  copies DeviceRgbCS bits alpha01 = false ->
  0 <= alpha01 -> 0 <= k < count -> 0 <= c < 3 ->
  JS.get src (srcOffset + k * 3 + c) = Some s -> 0 <= s < 2 ^ bits ->
  0 <= slot destOffset alpha01 k c < Z.of_nat (length dest) ->
  JS.get (dest_of (getRgbBuffer DeviceRgbCS src srcOffset count dest
                     destOffset bits alpha01))
         (slot destOffset alpha01 k c)
  = Some (nearest (255 * s) (2 ^ bits - 1))
  /\ (bits = 8 -> nearest (255 * s) (2 ^ bits - 1) = s).
Proof using.
  intros Hb Hcp Ha Hk Hc Hsrc Hs Hin. split.
  - rewrite pixel_of_buffer by (try assumption; reflexivity).
    cbn [numComps countOf]. rewrite one_pixel_DeviceRgb by exact Hcp.
    cbv zeta.
    assert (Hi : c = 0 \/ c = 1 \/ c = 2) by lia.
    destruct Hi as [-> | [-> | ->]]; rewrite ?Z.add_0_r in Hsrc; rewrite Hsrc;
      fold (scaled_sample bits s);
      rewrite (scaled_sample_level bits s Hb Hs); reflexivity.
  - intros ->. unfold nearest. change (2 ^ 8 - 1) with 255.
    change (2 ^ 8) with 256 in Hs.
    symmetry. apply (Z.div_unique _ _ s 255); lia.
Qed.

Lemma unit_bytes_exact :
  all_from (fun s => JS.ToUint8Clamp (unit_of_byte s * 255)%float =? s)
           (Z.to_nat 256) 0 = true.
Proof using. vm_compute. reflexivity. Qed.

Lemma unit_of_byte_back (s : Z) :
  byte s -> JS.ToUint8Clamp (unit_of_byte s * 255)%float = s.
Proof using.
  intros [H0 H1]. apply Z.eqb_eq.
  apply (all_from_spec _ _ _ unit_bytes_exact s). lia.
Qed.

(** X14. A byte given to [getRgb] as a component in [0, 1], that is divided
    by 255, comes back as the same byte, in DeviceGray and in DeviceRGB: the
    division and the multiplication by 255 lose nothing after the clamped
    store. *)
Theorem getRgb_unit_round_trip :
  (forall src srcOffset s,
      byte s -> JS.get src srcOffset = Some (unit_of_byte s) ->
      getRgb DeviceGrayCS src srcOffset = inr [s; s; s])
  /\ (forall src srcOffset r g b,
        byte r -> byte g -> byte b ->
        JS.get src srcOffset = Some (unit_of_byte r) ->
        JS.get src (srcOffset + 1) = Some (unit_of_byte g) ->
        JS.get src (srcOffset + 2) = Some (unit_of_byte b) ->
        getRgb DeviceRgbCS src srcOffset = inr [r; g; b]).
Proof using.
  split.
  - intros src so s Hs Hsrc. unfold getRgb. cbn [getRgbItem].
    unfold DeviceGray_getRgbItem. cbv zeta. rewrite Hsrc. cbn [JS.NumF].
    apply (f_equal inr).
    transitivity [JS.ToUint8Clamp (unit_of_byte s * 255)%float;
                  JS.ToUint8Clamp (unit_of_byte s * 255)%float;
                  JS.ToUint8Clamp (unit_of_byte s * 255)%float];
      [reflexivity|].
    now rewrite (unit_of_byte_back s Hs).
  - intros src so r g b Hr Hg Hb Sr Sg Sb. unfold getRgb. cbn [getRgbItem].
    unfold DeviceRgb_getRgbItem. cbv zeta. rewrite Sr, Sg, Sb. cbn [JS.NumF].
    apply (f_equal inr).
    transitivity [JS.ToUint8Clamp (unit_of_byte r * 255)%float;
                  JS.ToUint8Clamp (unit_of_byte g * 255)%float;
                  JS.ToUint8Clamp (unit_of_byte b * 255)%float];
      [reflexivity|].
    now rewrite (unit_of_byte_back r Hr), (unit_of_byte_back g Hg),
                (unit_of_byte_back b Hb).
Qed.

(** ** fillRgb on a passthrough space *)

Lemma skipn_three {A : Type} (l : list A) (s : Z) :
  0 <= s -> s + 3 <= Z.of_nat (length l) ->
  exists c0 c1 c2,
    skipn (Z.to_nat s) l = c0 :: c1 :: c2 :: skipn (Z.to_nat (s + 3)) l
    /\ JS.get l s = Some c0 /\ JS.get l (s + 1) = Some c1
    /\ JS.get l (s + 2) = Some c2.
Proof using.
  intros H0 H3.
  pose proof (length_skipn (Z.to_nat s) l) as Hl.
  assert (Hg : forall j, 0 <= j ->
             JS.get l (s + j) = nth_error (skipn (Z.to_nat s) l) (Z.to_nat j)).
  { intros j Hj. unfold JS.get.
    replace (s + j <? 0) with false by (symmetry; apply Z.ltb_ge; lia).
    rewrite nth_error_skipn. f_equal. lia. }
  pose proof (Hg 0 ltac:(lia)) as G0. pose proof (Hg 1 ltac:(lia)) as G1.
  pose proof (Hg 2 ltac:(lia)) as G2. rewrite Z.add_0_r in G0.
  replace (Z.to_nat (s + 3)) with (3 + Z.to_nat s)%nat by lia.
  rewrite <- skipn_skipn.
  destruct (skipn (Z.to_nat s) l) as [|c0 [|c1 [|c2 rest]]];
    cbn [length] in Hl; try lia.
  exists c0, c1, c2. repeat split; assumption.
Qed.

(** With [alpha01 = 0] the final copy loop of [fillRgb] stores what
    [dest.set] stores. *)
Lemma set_run_copy_loop comps n : forall s q d,
  0 <= s -> s + 3 * Z.of_nat n <= Z.of_nat (length comps) ->
  set_run d q (firstn (3 * n) (skipn (Z.to_nat s) comps))
  = copy_loop comps 0 n q s d.
Proof using.
  induction n as [|n IH]; intros s q d Hs Hlen; [reflexivity|].
  destruct (skipn_three comps s Hs ltac:(lia)) as (c0 & c1 & c2 & E & G0 & G1 & G2).
  rewrite E. replace (3 * S n)%nat with (S (S (S (3 * n)))) by lia.
  cbn [firstn set_run copy_loop]. rewrite G0, G1, G2. cbn [JS.NumZ].
  replace (q + 1 + 1) with (q + 2) by lia.
  replace (q + 2 + 1) with (q + 3 + 0) by lia.
  apply IH; lia.
Qed.

(** With 8 bits the loop of DeviceRgbCS stores what the copy loop stores. *)
Lemma copy_loop_DeviceRgb_loop comps alpha01 n : forall s q d,
  Forall byte comps ->
  0 <= s -> s + 3 * Z.of_nat n <= Z.of_nat (length comps) ->
  copy_loop comps alpha01 n q s d
  = DeviceRgb_loop (255 / JS.Z2F (JS.shl 1 8 - 1))%float comps alpha01 n s q d.
Proof using.
  induction n as [|n IH]; intros s q d Hb Hs Hlen; [reflexivity|].
  destruct (skipn_three comps s Hs ltac:(lia)) as (c0 & c1 & c2 & E & G0 & G1 & G2).
  assert (Hin : forall c, In c [c0; c1; c2] -> byte c).
  { intros c Hc. apply (proj1 (Forall_forall _ _) Hb).
    rewrite <- (firstn_skipn (Z.to_nat s) comps), E. apply in_or_app. right.
    cbn [In] in *. tauto. }
  assert (Hv : forall c, byte c ->
             JS.ToUint8Clamp (255 / JS.Z2F (JS.shl 1 8 - 1) * JS.Z2F c)%float
             = JS.ToUint8Clamp (JS.Z2F c)).
  { intros c Hc. rewrite clamp_byte by exact Hc.
    change (255 / JS.Z2F (JS.shl 1 8 - 1) * JS.Z2F c)%float
      with (scaled_sample 8 c).
    rewrite scaled_sample_level by (cbn [In]; unfold byte in Hc; lia).
    unfold nearest. change (2 ^ 8 - 1) with 255.
    symmetry. unfold byte in Hc. apply (Z.div_unique _ _ c 255); lia. }
  cbn [copy_loop DeviceRgb_loop]. rewrite G0, G1, G2. cbn [JS.NumZ].
  unfold store8c.
  rewrite !Hv by (apply Hin; cbn [In]; auto).
  apply IH; [exact Hb | lia | lia].
Qed.

(** X15. On an 8-bit DeviceRGB raster that is not resized, the shortcut of
    [fillRgb] for a passthrough space (copying [comps] itself) fills [dest]
    as the direct call of [getRgbBuffer] on the decoded rows does, for
    every [alpha01], when [comps] holds the bytes of the rows and, for
    [alpha01 = 0], [dest] has room for them. *)
Theorem fillRgb_passthrough_is_direct dest width height actualHeight comps alpha01 :
  Forall byte comps ->
  0 <= width * actualHeight ->
  3 * (width * actualHeight) <= Z.of_nat (length comps) ->
  (alpha01 = 0 -> 3 * (width * actualHeight) <= Z.of_nat (length dest)) ->
  fillRgb DeviceRgbCS dest width height width height actualHeight 8 comps alpha01
  = getRgbBuffer DeviceRgbCS comps 0 (width * actualHeight) dest 0 8 alpha01.
Proof using.
  intros Hb Hn Hlen Hroom. unfold fillRgb. cbv zeta.
  cbn [isPassthrough]. change (8 =? 8) with true. cbv iota.
  rewrite !Z.eqb_refl. cbn [negb orb]. unfold fillRgb_finish.
  cbn [getRgbBuffer]. unfold DeviceRgb_getRgbBuffer. change (8 =? 8) with true.
  cbn [andb]. set (n := width * actualHeight) in *.
  destruct (Z.eqb_spec alpha01 0) as [->|Ha].
  - specialize (Hroom eq_refl). unfold typed_set.
    replace (0 + n * 3) with (0 + 3 * n) by lia.
    rewrite subarray_inside by lia.
    rewrite length_firstn, length_skipn. cbn [Z.to_nat Pos.to_nat].
    replace ((0 <? 0) || _) with false
      by (symmetry; apply orb_false_intro; apply Z.ltb_ge; lia).
    apply (f_equal Normal).
    replace (Z.to_nat (3 * n)) with (3 * Z.to_nat n)%nat by lia.
    symmetry. apply (set_run_copy_loop comps (Z.to_nat n) 0 0 dest); lia.
  - apply (f_equal Normal).
    apply copy_loop_DeviceRgb_loop; [exact Hb | lia | lia].
Qed.

(** ** resizeRgbImage: what it writes and where *)

Lemma samples_of_refl src d : samples_of src d d.
Proof using. split; [reflexivity | intros i; now left]. Qed.

Lemma samples_of_trans src d0 d1 d2 :
  samples_of src d0 d1 -> samples_of src d1 d2 -> samples_of src d0 d2.
Proof using.
  intros [L1 H1] [L2 H2]. split; [congruence|].
  intros i. destruct (H2 i) as [E|E]; [|now right].
  rewrite E. apply H1.
Qed.

Lemma get_In {A : Type} (a : list A) (i : Z) (v : A) :
  JS.get a i = Some v -> In v a.
Proof using.
  unfold JS.get. destruct (i <? 0); [discriminate|]. apply nth_error_In.
Qed.

Lemma clamp_nan : JS.ToUint8Clamp nan = 0.
Proof using. reflexivity. Qed.

(** One store of [resizeRgbImage]. *)
Lemma samples_of_store src d0 d q idx :
  Forall byte src -> samples_of src d0 d ->
  samples_of src d0 (store8c d q (JS.NumZ (getAt src idx))).
Proof using.
  intros Hb H. apply (samples_of_trans src d0 d); [exact H|].
  unfold store8c. split; [apply put_length|].
  intros j. rewrite get_put.
  destruct ((q =? j) && (0 <=? q) && (q <? Z.of_nat (length d))); [|now left].
  right. eexists. split; [reflexivity|].
  unfold getAt. destruct (JS.F2Z idx) as [k|]; [|right; apply clamp_nan].
  destruct (JS.get src k) as [v|] eqn:E; [|right; apply clamp_nan].
  left. cbn [JS.NumZ]. rewrite clamp_byte.
  - exact (get_In _ _ _ E).
  - exact (proj1 (Forall_forall _ _) Hb v (get_In _ _ _ E)).
Qed.

Lemma resize_row_samples src xScaled py alpha01 n : forall j q d d0,
  Forall byte src -> samples_of src d0 d ->
  samples_of src d0 (fst (resize_row src xScaled py alpha01 n j q d)).
Proof using.
  induction n as [|n IH]; intros j q d d0 Hb H; cbn [resize_row fst]; [exact H|].
  apply IH; [exact Hb|]. now repeat apply samples_of_store.
Qed.

Lemma resize_rows_samples src xScaled yRatio w1Scanline w2 alpha01 n :
  forall i q d d0,
    Forall byte src -> samples_of src d0 d ->
    samples_of src d0
      (resize_rows src xScaled yRatio w1Scanline w2 alpha01 n i q d).
Proof using.
  induction n as [|n IH]; intros i q d d0 Hb H; cbn [resize_rows]; [exact H|].
  pose proof (resize_row_samples src xScaled
                (JS.Math_floor (JS.Z2F i * yRatio) * JS.Z2F w1Scanline)%float
                alpha01 (Z.to_nat w2) 0 q d d0 Hb H) as Hr.
  destruct (resize_row _ _ _ _ _ _ _ _) as [d' q']. cbn [fst] in Hr.
  now apply IH.
Qed.

(** X16. [resizeRgbImage] samples and never blends: when the source holds
    bytes, every element of [dest] after the call is the element that was
    there, an element of the source, or 0 (for a position read outside the
    source); the length of [dest] is unchanged. *)
Theorem resizeRgbImage_samples src dest w1 h1 w2 h2 alpha01 :
  Forall byte src ->
  samples_of src dest (dest_of (resizeRgbImage src dest w1 h1 w2 h2 alpha01)).
Proof using.
  intros Hb. unfold resizeRgbImage. cbv zeta.
  destruct (w2 <? 0); cbn [dest_of]; [apply samples_of_refl|].
  apply resize_rows_samples; [exact Hb | apply samples_of_refl].
Qed.

Lemma resize_row_snd src xScaled py alpha01 n : forall j q d,
  snd (resize_row src xScaled py alpha01 n j q d)
  = q + Z.of_nat n * (3 + alpha01).
Proof using.
  induction n as [|n IH]; intros j q d; cbn [resize_row snd]; [lia|].
  rewrite IH. lia.
Qed.

Lemma resize_row_frame src xScaled py alpha01 n : forall j q d i,
  (forall (k : nat) c, (k < n)%nat -> 0 <= c < 3 ->
                       i <> q + Z.of_nat k * (3 + alpha01) + c) ->
  JS.get (fst (resize_row src xScaled py alpha01 n j q d)) i = JS.get d i.
Proof using.
  induction n as [|n IH]; intros j q d i Hi; cbn [resize_row fst]; [reflexivity|].
  rewrite IH.
  - pose proof (Hi 0%nat 0 ltac:(lia) ltac:(lia)).
    pose proof (Hi 0%nat 1 ltac:(lia) ltac:(lia)).
    pose proof (Hi 0%nat 2 ltac:(lia) ltac:(lia)).
    apply store3_frame. lia.
  - intros k c Hk Hc. specialize (Hi (S k) c ltac:(lia) Hc). lia.
Qed.

Lemma resize_rows_frame src xScaled yRatio w1Scanline w2 alpha01 n :
  forall i q d idx,
    (forall (k : nat) c, (k < n * Z.to_nat w2)%nat -> 0 <= c < 3 ->
                         idx <> q + Z.of_nat k * (3 + alpha01) + c) ->
    JS.get (resize_rows src xScaled yRatio w1Scanline w2 alpha01 n i q d) idx
    = JS.get d idx.
Proof using.
  induction n as [|n IH]; intros i q d idx Hi; cbn [resize_rows]; [reflexivity|].
  pose proof (resize_row_frame src xScaled
                (JS.Math_floor (JS.Z2F i * yRatio) * JS.Z2F w1Scanline)%float
                alpha01 (Z.to_nat w2) 0 q d idx) as Hf.
  pose proof (resize_row_snd src xScaled
                (JS.Math_floor (JS.Z2F i * yRatio) * JS.Z2F w1Scanline)%float
                alpha01 (Z.to_nat w2) 0 q d) as Hq.
  destruct (resize_row _ _ _ _ _ _ _ _) as [d' q']. cbn [fst snd] in Hf, Hq.
  rewrite IH.
  - apply Hf. intros k c Hk Hc. apply Hi; [|exact Hc]. cbn [Nat.mul]. lia.
  - intros k c Hk Hc. subst q'.
    specialize (Hi (Z.to_nat w2 + k)%nat c ltac:(cbn [Nat.mul]; lia) Hc).
    rewrite Nat2Z.inj_add in Hi. lia.
Qed.

(** X17. [resizeRgbImage] stores nothing outside the three RGB positions of
    the [w2 * h2] output pixels, laid out with the normalized [alpha01]: the
    alpha positions of an RGBA destination and everything after the last
    pixel are left as they were. *)
Theorem resizeRgbImage_frame src dest w1 h1 w2 h2 alpha01 i :
  0 <= w2 -> 0 <= h2 ->
  ~ rgb_slot 0 (w2 * h2) (normalized alpha01) i ->
  JS.get (dest_of (resizeRgbImage src dest w1 h1 w2 h2 alpha01)) i
  = JS.get dest i.
Proof using.
  intros Hw Hh Hi. unfold resizeRgbImage. cbv zeta.
  replace (w2 <? 0) with false by (symmetry; apply Z.ltb_ge; lia).
  cbn [dest_of].
  replace (if negb (alpha01 =? 1) then 0 else alpha01) with (normalized alpha01)
    by (unfold normalized; destruct (Z.eqb_spec alpha01 1); subst; reflexivity).
  apply resize_rows_frame. intros k c Hk Hc E. apply Hi.
  exists (Z.of_nat k), c. unfold slot. repeat split; lia.
Qed.

(** ** The script around the engine *)

Lemma process_all_from {Data : Type} (calls : list (event_type * Data)) :
  forall this,
    images (process_all this calls)
    = images this ++ map snd (filter is_image calls)
    /\ console (process_all this calls) = console this ++ calls.
Proof using.
  unfold process_all.
  induction calls as [|[type data] calls IH]; intros this; cbn [fold_left fst snd].
  - cbn [filter map]. now rewrite !app_nil_r.
  - destruct (IH (process this type data)) as [Hi Hc]. rewrite Hi, Hc.
    cbn [filter].
    change (is_image (type, data))
      with (match type with
            | TypeString s => String.eqb s "image"
            | TypeOther => false
            end).
    unfold process, processImage.
    destruct type as [s|]; [destruct (String.eqb s "image")|];
      cbn [images console map snd]; rewrite <- ?app_assoc; split; reflexivity.
Qed.

(** X18. After any run of calls of [process] on a new
    JotformCanvasMiddleware, [images] holds the payloads of the calls whose
    type is the string 'image', each once and in the order of the calls, and
    nothing else; every call, of whatever type, was logged. *)
Theorem middleware_collects_images {Data : Type} (calls : list (event_type * Data)) :
  images (process_all JotformCanvasMiddleware_new calls)
  = map snd (filter is_image calls)
  /\ console (process_all JotformCanvasMiddleware_new calls) = calls.
Proof using.
  exact (process_all_from calls JotformCanvasMiddleware_new).
Qed.

(** X19. The life cycle of a canvas of NodeCanvasFactory: what [create]
    returns holds a canvas and a context; it can be reset to any positive
    size and stays usable; once destroyed, it holds neither, and every
    further [reset] and [destroy] on it throws 'Canvas is not specified',
    whatever the size. *)
Theorem canvas_life_cycle (L : CanvasLib) width height cc :
  NodeCanvasFactory_create L width height = inr cc ->
  (canvas cc <> None /\ context cc <> None)
  /\ (forall w h, (0 <? w)%float = true -> (0 <? h)%float = true ->
        exists cc', NodeCanvasFactory_reset cc w h = inr cc'
                    /\ canvas cc' <> None /\ context cc' = context cc)
  /\ (exists c0, NodeCanvasFactory_destroy cc
                 = inr (mkCanvasAndContext None None, c0)
        /\ (forall w h, NodeCanvasFactory_reset
                          (mkCanvasAndContext (L := L) None None) w h
                        = inl (Assertion "Canvas is not specified"))
        /\ NodeCanvasFactory_destroy (mkCanvasAndContext (L := L) None None)
           = inl (Assertion "Canvas is not specified")).
Proof using.
  unfold NodeCanvasFactory_create, assert.
  destruct ((0 <? width)%float && (0 <? height)%float); [|discriminate].
  intros H. injection H as <-. split; [split; discriminate|]. split.
  - intros w h Hw Hh. unfold NodeCanvasFactory_reset, assert. cbn [canvas context].
    rewrite Hw, Hh. cbn [andb]. eexists. split; [reflexivity|].
    split; [discriminate | reflexivity].
  - eexists. split; [reflexivity|]. split; [intros w h|]; reflexivity.
Qed.

(** ** Integers as Numbers: exact arithmetic below 2^53 *)

Lemma digits2_pos_size (m : positive) : digits2_pos m = Pos.size m.
Proof using. induction m as [m IH|m IH|]; cbn; now rewrite ?IH. Qed.

Lemma digits2_pos_log2 (m : positive) :
  Zpos (digits2_pos m) = Z.log2 (Zpos m) + 1.
Proof using.
  rewrite digits2_pos_size. destruct m as [m|m|]; cbn [Z.log2 Pos.size]; lia.
Qed.

Lemma digits_unique (m : positive) (d : Z) :
  2 ^ (d - 1) <= Zpos m < 2 ^ d -> Zpos (digits2_pos m) = d.
Proof using.
  intros H. rewrite digits2_pos_log2.
  assert (0 <= d - 1).
  { destruct (Z_lt_le_dec (d - 1) 0) as [Hn|]; [|lia].
    assert (d <= 0) by lia.
    assert (2 ^ d <= 2 ^ 0) by (apply Z.pow_le_mono_r; lia).
    change (2 ^ 0) with 1 in *. lia. }
  rewrite (Z.log2_unique (Zpos m) (d - 1)); [lia | lia |].
  replace (Z.succ (d - 1)) with d by lia. exact H.
Qed.

Lemma digits_bounds (m : positive) :
  2 ^ (Zpos (digits2_pos m) - 1) <= Zpos m < 2 ^ Zpos (digits2_pos m).
Proof using.
  rewrite digits2_pos_log2.
  pose proof (Z.log2_spec (Zpos m) ltac:(lia)) as H.
  replace (Z.log2 (Z.pos m) + 1 - 1) with (Z.log2 (Zpos m)) by lia.
  replace (Z.log2 (Z.pos m) + 1) with (Z.succ (Z.log2 (Zpos m))) by lia.
  exact H.
Qed.

Lemma iter_pos_nat {A : Type} (f : A -> A) (p : positive) : forall x,
  iter_pos f p x = Nat.iter (Pos.to_nat p) f x.
Proof using.
  induction p as [p IH|p IH|]; intros x; cbn [iter_pos].
  - rewrite !IH, Pos2Nat.inj_xI.
    replace (S (2 * Pos.to_nat p)) with (Pos.to_nat p + (Pos.to_nat p + 1))%nat by lia.
    rewrite !Nat.iter_add. reflexivity.
  - rewrite !IH, Pos2Nat.inj_xO.
    replace (2 * Pos.to_nat p)%nat with (Pos.to_nat p + Pos.to_nat p)%nat by lia.
    rewrite Nat.iter_add. reflexivity.
  - reflexivity.
Qed.

Lemma shr_1_even (m : Z) :
  0 < m -> m mod 2 = 0 ->
  shr_1 (Build_shr_record m false false) = Build_shr_record (m / 2) false false.
Proof using.
  intros Hm He. destruct m as [|[p|p|]|p]; try lia.
  - rewrite Pos2Z.inj_xI in He.
    rewrite Z.add_comm, Z.mul_comm, Z.mod_add in He by lia. discriminate He.
  - cbn [shr_1 orb]. rewrite Pos2Z.inj_xO, Z.mul_comm, Z.div_mul by lia.
    reflexivity.
  - discriminate He.
Qed.

Lemma iter_shr_1 (k : nat) : forall m,
  0 < m -> m mod 2 ^ Z.of_nat k = 0 ->
  Nat.iter k shr_1 (Build_shr_record m false false)
  = Build_shr_record (m / 2 ^ Z.of_nat k) false false.
Proof using.
  induction k as [|k IH]; intros m Hm Hd.
  - change (Nat.iter 0 shr_1 (Build_shr_record m false false))
      with (Build_shr_record m false false).
    cbn [Z.of_nat]. now rewrite Z.pow_0_r, Z.div_1_r.
  - rewrite Nat.iter_succ.
    assert (H2 : 2 ^ Z.of_nat (S k) = 2 ^ Z.of_nat k * 2)
      by (rewrite Nat2Z.inj_succ, Z.pow_succ_r by lia; lia).
    assert (Hp : 0 < 2 ^ Z.of_nat k) by (apply Z.pow_pos_nonneg; lia).
    apply Z.mod_divide in Hd; [|lia]. destruct Hd as [q Hq].
    rewrite H2 in Hq.
    assert (Hm2 : m = q * 2 * 2 ^ Z.of_nat k) by (rewrite Hq; ring).
    rewrite IH; [| lia | rewrite Hm2; apply Z.mod_mul; lia].
    rewrite Hm2 at 1. rewrite Z.div_mul by lia.
    rewrite shr_1_even; [| nia | apply Z.mod_mul; lia].
    rewrite Z.div_mul by lia. rewrite H2, Hq, Z.div_mul by lia. reflexivity.
Qed.

(** Shifting an exact positive mantissa right by [n] bits that are zero. *)
Lemma shr_exact (m e n : Z) :
  0 < m -> 0 <= n -> m mod 2 ^ n = 0 ->
  shr (Build_shr_record m false false) e n
  = (Build_shr_record (m / 2 ^ n) false false, e + n).
Proof using.
  intros Hm Hn Hd. unfold shr. destruct n as [|p|p]; try lia.
  - now rewrite Z.pow_0_r, Z.div_1_r, Z.add_0_r.
  - rewrite iter_pos_nat.
    rewrite iter_shr_1; rewrite ?positive_nat_Z; [reflexivity | lia | exact Hd].
Qed.

Lemma fexp_small (x : Z) : -1021 <= x -> fexp prec emax x = x - 53.
Proof using.
  intros H. unfold fexp, SpecFloat.emin, prec, emax. lia.
Qed.

Lemma log2_53 (v : Z) : 0 < v < 2 ^ 53 -> 0 <= Z.log2 v <= 52.
Proof using.
  intros H. split; [apply Z.log2_nonneg|].
  assert (Z.log2 v < 53) by (apply Z.log2_lt_pow2; lia). lia.
Qed.

Lemma scaled_bounds (v k : Z) :
  0 < v -> 0 <= k ->
  2 ^ (Z.log2 v + k) <= v * 2 ^ k < 2 ^ (Z.log2 v + k + 1).
Proof using.
  intros Hv Hk. pose proof (Z.log2_spec v Hv) as [H1 H2].
  pose proof (Z.log2_nonneg v).
  assert (0 < 2 ^ k) by (apply Z.pow_pos_nonneg; lia).
  rewrite !Z.pow_add_r by lia. rewrite Z.pow_1_r.
  rewrite Z.pow_succ_r in H2 by lia. nia.
Qed.

Lemma digits_scaled (M : positive) (v k : Z) :
  0 < v -> 0 <= k -> Zpos M = v * 2 ^ k ->
  Zpos (digits2_pos M) = Z.log2 v + k + 1.
Proof using.
  intros Hv Hk HM. apply digits_unique. rewrite HM.
  replace (Z.log2 v + k + 1 - 1) with (Z.log2 v + k) by lia.
  now apply scaled_bounds.
Qed.

Lemma canon_valid (s : bool) (v : Z) :
  0 < v < 2 ^ 53 -> valid_binary (canon s v) = true.
Proof using.
  intros Hv. pose proof (log2_53 v Hv) as Hl.
  unfold canon, SpecFloat.valid_binary, bounded, canonical_mantissa.
  assert (Hp : 0 < v * 2 ^ (52 - Z.log2 v)).
  { apply Z.mul_pos_pos; [lia | apply Z.pow_pos_nonneg; lia]. }
  rewrite (digits_scaled _ v (52 - Z.log2 v)); [| lia | lia | rewrite Z2Pos.id; lia].
  rewrite fexp_small by lia.
  apply andb_true_intro. split; [apply Z.eqb_eq | apply Z.leb_le].
  - lia.
  - unfold emax, prec. lia.
Qed.

(** Rounding a mantissa and an exponent that denote the integer [v]. *)
Lemma binary_round_aux_int (sx : bool) (M : positive) (e v : Z) :
  e <= 0 -> Zpos M = v * 2 ^ (- e) -> 0 < v < 2 ^ 53 ->
  e <= Z.log2 v - 52 ->
  binary_round_aux prec emax sx (Zpos M) e loc_Exact = canon sx v.
Proof using.
  intros He HM Hv Hn. pose proof (log2_53 v Hv) as Hl.
  unfold binary_round_aux, shr_fexp. cbn [Zdigits2 shr_record_of_loc].
  rewrite (digits_scaled M v (- e)) by lia.
  rewrite fexp_small by lia.
  set (n := Z.log2 v + - e + 1 + e - 53 - e).
  assert (Hn0 : 0 <= n) by (unfold n; lia).
  assert (Hsplit : - e = n + (52 - Z.log2 v)) by (unfold n; lia).
  assert (Hpn : 0 < 2 ^ n) by (apply Z.pow_pos_nonneg; lia).
  assert (Hpk : 0 < 2 ^ (52 - Z.log2 v)) by (apply Z.pow_pos_nonneg; lia).
  assert (HMn : Zpos M = v * 2 ^ (52 - Z.log2 v) * 2 ^ n).
  { rewrite HM, Hsplit, Z.pow_add_r by lia. lia. }
  rewrite shr_exact; [| lia | exact Hn0 | rewrite HMn; apply Z.mod_mul; lia].
  cbn [shr_m loc_of_shr_record round_nearest_even].
  rewrite HMn, Z.div_mul by lia.
  assert (Hq : 0 < v * 2 ^ (52 - Z.log2 v)) by (apply Z.mul_pos_pos; lia).
  destruct (v * 2 ^ (52 - Z.log2 v)) as [|q|q] eqn:Eq; try lia.
  cbn [Zdigits2 shr_record_of_loc].
  rewrite (digits_scaled q v (52 - Z.log2 v)) by lia.
  rewrite fexp_small by lia.
  replace (Z.log2 v + (52 - Z.log2 v) + 1 + (e + n) - 53 - (e + n)) with 0 by lia.
  cbn [shr shr_m].
  replace (e + n <=? emax - prec) with true
    by (symmetry; apply Z.leb_le; unfold emax, prec, n; lia).
  unfold canon. rewrite Eq. cbn [Z.to_pos]. f_equal. unfold n. lia.
Qed.

Lemma Pos_iter_xO (d m : positive) :
  Zpos (Pos.iter xO m d) = Zpos m * 2 ^ Zpos d.
Proof using.
  induction d as [|d IH] using Pos.peano_ind.
  - cbn [Pos.iter]. rewrite Pos2Z.inj_xO. lia.
  - rewrite Pos.iter_succ, Pos2Z.inj_xO, IH, Pos2Z.inj_succ, Z.pow_succ_r by lia.
    lia.
Qed.

Lemma binary_round_int (sx : bool) (M : positive) (e v : Z) :
  e <= 0 -> Zpos M = v * 2 ^ (- e) -> 0 < v < 2 ^ 53 ->
  binary_round prec emax sx M e = canon sx v.
Proof using.
  intros He HM Hv. pose proof (log2_53 v Hv) as Hl.
  unfold binary_round, shl_align.
  rewrite (digits_scaled M v (- e)) by lia.
  rewrite fexp_small by lia.
  destruct (Z.log2 v + - e + 1 + e - 53 - e) as [|k|k] eqn:Ek.
  - apply binary_round_aux_int; try assumption. lia.
  - apply binary_round_aux_int; try assumption. lia.
  - apply binary_round_aux_int; try lia.
    rewrite Pos_iter_xO, HM. rewrite <- Z.mul_assoc, <- Z.pow_add_r by lia.
    f_equal. f_equal. lia.
Qed.

Lemma canon_mantissa (v : Z) :
  0 < v < 2 ^ 53 ->
  Zpos (Z.to_pos (v * 2 ^ (52 - Z.log2 v))) = v * 2 ^ (52 - Z.log2 v).
Proof using.
  intros Hv. pose proof (log2_53 v Hv).
  apply Z2Pos.id. apply Z.mul_pos_pos; [lia | apply Z.pow_pos_nonneg; lia].
Qed.

Lemma Prim2SF_Z2F (z : Z) :
  0 < z < 2 ^ 53 -> Prim2SF (JS.Z2F z) = canon false z.
Proof using.
  intros Hz. unfold JS.Z2F.
  assert (E : binary_normalize prec emax z 0 false = canon false z).
  { destruct z as [|p|p]; try lia. cbn [binary_normalize].
    apply binary_round_int; [lia | | exact Hz].
    cbn [Z.opp]. rewrite Z.pow_0_r. lia. }
  rewrite E. apply Prim2SF_SF2Prim. now apply canon_valid.
Qed.

Lemma Prim2SF_Z2F_0 : Prim2SF (JS.Z2F 0) = S754_zero false.
Proof using. reflexivity. Qed.

Lemma SF2Prim_canon (z : Z) : 0 < z < 2 ^ 53 -> SF2Prim (canon false z) = JS.Z2F z.
Proof using.
  intros Hz. apply Prim2SF_inj. rewrite Prim2SF_Z2F by exact Hz.
  apply Prim2SF_SF2Prim. now apply canon_valid.
Qed.

(** The integer read back. *)
Lemma F2Z_Z2F (z : Z) : 0 <= z < 2 ^ 53 -> JS.F2Z (JS.Z2F z) = Some z.
Proof using.
  intros Hz. destruct (Z.eq_dec z 0) as [->|Hne]; [reflexivity|].
  unfold JS.F2Z. rewrite Prim2SF_Z2F by lia. unfold canon.
  rewrite canon_mantissa by lia.
  pose proof (log2_53 z ltac:(lia)) as Hl.
  destruct (Z.leb_spec 0 (Z.log2 z - 52)) as [He|He].
  - replace (Z.log2 z - 52) with 0 by lia.
    replace (52 - Z.log2 z) with 0 by lia. rewrite !Z.pow_0_r. f_equal. lia.
  - replace (- (Z.log2 z - 52)) with (52 - Z.log2 z) by lia.
    assert (0 < 2 ^ (52 - Z.log2 z)) by (apply Z.pow_pos_nonneg; lia).
    rewrite Z.mod_mul, Z.div_mul by lia. reflexivity.
Qed.

Lemma ToInteger_Z2F (z : Z) : 0 <= z < 2 ^ 53 -> JS.ToInteger (JS.Z2F z) = z.
Proof using.
  intros Hz. destruct (Z.eq_dec z 0) as [->|Hne]; [reflexivity|].
  unfold JS.ToInteger. rewrite Prim2SF_Z2F by lia. unfold canon.
  rewrite canon_mantissa by lia.
  pose proof (log2_53 z ltac:(lia)) as Hl.
  destruct (Z.leb_spec 0 (Z.log2 z - 52)) as [He|He].
  - replace (Z.log2 z - 52) with 0 by lia.
    replace (52 - Z.log2 z) with 0 by lia. rewrite !Z.pow_0_r. lia.
  - replace (- (Z.log2 z - 52)) with (52 - Z.log2 z) by lia.
    assert (0 < 2 ^ (52 - Z.log2 z)) by (apply Z.pow_pos_nonneg; lia).
    rewrite Z.div_mul by lia. reflexivity.
Qed.

Lemma Math_floor_Z2F (z : Z) :
  0 <= z < 2 ^ 53 -> JS.Math_floor (JS.Z2F z) = JS.Z2F z.
Proof using.
  intros Hz. destruct (Z.eq_dec z 0) as [->|Hne]; [reflexivity|].
  unfold JS.Math_floor. rewrite Prim2SF_Z2F by lia. unfold canon.
  rewrite canon_mantissa by lia.
  pose proof (log2_53 z ltac:(lia)) as Hl.
  destruct (Z.leb_spec 0 (Z.log2 z - 52)) as [He|He]; [reflexivity|].
  replace (- (Z.log2 z - 52)) with (52 - Z.log2 z) by lia.
  assert (0 < 2 ^ (52 - Z.log2 z)) by (apply Z.pow_pos_nonneg; lia).
  rewrite Z.div_mul by lia. reflexivity.
Qed.

Lemma shl_align_fst (m : positive) (e ez : Z) :
  ez <= e -> Zpos (fst (shl_align m e ez)) = Zpos m * 2 ^ (e - ez).
Proof using.
  intros H. unfold shl_align. destruct (ez - e) as [|d|d] eqn:E; cbn [fst].
  - replace (e - ez) with 0 by lia. rewrite Z.pow_0_r. lia.
  - lia.
  - rewrite Pos_iter_xO. f_equal. f_equal. lia.
Qed.

(** The value of a canonical form, scaled to a lower exponent. *)
Lemma canon_scaled (v ez : Z) :
  0 < v < 2 ^ 53 -> ez <= Z.log2 v - 52 ->
  v * 2 ^ (52 - Z.log2 v) * 2 ^ (Z.log2 v - 52 - ez) = v * 2 ^ (- ez).
Proof using.
  intros Hv He. pose proof (log2_53 v Hv).
  rewrite <- Z.mul_assoc, <- Z.pow_add_r by lia. f_equal. f_equal. lia.
Qed.

(** Addition of integers is exact below 2^53. *)
Lemma Z2F_add (a b : Z) :
  0 <= a -> 0 <= b -> a + b < 2 ^ 53 ->
  (JS.Z2F a + JS.Z2F b)%float = JS.Z2F (a + b).
Proof using.
  intros Ha Hb Hab. apply Prim2SF_inj. rewrite add_spec.
  destruct (Z.eq_dec a 0) as [->|Ha0]; destruct (Z.eq_dec b 0) as [->|Hb0].
  - reflexivity.
  - rewrite Z.add_0_l, Prim2SF_Z2F_0, Prim2SF_Z2F by lia. reflexivity.
  - rewrite Z.add_0_r, Prim2SF_Z2F_0, Prim2SF_Z2F by lia. reflexivity.
  - rewrite !Prim2SF_Z2F by lia. unfold SF64add, canon at 1 2. cbn [SFadd cond_Zopp].
    pose proof (log2_53 a ltac:(lia)) as Hla.
    pose proof (log2_53 b ltac:(lia)) as Hlb.
    set (ez := Z.min (Z.log2 a - 52) (Z.log2 b - 52)).
    rewrite !shl_align_fst by (unfold ez; lia).
    rewrite !canon_mantissa by lia.
    rewrite !canon_scaled by (unfold ez; lia).
    assert (Hp : 0 < 2 ^ (- ez)) by (apply Z.pow_pos_nonneg; unfold ez; lia).
    destruct (a * 2 ^ (- ez) + b * 2 ^ (- ez)) as [|S|S] eqn:ES; try nia.
    cbn [binary_normalize].
    apply binary_round_int; [unfold ez; lia | rewrite <- ES; ring | lia].
Qed.

(** Multiplication of integers is exact below 2^53. *)
Lemma Z2F_mul (a b : Z) :
  0 <= a < 2 ^ 53 -> 0 <= b < 2 ^ 53 -> a * b < 2 ^ 53 ->
  (JS.Z2F a * JS.Z2F b)%float = JS.Z2F (a * b).
Proof using.
  intros Ha Hb Hab. apply Prim2SF_inj. rewrite mul_spec.
  destruct (Z.eq_dec a 0) as [->|Ha0]; destruct (Z.eq_dec b 0) as [->|Hb0].
  - reflexivity.
  - rewrite Z.mul_0_l, Prim2SF_Z2F_0, Prim2SF_Z2F by lia. reflexivity.
  - rewrite Z.mul_0_r, Prim2SF_Z2F_0, Prim2SF_Z2F by lia. reflexivity.
  - assert (Hpos : 0 < a * b) by nia.
    rewrite !Prim2SF_Z2F by lia. unfold SF64mul, canon at 1 2. cbn [SFmul xorb].
    pose proof (log2_53 a ltac:(lia)) as Hla.
    pose proof (log2_53 b ltac:(lia)) as Hlb.
    pose proof (Z.log2_mul_below a b ltac:(lia) ltac:(lia)) as Hlab.
    apply binary_round_aux_int; [lia | | lia | lia].
    rewrite Pos2Z.inj_mul, !canon_mantissa by lia.
    replace (- (Z.log2 a - 52 + (Z.log2 b - 52)))
      with ((52 - Z.log2 a) + (52 - Z.log2 b)) by lia.
    rewrite Z.pow_add_r by lia. ring.
Qed.

(** Division of a multiple by its factor is exact below 2^53. *)
Lemma Z2F_div (a b : Z) :
  0 < a -> 0 < b -> a * b < 2 ^ 53 ->
  (JS.Z2F (a * b) / JS.Z2F b)%float = JS.Z2F a.
Proof using.
  intros Ha Hb Hab. apply Prim2SF_inj. rewrite div_spec.
  assert (Hpos : 0 < a * b) by nia.
  assert (Ha53 : a < 2 ^ 53) by nia.
  assert (Hb53 : b < 2 ^ 53) by nia.
  rewrite !Prim2SF_Z2F by lia. unfold SF64div, canon at 1 2. cbn [SFdiv xorb].
  pose proof (log2_53 a ltac:(lia)) as Hla.
  pose proof (log2_53 b ltac:(lia)) as Hlb.
  pose proof (log2_53 (a * b) ltac:(lia)) as Hlab.
  pose proof (Z.log2_mul_below a b ltac:(lia) ltac:(lia)) as Hbelow.
  pose proof (Z.log2_mul_above a b ltac:(lia) ltac:(lia)) as Habove.
  unfold SFdiv_core_binary. cbn [Zdigits2].
  rewrite (digits_scaled _ (a * b) (52 - Z.log2 (a * b)))
    by (try lia; apply canon_mantissa; lia).
  rewrite (digits_scaled _ b (52 - Z.log2 b))
    by (try lia; apply canon_mantissa; lia).
  rewrite fexp_small by lia.
  set (e1 := Z.log2 (a * b) - 52). set (e2 := Z.log2 b - 52).
  replace (Z.min (Z.log2 (a * b) + (52 - Z.log2 (a * b)) + 1 + e1
                  - (Z.log2 b + (52 - Z.log2 b) + 1 + e2) - 53) (e1 - e2))
    with (e1 - e2 - 53) by lia.
  replace (e1 - e2 - (e1 - e2 - 53)) with 53 by lia.
  cbv beta iota zeta.
  rewrite Z.shiftl_mul_pow2 by lia.
  rewrite !canon_mantissa by lia.
  set (k := Z.log2 b - Z.log2 (a * b) + 53).
  assert (Hk : 0 <= k) by (unfold k; lia).
  assert (Hpb : 0 < 2 ^ (52 - Z.log2 b)) by (apply Z.pow_pos_nonneg; lia).
  assert (Hnum : a * b * 2 ^ (52 - Z.log2 (a * b)) * 2 ^ 53
                 = (a * 2 ^ k) * (b * 2 ^ (52 - Z.log2 b))).
  { transitivity (a * b * (2 ^ (52 - Z.log2 (a * b)) * 2 ^ 53)); [ring|].
    rewrite <- Z.pow_add_r by lia.
    transitivity (a * b * (2 ^ k * 2 ^ (52 - Z.log2 b))); [|ring].
    rewrite <- Z.pow_add_r by lia. f_equal. f_equal. unfold k. lia. }
  rewrite Hnum.
  assert (Hden : 0 < b * 2 ^ (52 - Z.log2 b)) by nia.
  pose proof (Z.div_eucl_eq (a * 2 ^ k * (b * 2 ^ (52 - Z.log2 b)))
                (b * 2 ^ (52 - Z.log2 b)) ltac:(lia)) as Heq.
  pose proof (Z.mod_pos_bound (a * 2 ^ k * (b * 2 ^ (52 - Z.log2 b)))
                (b * 2 ^ (52 - Z.log2 b)) Hden) as Hbd.
  unfold Z.modulo in Hbd.
  destruct (Z.div_eucl (a * 2 ^ k * (b * 2 ^ (52 - Z.log2 b)))
              (b * 2 ^ (52 - Z.log2 b))) as [q r].
  assert (Hq : q = a * 2 ^ k /\ r = 0).
  { assert (Hd : (a * 2 ^ k - q) * (b * 2 ^ (52 - Z.log2 b)) = r) by lia.
    assert (a * 2 ^ k - q = 0) by nia. split; nia. }
  destruct Hq as [-> ->].
  assert (Hloc : new_location (b * 2 ^ (52 - Z.log2 b)) 0 = loc_Exact).
  { unfold new_location, new_location_even, new_location_odd.
    destruct (Z.even _); reflexivity. }
  rewrite Hloc.
  assert (Hqp : 0 < a * 2 ^ k) by (apply Z.mul_pos_pos; [lia | apply Z.pow_pos_nonneg; lia]).
  destruct (a * 2 ^ k) as [|Q|Q] eqn:EQ; try lia.
  apply binary_round_aux_int; [unfold e1, e2; lia | | lia | unfold e1, e2; lia].
  rewrite <- EQ. f_equal. f_equal. unfold k, e1, e2. lia.
Qed.

Lemma Z2F_div_self (a : Z) :
  0 < a < 2 ^ 53 -> (JS.Z2F a / JS.Z2F a)%float = 1%float.
Proof using.
  intros Ha. pose proof (Z2F_div 1 a ltac:(lia) ltac:(lia) ltac:(lia)) as H.
  rewrite Z.mul_1_l in H. exact H.
Qed.

(** ** getOutputLength counts the bytes of the pixels *)

Lemma Z2F_div_0 (b : Z) :
  0 < b < 2 ^ 53 -> (JS.Z2F 0 / JS.Z2F b)%float = JS.Z2F 0.
Proof using.
  intros Hb. apply Prim2SF_inj.
  rewrite div_spec, Prim2SF_Z2F_0, Prim2SF_Z2F by lia. reflexivity.
Qed.

(** [n * b / b] on Numbers. *)
Lemma Z2F_mul_div (n b : Z) :
  0 <= n -> 0 < b < 2 ^ 53 -> n * b < 2 ^ 53 ->
  (JS.Z2F (n * b) / JS.Z2F b)%float = JS.Z2F n.
Proof using.
  intros Hn Hb Hnb. destruct (Z.eq_dec n 0) as [->|Hn0].
  - rewrite Z.mul_0_l. apply Z2F_div_0. lia.
  - apply Z2F_div; lia.
Qed.

Lemma or0_Z2F (m : Z) : 0 <= m < 2 ^ 31 -> JS.or0 (JS.Z2F m) = JS.Z2F m.
Proof using.
  intros Hm. unfold JS.or0.
  change (2 ^ 31) with 2147483648 in Hm.
  rewrite ToInteger_Z2F by (change (2 ^ 53) with 9007199254740992; lia).
  unfold JS.ToInt32Z. cbv zeta.
  change (2 ^ 32) with 4294967296. change (2 ^ 31) with 2147483648.
  assert (E : m mod 4294967296 = m) by (apply Z.mod_small; lia).
  rewrite E. destruct (Z.leb_spec 2147483648 m); [lia | reflexivity].
Qed.

Lemma chain_ok_numComps cs :
  chain_ok cs = true -> 1 <= countOf (numComps cs) <= 32.
Proof using.
  destruct cs; cbn [chain_ok numComps countOf]; try lia; discriminate.
Qed.

Lemma getOutputLength_chain cs :
  chain_ok cs = true ->
  forall n alpha01,
    0 <= alpha01 <= 1 -> 0 <= n -> n * (3 + alpha01) < 2 ^ 31 ->
    getOutputLength cs (JS.Z2F (n * countOf (numComps cs))) alpha01
    = inr (JS.Z2F (n * (3 + alpha01))).
Proof using.
  assert (P31 : 2 ^ 31 = 2147483648) by reflexivity.
  assert (P53 : 2 ^ 53 = 9007199254740992) by reflexivity.
  induction cs as [ | | | p | p | p | base IH hv lookup | n0 base IH tintFn tmpBuf | base ];
    intros Hok n a Ha Hn Hb; cbn [getOutputLength numComps countOf];
    try discriminate Hok.
  - rewrite Z.mul_1_r, Z2F_mul by lia. reflexivity.
  - rewrite Z2F_mul by lia. change 3%float with (JS.Z2F 3).
    replace (n * 3 * (3 + a)) with (n * (3 + a) * 3) by lia.
    rewrite Z2F_mul_div by lia. rewrite or0_Z2F by lia. reflexivity.
  - change 4%float with (JS.Z2F 4). rewrite Z2F_mul_div by lia.
    rewrite Z2F_mul by lia. rewrite or0_Z2F by lia. reflexivity.
  - rewrite Z.mul_1_r, Z2F_mul by lia. reflexivity.
  - rewrite Z2F_mul by lia. change 3%float with (JS.Z2F 3).
    replace (n * 3 * (3 + a)) with (n * (3 + a) * 3) by lia.
    rewrite Z2F_mul_div by lia. rewrite or0_Z2F by lia. reflexivity.
  - rewrite Z2F_mul by lia. change 3%float with (JS.Z2F 3).
    replace (n * 3 * (3 + a)) with (n * (3 + a) * 3) by lia.
    rewrite Z2F_mul_div by lia. rewrite or0_Z2F by lia. reflexivity.
  - cbn [chain_ok] in Hok. pose proof (chain_ok_numComps base Hok) as Hnc.
    rewrite Z.mul_1_r, Z2F_mul by nia. now apply IH.
  - cbn [chain_ok] in Hok. apply andb_prop in Hok. destruct Hok as [Hn0 Hok].
    apply andb_prop in Hn0. destruct Hn0 as [H1 H2].
    apply Z.ltb_lt in H1. apply Z.leb_le in H2.
    pose proof (chain_ok_numComps base Hok) as Hnc.
    assert (Hn31 : n < 2147483648) by nia.
    assert (Hb1 : 0 <= n * n0 <= 2147483648 * 32) by nia.
    assert (Hb2 : 0 <= n * countOf (numComps base) <= 2147483648 * 32) by nia.
    assert (Hb3 : 0 <= n * n0 * countOf (numComps base) <= 2147483648 * 32 * 32)
      by nia.
    rewrite Z2F_mul by lia.
    replace (n * n0 * countOf (numComps base))
      with (n * countOf (numComps base) * n0) in * by lia.
    rewrite Z2F_mul_div by lia. now apply IH.
Qed.

(** X20. [getOutputLength] counts [3 + alpha01] bytes for each pixel: for
    every chain of Indexed and Alternate spaces over a simple space (each
    Alternate with 1 to 32 colorants), the output length of the samples of
    [n] pixels is [n * (3 + alpha01)] exactly, as long as that is below
    2^31; the divisions and products on Numbers lose nothing. *)
Theorem getOutputLength_per_pixel cs n alpha01 :
  chain_ok cs = true ->
  0 <= alpha01 <= 1 -> 0 <= n -> n * (3 + alpha01) < 2 ^ 31 ->
  getOutputLength cs (JS.Z2F (n * countOf (numComps cs))) alpha01
  = inr (JS.Z2F (n * (3 + alpha01))).
Proof using.
  intros Hok Ha Hn Hb. now apply getOutputLength_chain.
Qed.

(** ** Indexed spaces: the palette *)

Section LocalLoop.

Variable W : Z -> bytes -> Z -> bytes.
Variables step stride : Z.
Hypothesis HL : local_writer W.

Lemma local_loop_length n : forall s q d,
  length (pixel_loop W step stride n s q d) = length d.
Proof using HL.
  induction n as [|n IH]; intros s q d; cbn [pixel_loop]; [reflexivity|].
  rewrite IH. apply HL.
Qed.

Lemma local_loop_frame n : forall s q d i,
  (forall (k : nat) c, (k < n)%nat -> 0 <= c < 3 ->
                       i <> q + Z.of_nat k * stride + c) ->
  JS.get (pixel_loop W step stride n s q d) i = JS.get d i.
Proof using HL.
  induction n as [|n IH]; intros s q d i Hi; cbn [pixel_loop]; [reflexivity|].
  rewrite IH.
  - apply HL.
    pose proof (Hi 0%nat 0 ltac:(lia) ltac:(lia)).
    pose proof (Hi 0%nat 1 ltac:(lia) ltac:(lia)).
    pose proof (Hi 0%nat 2 ltac:(lia) ltac:(lia)). lia.
  - intros k c Hk Hc. specialize (Hi (S k) c ltac:(lia) Hc). lia.
Qed.

(** The bytes of a pixel whose conversion stores three bytes. *)
Lemma local_loop_slot n : forall s q d (k : nat) c r g b,
  3 <= stride -> (k < n)%nat -> 0 <= c < 3 ->
  0 <= q + Z.of_nat k * stride ->
  q + Z.of_nat k * stride + 3 <= Z.of_nat (length d) ->
  (forall d' q', 0 <= q' -> q' + 3 <= Z.of_nat (length d') ->
     W (s + Z.of_nat k * step) d' q'
     = JS.put (JS.put (JS.put d' q' r) (q' + 1) g) (q' + 2) b) ->
  JS.get (pixel_loop W step stride n s q d) (q + Z.of_nat k * stride + c)
  = JS.get [r; g; b] c.
Proof using HL.
  induction n as [|n IH]; intros s q d k c r g b Hs Hk Hc H0 H3 HW; [lia|].
  cbn [pixel_loop]. destruct k as [|k].
  - cbn [Z.of_nat] in *. rewrite Z.mul_0_l, !Z.add_0_r in *.
    rewrite local_loop_frame by (intros; nia).
    rewrite HW by lia. rewrite get_put3.
    replace ((0 <=? q + c) && (q + c <? Z.of_nat (length d))) with true
      by (symmetry; apply andb_true_intro; split;
          [apply Z.leb_le | apply Z.ltb_lt]; lia).
    assert (Hc' : c = 0 \/ c = 1 \/ c = 2) by lia.
    destruct Hc' as [-> | [-> | ->]].
    + now rewrite Z.add_0_r, !Z.eqb_refl.
    + rewrite Z.eqb_refl.
      now replace (q + 1 =? q) with false by (symmetry; apply Z.eqb_neq; lia).
    + rewrite Z.eqb_refl.
      replace (q + 2 =? q) with false by (symmetry; apply Z.eqb_neq; lia).
      now replace (q + 2 =? q + 1) with false by (symmetry; apply Z.eqb_neq; lia).
  - replace (q + Z.of_nat (S k) * stride + c)
      with (q + stride + Z.of_nat k * stride + c) by lia.
    apply IH; try assumption; try lia.
    + rewrite (proj1 (HL s d q)). lia.
    + intros d' q' Hq0 Hq3.
      replace (s + step + Z.of_nat k * step)
        with (s + Z.of_nat (S k) * step) by lia.
      now apply HW.
Qed.

End LocalLoop.

Lemma rgb_slot_one q alpha01 i :
  rgb_slot q 1 alpha01 i -> q <= i < q + 3.
Proof using.
  intros (k & c & Hk & Hc & ->). unfold slot. assert (k = 0) by lia. subst k. lia.
Qed.

Lemma palette_call_local base lookup src alpha01 :
  is_simple base = true -> local_writer (palette_call base lookup src alpha01).
Proof using.
  intros Hs j d q. unfold palette_call. split.
  - exact (proj1 (proj2 (getRgb_ok base) lookup (lookupPos base lookup src j) 1
                    d q 8 alpha01 d (writes_bytes_refl d))).
  - intros i Hi. apply (simple_buffer_frames base Hs); [lia|].
    intros H. apply rgb_slot_one in H. lia.
Qed.

(** With room for the pixel, the call returns normally. *)
Lemma simple_call_normal base lookup pos d q alpha01 :
  is_simple base = true -> 0 <= q -> q + 3 <= Z.of_nat (length d) ->
  getRgbBuffer base lookup pos 1 d q 8 alpha01
  = Normal (dest_of (getRgbBuffer base lookup pos 1 d q 8 alpha01)).
Proof using.
  intros Hs Hq Hd. destruct (copies base 8 alpha01) eqn:Hc.
  - destruct base; try discriminate Hc. cbn [getRgbBuffer].
    unfold DeviceRgb_getRgbBuffer. unfold copies in Hc. cbn [isPassthrough] in Hc.
    rewrite Hc. unfold typed_set.
    pose proof (subarray_length_le lookup pos (1 * 3) ltac:(lia)) as Hl.
    replace ((q <? 0)
             || (Z.of_nat (length d)
                 <? Z.of_nat (length (JS.subarray lookup pos (pos + 1 * 3))) + q))
      with false by (symmetry; apply orb_false_intro; apply Z.ltb_ge; lia).
    reflexivity.
  - rewrite getRgbBuffer_as_loop by assumption. reflexivity.
Qed.

(** The call for one pixel, when the palette holds the entry. *)
Lemma base_call_palette base lookup alpha01 pos d q :
  is_simple base = true ->
  0 <= q -> q + 3 <= Z.of_nat (length d) ->
  (copies base 8 alpha01 = true -> 0 <= pos /\ pos + 3 <= Z.of_nat (length lookup)) ->
  getRgbBuffer base lookup pos 1 d q 8 alpha01
  = Normal (palette_store base lookup alpha01 pos d q).
Proof using.
  intros Hs Hq Hd Hin. unfold palette_store. cbv zeta.
  destruct (copies base 8 alpha01) eqn:Hc.
  - destruct (Hin eq_refl) as [Hp0 Hp3].
    destruct base; try discriminate Hc.
    unfold copies in Hc. cbn [isPassthrough] in Hc.
    apply andb_prop in Hc. destruct Hc as [_ Ha]. apply Z.eqb_eq in Ha. subst alpha01.
    unfold one_pixel. cbn [getRgbBuffer]. unfold DeviceRgb_getRgbBuffer.
    change ((8 =? 8) && (0 =? 0)) with true. cbv iota.
    replace (pos + 1 * 3) with (pos + 3) by lia.
    rewrite subarray_inside by lia.
    destruct (skipn_three lookup pos Hp0 Hp3) as (c0 & c1 & c2 & E & _).
    rewrite E. change (Z.to_nat 3) with 3%nat. cbn [firstn].
    unfold typed_set. cbn [length Z.of_nat Pos.of_succ_nat Pos.succ].
    replace ((q <? 0) || (Z.of_nat (length d) <? 3 + q)) with false
      by (symmetry; apply orb_false_intro; apply Z.ltb_ge; lia).
    cbn [set_run]. replace (q + 1 + 1) with (q + 2) by lia.
    reflexivity.
  - rewrite getRgbBuffer_as_loop by assumption.
    change (Z.to_nat 1) with 1%nat. cbn [pixel_loop].
    destruct (one_pixel_writer base lookup 8 alpha01 Hs Hc pos) as (r & g & b & E).
    rewrite !E. reflexivity.
Qed.

Lemma IndexedCS_loop_pixels base lookup src alpha01 n : forall srcOffset d q,
  is_simple base = true -> 0 <= alpha01 ->
  0 <= q -> q + Z.of_nat n * (3 + alpha01) <= Z.of_nat (length d) ->
  Z.of_nat (length d) < 2 ^ 53 ->
  IndexedCS_loop (getRgbBuffer base) (countOf (numComps base))
    (JS.Z2F (3 + alpha01)) lookup src alpha01 n srcOffset d q
  = Normal (pixel_loop (palette_call base lookup src alpha01)
              1 (3 + alpha01) n srcOffset q d).
Proof using.
  induction n as [|n IH]; intros so d q Hs Ha Hq Hroom H53; [reflexivity|].
  cbn [IndexedCS_loop pixel_loop].
  fold (lookupPos base lookup src so).
  rewrite simple_call_normal by (try assumption; lia).
  fold (palette_call base lookup src alpha01 so d q).
  destruct n as [|n]; [reflexivity|].
  rewrite Z2F_add by lia. rewrite F2Z_Z2F by lia.
  pose proof (proj1 (palette_call_local base lookup src alpha01 Hs so d q)) as Hl.
  apply IH; try assumption; try lia; rewrite Hl; lia.
Qed.

Lemma is_simple_chain_ok cs : is_simple cs = true -> chain_ok cs = true.
Proof using. destruct cs; try discriminate; reflexivity. Qed.

Lemma Indexed_pixels base highVal lookup src srcOffset count dest destOffset
    bits alpha01 :
  is_simple base = true ->
  0 <= alpha01 <= 1 -> 0 <= count -> 0 <= destOffset ->
  destOffset + count * (3 + alpha01) <= Z.of_nat (length dest) ->
  Z.of_nat (length dest) < 2 ^ 53 ->
  exists out,
    getRgbBuffer (IndexedCS base highVal lookup) src srcOffset count dest
      destOffset bits alpha01 = Normal out
    /\ (forall k c, 0 <= k < count -> 0 <= c < 3 ->
          (copies base 8 alpha01 = true ->
             0 <= lookupPos base lookup src (srcOffset + k)
             /\ lookupPos base lookup src (srcOffset + k) + 3
                <= Z.of_nat (length lookup)) ->
          JS.get out (slot destOffset alpha01 k c)
          = JS.get (dest_of (getRgbBuffer base lookup
                               (lookupPos base lookup src (srcOffset + k)) 1
                               (zeros 3) 0 8 alpha01)) c)
    /\ (forall i, ~ rgb_slot destOffset count alpha01 i ->
          JS.get out i = JS.get dest i).
Proof using.
  intros Hs Ha Hcount Hq Hroom H53.
  eexists. split; [|split].
  - cbn [getRgbBuffer]. unfold IndexedCS_getRgbBuffer. cbv zeta.
    pose proof (getOutputLength_chain base (is_simple_chain_ok base Hs) 1 alpha01
                  Ha ltac:(lia) ltac:(change (2 ^ 31) with 2147483648; lia)) as HO.
    rewrite !Z.mul_1_l in HO. rewrite HO.
    apply IndexedCS_loop_pixels; try assumption; lia.
  - intros k c Hk Hc Hin. unfold slot.
    assert (Hk1 : k * (3 + alpha01) + (3 + alpha01) <= count * (3 + alpha01)) by nia.
    assert (Hk0 : 0 <= k * (3 + alpha01)) by nia.
    replace k with (Z.of_nat (Z.to_nat k)) in * by lia.
    set (pos := lookupPos base lookup src (srcOffset + Z.of_nat (Z.to_nat k))) in *.
    set (o := one_pixel base lookup 8 alpha01 pos (zeros 3) 0).
    assert (Ho : length o = 3%nat).
    { unfold o, one_pixel.
      exact (proj1 (proj2 (getRgb_ok base) lookup pos 1 (zeros 3) 0 8 alpha01
                      (zeros 3) (writes_bytes_refl _))). }
    rewrite (local_loop_slot _ _ _ (palette_call_local base lookup src alpha01 Hs)
               _ _ _ _ _ _ (nth 0 o 0) (nth 1 o 0) (nth 2 o 0));
      [ | lia | lia | lia | lia | lia | ].
    + rewrite (base_call_palette base lookup alpha01 pos (zeros 3) 0 Hs
                 ltac:(lia) ltac:(change (Z.of_nat (length (zeros 3))) with 3; lia)
                 Hin).
      cbn [dest_of]. unfold palette_store. cbv zeta. fold o.
      rewrite get_put3. change (Z.of_nat (length (zeros 3))) with 3.
      destruct o as [|o0 [|o1 [|o2 [|]]]]; try discriminate Ho. cbn [nth].
      assert (Hc' : c = 0 \/ c = 1 \/ c = 2) by lia.
      destruct Hc' as [-> | [-> | ->]]; reflexivity.
    + intros d' q' Hq0 Hq3. unfold palette_call. rewrite Z.mul_1_r. fold pos.
      rewrite (base_call_palette base lookup alpha01 pos d' q' Hs Hq0 Hq3 Hin).
      reflexivity.
  - intros i Hi.
    apply (local_loop_frame _ _ _ (palette_call_local base lookup src alpha01 Hs)).
    now apply not_slot_loop.
Qed.

(** X21. [IndexedCS.getRgbBuffer] over a simple base is a palette lookup:
    with room in [dest] for the [count] pixels it returns normally, whatever
    the samples are; the destination advances by exactly [3 + alpha01] per
    pixel; pixel [k] gets the three bytes that the base gives the palette
    entry selected by the sample [src[srcOffset + k]] (on the copying path
    of DeviceRGB, when the palette holds that entry); nothing else is
    stored.  The result does not depend on [bits]. *)
Theorem Indexed_getRgbBuffer_palette base highVal lookup src srcOffset count
    dest destOffset bits alpha01 :
  is_simple base = true ->
  0 <= alpha01 <= 1 -> 0 <= count -> 0 <= destOffset ->
  destOffset + count * (3 + alpha01) <= Z.of_nat (length dest) ->
  Z.of_nat (length dest) < 2 ^ 53 ->
  exists out,
    getRgbBuffer (IndexedCS base highVal lookup) src srcOffset count dest
      destOffset bits alpha01 = Normal out
    /\ (forall k c, 0 <= k < count -> 0 <= c < 3 ->
          (copies base 8 alpha01 = true ->
             0 <= lookupPos base lookup src (srcOffset + k)
             /\ lookupPos base lookup src (srcOffset + k) + 3
                <= Z.of_nat (length lookup)) ->
          JS.get out (slot destOffset alpha01 k c)
          = JS.get (dest_of (getRgbBuffer base lookup
                               (lookupPos base lookup src (srcOffset + k)) 1
                               (zeros 3) 0 8 alpha01)) c)
    /\ (forall i, ~ rgb_slot destOffset count alpha01 i ->
          JS.get out i = JS.get dest i).
Proof using.
  intros Hs Ha Hcount Hq Hroom H53.
  exact (Indexed_pixels base highVal lookup src srcOffset count dest destOffset
           bits alpha01 Hs Ha Hcount Hq Hroom H53).
Qed.

Lemma scaled_byte (c : Z) :
  byte c ->
  JS.ToUint8Clamp (255 / JS.Z2F (JS.shl 1 8 - 1) * JS.Z2F c)%float = c.
Proof using.
  intros Hc. change (255 / JS.Z2F (JS.shl 1 8 - 1) * JS.Z2F c)%float
               with (scaled_sample 8 c).
  rewrite scaled_sample_level by (cbn [In]; unfold byte in Hc; lia).
  unfold nearest. change (2 ^ 8 - 1) with 255.
  symmetry. unfold byte in Hc. apply (Z.div_unique _ _ c 255); lia.
Qed.

(** One pixel of 8-bit DeviceRGB, converted alone, is its three bytes. *)
Lemma DeviceRgb_one_pixel_bytes lookup pos alpha01 c :
  Forall byte lookup ->
  0 <= pos -> pos + 3 <= Z.of_nat (length lookup) -> 0 <= c < 3 ->
  JS.get (dest_of (getRgbBuffer DeviceRgbCS lookup pos 1 (zeros 3) 0 8 alpha01)) c
  = JS.get lookup (pos + c).
Proof using.
  intros Hb Hp0 Hp3 Hc.
  destruct (skipn_three lookup pos Hp0 Hp3) as (c0 & c1 & c2 & E & G0 & G1 & G2).
  assert (Hin : forall x, In x [c0; c1; c2] -> byte x).
  { intros x Hx. apply (proj1 (Forall_forall _ _) Hb).
    rewrite <- (firstn_skipn (Z.to_nat pos) lookup), E. apply in_or_app. right.
    cbn [In] in *. tauto. }
  assert (Hout : dest_of (getRgbBuffer DeviceRgbCS lookup pos 1 (zeros 3) 0 8 alpha01)
                 = [c0; c1; c2]).
  { destruct (copies DeviceRgbCS 8 alpha01) eqn:Hcp.
    - rewrite (base_call_palette DeviceRgbCS lookup alpha01 pos (zeros 3) 0 eq_refl
                 ltac:(lia)
                 ltac:(change (Z.of_nat (length (zeros 3))) with 3; lia)
                 (fun _ => conj Hp0 Hp3)).
      cbn [dest_of]. unfold palette_store. cbv zeta.
      unfold copies in Hcp. cbn [isPassthrough] in Hcp.
      apply andb_prop in Hcp. destruct Hcp as [_ Ha]. apply Z.eqb_eq in Ha.
      subst alpha01. unfold one_pixel. cbn [getRgbBuffer].
      unfold DeviceRgb_getRgbBuffer. change ((8 =? 8) && (0 =? 0)) with true.
      cbv iota. replace (pos + 1 * 3) with (pos + 3) by lia.
      rewrite subarray_inside by lia. rewrite E.
      change (Z.to_nat 3) with 3%nat. cbn [firstn].
      transitivity [JS.ToUint8Clamp (JS.Z2F c0); JS.ToUint8Clamp (JS.Z2F c1);
                    JS.ToUint8Clamp (JS.Z2F c2)]; [reflexivity|].
      rewrite !clamp_byte by (apply Hin; cbn [In]; auto). reflexivity.
    - fold (one_pixel DeviceRgbCS lookup 8 alpha01 pos (zeros 3) 0).
      rewrite one_pixel_DeviceRgb by exact Hcp. cbv zeta.
      rewrite G0, G1, G2. cbn [JS.NumZ].
      rewrite !scaled_byte by (apply Hin; cbn [In]; auto). reflexivity. }
  rewrite Hout.
  assert (Hc' : c = 0 \/ c = 1 \/ c = 2) by lia.
  destruct Hc' as [-> | [-> | ->]]; rewrite ?Z.add_0_r; symmetry; assumption.
Qed.

Lemma Indexed_DeviceRgb_pixels highVal lookup src srcOffset count dest
    destOffset bits alpha01 :
  Forall byte lookup ->
  0 <= alpha01 <= 1 -> 0 <= count -> 0 <= destOffset ->
  destOffset + count * (3 + alpha01) <= Z.of_nat (length dest) ->
  Z.of_nat (length dest) < 2 ^ 53 ->
  exists out,
    getRgbBuffer (IndexedCS DeviceRgbCS highVal lookup) src srcOffset count dest
      destOffset bits alpha01 = Normal out
    /\ (forall k c s, 0 <= k < count -> 0 <= c < 3 ->
          JS.get src (srcOffset + k) = Some s ->
          0 <= s -> 3 * s + 3 <= Z.of_nat (length lookup) ->
          JS.get out (slot destOffset alpha01 k c) = JS.get lookup (3 * s + c))
    /\ (forall i, ~ rgb_slot destOffset count alpha01 i ->
          JS.get out i = JS.get dest i).
Proof using.
  intros Hb Ha Hcount Hq Hroom H53.
  destruct (Indexed_pixels DeviceRgbCS highVal lookup src srcOffset count dest
              destOffset bits alpha01 eq_refl Ha Hcount Hq Hroom H53)
    as (out & Hout & Hpix & Hframe).
  exists out. split; [exact Hout|]. split; [|exact Hframe].
  intros k c s Hk Hc Hs Hs0 Hs3.
  assert (Hpos : lookupPos DeviceRgbCS lookup src (srcOffset + k) = 3 * s).
  { unfold lookupPos. rewrite Hs. cbn [numComps countOf]. lia. }
  rewrite (Hpix k c Hk Hc) by (intros _; rewrite Hpos; lia).
  rewrite Hpos. apply DeviceRgb_one_pixel_bytes; try assumption; lia.
Qed.

(** X22. An image with a palette of RGB bytes is converted by copying palette
    entries: with room in [dest], [IndexedCS.getRgbBuffer] over DeviceRGB
    returns normally and component [c] of pixel [k] is [lookup[3 * s + c]]
    for every sample [s = src[srcOffset + k]] that selects an entry inside
    the palette, for [alpha01] 0 and 1 alike; nothing else is stored. *)
Theorem Indexed_over_DeviceRgb highVal lookup src srcOffset count dest
    destOffset bits alpha01 :
  Forall byte lookup ->
  0 <= alpha01 <= 1 -> 0 <= count -> 0 <= destOffset ->
  destOffset + count * (3 + alpha01) <= Z.of_nat (length dest) ->
  Z.of_nat (length dest) < 2 ^ 53 ->
  exists out,
    getRgbBuffer (IndexedCS DeviceRgbCS highVal lookup) src srcOffset count dest
      destOffset bits alpha01 = Normal out
    /\ (forall k c s, 0 <= k < count -> 0 <= c < 3 ->
          JS.get src (srcOffset + k) = Some s ->
          0 <= s -> 3 * s + 3 <= Z.of_nat (length lookup) ->
          JS.get out (slot destOffset alpha01 k c) = JS.get lookup (3 * s + c))
    /\ (forall i, ~ rgb_slot destOffset count alpha01 i ->
          JS.get out i = JS.get dest i).
Proof using.
  intros Hb Ha Hcount Hq Hroom H53.
  exact (Indexed_DeviceRgb_pixels highVal lookup src srcOffset count dest
           destOffset bits alpha01 Hb Ha Hcount Hq Hroom H53).
Qed.

(** ** resizeRgbImage at the size of the source *)

Lemma resize_row_pixels src xScaled py alpha01 n : forall j q d,
  fst (resize_row src xScaled py alpha01 n j q d)
  = pixel_loop (fun j d q => fst (resize_row src xScaled py alpha01 1 j q d))
      1 (3 + alpha01) n j q d.
Proof using.
  induction n as [|n IH]; intros j q d; [reflexivity|].
  cbn [resize_row pixel_loop fst]. rewrite IH.
  now replace (q + 3 + alpha01) with (q + (3 + alpha01)) by lia.
Qed.

Lemma resize_row_writer src xScaled py alpha01 :
  pixel_writer (fun j d q => fst (resize_row src xScaled py alpha01 1 j q d)).
Proof using.
  intros j. cbn [resize_row fst]. do 3 eexists. intros d q. reflexivity.
Qed.

(** The bytes of the output pixel in row [r] and column [j]. *)
Lemma resize_rows_slot src xScaled yRatio w1Scanline w2 alpha01 n :
  forall i q d (r j : nat) c,
    0 <= alpha01 -> (r < n)%nat -> (j < Z.to_nat w2)%nat -> 0 <= c < 3 ->
    0 <= q + (Z.of_nat r * w2 + Z.of_nat j) * (3 + alpha01) + c
      < Z.of_nat (length d) ->
    JS.get (resize_rows src xScaled yRatio w1Scanline w2 alpha01 n i q d)
           (q + (Z.of_nat r * w2 + Z.of_nat j) * (3 + alpha01) + c)
    = JS.get (fst (resize_row src xScaled
                     (JS.Math_floor (JS.Z2F (i + Z.of_nat r) * yRatio)
                      * JS.Z2F w1Scanline)%float
                     alpha01 1 (Z.of_nat j) 0 (zeros 3))) c.
Proof using.
  induction n as [|n IH]; intros i q d r j c Ha Hr Hj Hc Hin; [lia|].
  cbn [resize_rows].
  pose proof (resize_row_pixels src xScaled
                (JS.Math_floor (JS.Z2F i * yRatio) * JS.Z2F w1Scanline)%float
                alpha01 (Z.to_nat w2) 0 q d) as Hp.
  pose proof (resize_row_snd src xScaled
                (JS.Math_floor (JS.Z2F i * yRatio) * JS.Z2F w1Scanline)%float
                alpha01 (Z.to_nat w2) 0 q d) as Hq.
  pose proof (resize_row_length src xScaled
                (JS.Math_floor (JS.Z2F i * yRatio) * JS.Z2F w1Scanline)%float
                alpha01 (Z.to_nat w2) 0 q d) as Hl.
  destruct (resize_row _ _ _ _ _ _ _ _) as [d' q']. cbn [fst snd] in Hp, Hq, Hl.
  assert (Hw : Z.of_nat (Z.to_nat w2) = w2) by lia.
  destruct r as [|r].
  - cbn [Z.of_nat] in *. rewrite Z.mul_0_l, Z.add_0_l, Z.add_0_r in *.
    rewrite resize_rows_frame.
    + rewrite Hp.
      rewrite (pixel_loop_slot _ _ _ (resize_row_writer src xScaled _ alpha01));
        [ | lia | exact Hj | exact Hc | exact Hin ].
      now rewrite Z.add_0_l, Z.mul_1_r.
    + intros k c' Hk Hc' E. subst q'. rewrite Hw in E. nia.
  - subst q'. rewrite Hw.
    replace (q + (Z.of_nat (S r) * w2 + Z.of_nat j) * (3 + alpha01) + c)
      with (q + w2 * (3 + alpha01)
            + (Z.of_nat r * w2 + Z.of_nat j) * (3 + alpha01) + c) in * by lia.
    rewrite IH; [ | exact Ha | lia | exact Hj | exact Hc | rewrite Hl; exact Hin ].
    now replace (i + 1 + Z.of_nat r) with (i + Z.of_nat (S r)) by lia.
Qed.

Lemma xScaled_entry_identity (j : Z) :
  0 <= j <= 21845 -> xScaled_entry 1 j = 3 * j.
Proof using.
  intros Hj. unfold xScaled_entry.
  assert (P53 : 2 ^ 53 = 9007199254740992) by reflexivity.
  change 1%float with (JS.Z2F 1). change 3%float with (JS.Z2F 3).
  rewrite Z2F_mul by lia. rewrite Math_floor_Z2F by lia.
  rewrite Z2F_mul by lia. unfold JS.ToUint16.
  rewrite ToInteger_Z2F by lia. rewrite Z.mod_small by lia. lia.
Qed.

Lemma getAt_Z2F (src : list Z) (k : Z) :
  0 <= k < 2 ^ 53 -> getAt src (JS.Z2F k) = JS.get src k.
Proof using. intros Hk. unfold getAt. now rewrite F2Z_Z2F. Qed.

(** The copy, pixel by pixel. *)
Lemma resize_identity_pixel src dest w h alpha01 p c :
  Forall byte src ->
  0 < w <= 21846 -> 0 < h ->
  3 * w * h <= Z.of_nat (length src) -> Z.of_nat (length src) < 2 ^ 53 ->
  0 <= p < w * h -> 0 <= c < 3 ->
  slot 0 (normalized alpha01) p c < Z.of_nat (length dest) ->
  JS.get (dest_of (resizeRgbImage src dest w h w h alpha01))
         (slot 0 (normalized alpha01) p c)
  = JS.get src (3 * p + c).
Proof using.
  intros Hb Hw Hh Hsrc H53 Hp Hc Hroom.
  assert (P53 : 2 ^ 53 = 9007199254740992) by reflexivity.
  unfold resizeRgbImage. cbv zeta.
  replace (w <? 0) with false by (symmetry; apply Z.ltb_ge; lia).
  cbn [dest_of].
  replace (if negb (alpha01 =? 1) then 0 else alpha01) with (normalized alpha01)
    by (unfold normalized; destruct (Z.eqb_spec alpha01 1); subst; reflexivity).
  assert (Ha : 0 <= normalized alpha01 <= 1)
    by (unfold normalized; destruct (alpha01 =? 1); lia).
  set (a := normalized alpha01) in *.
  rewrite !Z2F_div_self by lia.
  set (r := p / w). set (j := p mod w).
  pose proof (Z.div_mod p w ltac:(lia)) as Hpj. fold r j in Hpj.
  pose proof (Z.mod_pos_bound p w ltac:(lia)) as Hjb. fold j in Hjb.
  assert (Hr0 : 0 <= r) by (apply Z.div_pos; lia).
  assert (Hrh : r < h) by (apply Z.div_lt_upper_bound; lia).
  unfold slot in *.
  replace (0 + p * (3 + a) + c)
    with (0 + (Z.of_nat (Z.to_nat r) * w + Z.of_nat (Z.to_nat j)) * (3 + a) + c)
    in * by (rewrite !Z2Nat.id by lia; rewrite Hpj; ring).
  rewrite resize_rows_slot; [ | lia | lia | lia | exact Hc | ].
  2:{ split; [|exact Hroom]. rewrite !Z2Nat.id by lia. nia. }
  rewrite !Z2Nat.id, Z.add_0_l by lia.
  cbn [resize_row fst].
  pose proof (xScaled_loop_get 1 (Z.to_nat w) 0 (zeros w) (Z.to_nat j)
                ltac:(lia) ltac:(lia)) as Hx.
  rewrite Z.add_0_l, Z2Nat.id in Hx by lia.
  rewrite Hx by (unfold zeros; rewrite repeat_length; lia).
  rewrite xScaled_entry_identity by lia. cbn [JS.NumZ].
  change 1%float with (JS.Z2F 1).
  assert (Hrw : 0 <= r * (w * 3) /\ r * (w * 3) + 3 * j + 2 < 3 * w * h) by nia.
  rewrite (Z2F_mul r 1) by lia. rewrite Math_floor_Z2F by lia.
  rewrite (Z2F_mul (r * 1) (w * 3)) by nia.
  rewrite (Z2F_add (r * 1 * (w * 3)) (3 * j)) by nia.
  rewrite (Z2F_add (r * 1 * (w * 3) + 3 * j) 1) by nia.
  rewrite (Z2F_add (r * 1 * (w * 3) + 3 * j + 1) 1) by nia.
  rewrite !getAt_Z2F by nia.
  replace (r * 1 * (w * 3) + 3 * j) with (3 * p) by (rewrite Hpj; ring).
  assert (Hg : forall x, 0 <= x < 3 ->
             exists v, JS.get src (3 * p + x) = Some v /\ byte v).
  { intros x Hx3. destruct (get_inside src (3 * p + x) ltac:(nia)) as (v & Hv).
    exists v. split; [exact Hv|].
    exact (proj1 (Forall_forall _ _) Hb v (get_In _ _ _ Hv)). }
  destruct (Hg 0 ltac:(lia)) as (v0 & G0 & B0).
  destruct (Hg 1 ltac:(lia)) as (v1 & G1 & B1).
  destruct (Hg 2 ltac:(lia)) as (v2 & G2 & B2).
  rewrite Z.add_0_r in G0.
  replace (3 * p + 1 + 1) with (3 * p + 2) by lia.
  rewrite G0, G1, G2. cbn [JS.NumZ].
  rewrite store3_zeros, !clamp_byte by assumption.
  assert (Hc' : c = 0 \/ c = 1 \/ c = 2) by lia.
  destruct Hc' as [-> | [-> | ->]]; rewrite ?Z.add_0_r; symmetry; assumption.
Qed.

(** X23. At the size of the source, [resizeRgbImage] copies: for an image
    of [w] by [h] pixels with [w] at most 21846 (so that every byte offset
    in a row fits the Uint16Array [xScaled]), component [c] of output
    pixel [p] is [src[3 * p + c]], stored at [p * (3 + a) + c] where [a] is
    the normalized [alpha01]. *)
Theorem resizeRgbImage_identity src dest w h alpha01 p c :
  Forall byte src ->
  0 < w <= 21846 -> 0 < h ->
  3 * w * h <= Z.of_nat (length src) -> Z.of_nat (length src) < 2 ^ 53 ->
  0 <= p < w * h -> 0 <= c < 3 ->
  slot 0 (normalized alpha01) p c < Z.of_nat (length dest) ->
  JS.get (dest_of (resizeRgbImage src dest w h w h alpha01))
         (slot 0 (normalized alpha01) p c)
  = JS.get src (3 * p + c).
Proof using.
  intros Hb Hw Hh Hsrc H53 Hp Hc Hroom.
  exact (resize_identity_pixel src dest w h alpha01 p c
           Hb Hw Hh Hsrc H53 Hp Hc Hroom).
Qed.

(** ** fillRgb through the colour map *)

Lemma shl_1_small (bpc : Z) : 1 <= bpc <= 8 -> JS.shl 1 bpc = 2 ^ bpc.
Proof using.
  intros H.
  assert (Hb : bpc = 1 \/ bpc = 2 \/ bpc = 3 \/ bpc = 4 \/ bpc = 5 \/ bpc = 6
               \/ bpc = 7 \/ bpc = 8) by lia.
  repeat (destruct Hb as [->|Hb]; [reflexivity|]). subst bpc. reflexivity.
Qed.

Lemma pow2_small (bpc : Z) : 1 <= bpc <= 8 -> 2 <= 2 ^ bpc <= 256.
Proof using.
  intros H.
  assert (Hb : bpc = 1 \/ bpc = 2 \/ bpc = 3 \/ bpc = 4 \/ bpc = 5 \/ bpc = 6
               \/ bpc = 7 \/ bpc = 8) by lia.
  repeat (destruct Hb as [->|Hb]; [cbn; lia|]). subst bpc. cbn. lia.
Qed.

Lemma allColors_loop_length wrap n : forall i xs,
  length (allColors_loop wrap n i xs) = length xs.
Proof using.
  induction n as [|n IH]; intros i xs; cbn [allColors_loop]; [reflexivity|].
  rewrite IH. apply put_length.
Qed.

Lemma allColors_loop_below wrap n : forall i xs k,
  k < i -> JS.get (allColors_loop wrap n i xs) k = JS.get xs k.
Proof using.
  induction n as [|n IH]; intros i xs k Hk; cbn [allColors_loop]; [reflexivity|].
  rewrite IH by lia. apply get_put_other. lia.
Qed.

Lemma allColors_loop_get wrap n : forall i xs (j : nat),
  (j < n)%nat -> 0 <= i -> i + Z.of_nat j < Z.of_nat (length xs) ->
  JS.get (allColors_loop wrap n i xs) (i + Z.of_nat j)
  = Some ((i + Z.of_nat j) mod wrap).
Proof using.
  induction n as [|n IH]; intros i xs j Hj Hi Hlen; [lia|].
  cbn [allColors_loop]. destruct j as [|j].
  - rewrite Z.add_0_r in *. rewrite allColors_loop_below by lia.
    apply get_put_same. lia.
  - replace (i + Z.of_nat (S j)) with (i + 1 + Z.of_nat j) by lia.
    apply IH; [lia | lia | rewrite put_length; lia].
Qed.

Lemma map_dest_loop_pixels colorMap comps alpha01 n : forall i q d,
  map_dest_loop colorMap comps alpha01 n i q d
  = pixel_loop (fun i d q => map_dest_loop colorMap comps alpha01 1 i q d)
      1 (3 + alpha01) n i q d.
Proof using.
  induction n as [|n IH]; intros i q d; [reflexivity|].
  cbn [map_dest_loop pixel_loop]. rewrite IH.
  now replace (q + 3 + alpha01) with (q + (3 + alpha01)) by lia.
Qed.

Lemma map_dest_loop_writer colorMap comps alpha01 :
  pixel_writer (fun i d q => map_dest_loop colorMap comps alpha01 1 i q d).
Proof using.
  intros i. cbn [map_dest_loop]. do 3 eexists. intros d q. reflexivity.
Qed.

(** Every position is a slot of one of the pixels or of none. *)
Lemma rgb_slot_dec q count alpha01 i :
  0 <= alpha01 ->
  (exists k c, 0 <= k < count /\ 0 <= c < 3 /\ i = slot q alpha01 k c)
  \/ ~ rgb_slot q count alpha01 i.
Proof using.
  intros Ha.
  pose proof (Z.div_mod (i - q) (3 + alpha01) ltac:(lia)) as Hdm.
  pose proof (Z.mod_pos_bound (i - q) (3 + alpha01) ltac:(lia)) as Hmb.
  set (k := (i - q) / (3 + alpha01)) in *.
  set (c := (i - q) mod (3 + alpha01)) in *.
  destruct (Z_lt_le_dec k 0) as [Hk0|Hk0];
    [|destruct (Z_lt_le_dec k count) as [Hk1|Hk1];
      [destruct (Z_lt_le_dec c 3) as [Hc|Hc]|]].
  - right. intros (k' & c' & Hk' & Hc' & E). unfold slot in E. nia.
  - left. exists k, c. unfold slot. repeat split; lia.
  - right. intros (k' & c' & Hk' & Hc' & E). unfold slot in E.
    assert (k' = k) by nia. subst k'. lia.
  - right. intros (k' & c' & Hk' & Hc' & E). unfold slot in E. nia.
Qed.

(** X24. The colour-map optimization of [fillRgb] is sound for palettes of
    RGB bytes: on a raster of an Indexed space over DeviceRGB with [bpc] from
    1 to 8 that is decoded in full and not resized, the path that first
    converts all [2^bpc] sample values and then maps the samples fills
    [dest] exactly as the direct call of [getRgbBuffer] on the samples
    does, when every sample selects an entry inside the palette and [dest]
    has room. *)
Theorem fillRgb_colorMap_is_direct highVal lookup dest width height bpc comps alpha01 :
  Forall byte lookup ->
  1 <= bpc <= 8 -> 0 <= alpha01 <= 1 ->
  2 ^ bpc < width * height ->
  width * height * (3 + alpha01) <= Z.of_nat (length dest) ->
  Z.of_nat (length dest) < 2 ^ 53 ->
  (forall i, 0 <= i < width * height ->
     exists s, JS.get comps i = Some s
               /\ 0 <= s < 2 ^ bpc /\ 3 * s + 3 <= Z.of_nat (length lookup)) ->
  fillRgb (IndexedCS DeviceRgbCS highVal lookup) dest width height width height
    height bpc comps alpha01
  = getRgbBuffer (IndexedCS DeviceRgbCS highVal lookup) comps 0 (width * height)
      dest 0 bpc alpha01.
Proof using.
  intros Hb Hbpc Ha Hcount Hroom H53 Hs.
  pose proof (pow2_small bpc Hbpc) as HN.
  assert (P53 : 2 ^ 53 = 9007199254740992) by reflexivity.
  set (cs := IndexedCS DeviceRgbCS highVal lookup).
  set (count := width * height) in *.
  set (N := 2 ^ bpc) in *.
  (* the direct call *)
  destruct (Indexed_DeviceRgb_pixels highVal lookup comps 0 count dest 0 bpc
              alpha01 Hb Ha ltac:(lia) ltac:(lia) ltac:(lia) H53)
    as (out & Hout & Hpix & Hframe).
  fold cs in Hout. rewrite Hout.
  (* the colour map *)
  set (allColors := allColors_loop (if bpc <=? 8 then 256 else 65536)
                      (Z.to_nat N) 0 (zeros N)).
  destruct (Indexed_DeviceRgb_pixels highVal lookup allColors 0 N (zeros (N * 3))
              0 bpc 0 Hb ltac:(lia) ltac:(lia) ltac:(lia)
              ltac:(unfold zeros; rewrite repeat_length; lia)
              ltac:(unfold zeros; rewrite repeat_length; lia))
    as (cm & Hcm & Hcmpix & _).
  fold cs in Hcm.
  assert (Hall : forall k, 0 <= k < N -> JS.get allColors k = Some k).
  { intros k Hk. unfold allColors.
    pose proof (allColors_loop_get (if bpc <=? 8 then 256 else 65536)
                  (Z.to_nat N) 0 (zeros N) (Z.to_nat k) ltac:(lia) ltac:(lia)) as H.
    rewrite Z.add_0_l, Z2Nat.id in H by lia.
    rewrite H by (unfold zeros; rewrite repeat_length; lia).
    replace (bpc <=? 8) with true by (symmetry; apply Z.leb_le; lia).
    now rewrite Z.mod_small by lia. }
  unfold fillRgb. cbv zeta. fold cs.
  cbn [isPassthrough cs numComps name].
  rewrite !Z.eqb_refl. cbn [negb orb andb String.eqb Ascii.eqb Bool.eqb].
  rewrite shl_1_small by exact Hbpc. fold N. fold count.
  replace (N <? count) with true by (symmetry; apply Z.ltb_lt; lia).
  replace (N <? 0) with false by (symmetry; apply Z.ltb_ge; lia).
  cbv iota. fold allColors. fold cs. rewrite Hcm.
  apply (f_equal Normal). apply get_ext. intros i.
  rewrite map_dest_loop_pixels.
  destruct (rgb_slot_dec 0 count alpha01 i ltac:(lia)) as [(k & c & Hk & Hc & ->)|Hn].
  - destruct (Hs k Hk) as (s & Hsk & Hs0 & Hs3).
    rewrite (Hpix k c s Hk Hc) by (rewrite ?Z.add_0_l; assumption || lia).
    unfold slot.
    assert (Hk1 : k * (3 + alpha01) + (3 + alpha01) <= count * (3 + alpha01)) by nia.
    assert (Hk0 : 0 <= k * (3 + alpha01)) by nia.
    replace k with (Z.of_nat (Z.to_nat k)) in * by lia.
    rewrite (pixel_loop_slot _ _ _ (map_dest_loop_writer cm comps alpha01));
      [ | lia | lia | lia | lia ].
    rewrite Z.add_0_l, Z.mul_1_r. cbn [map_dest_loop].
    unfold colorAt. rewrite Hsk.
    assert (Hg : forall x, 0 <= x < 3 ->
               exists v, JS.get cm (s * 3 + x) = Some v
                         /\ JS.get lookup (3 * s + x) = Some v /\ byte v).
    { intros x Hx.
      pose proof (Hcmpix s x s ltac:(lia) Hx ltac:(rewrite Z.add_0_l; apply Hall; lia)
                    ltac:(lia) Hs3) as Hv.
      unfold slot in Hv. replace (0 + s * (3 + 0) + x) with (s * 3 + x) in Hv by lia.
      destruct (get_inside lookup (3 * s + x) ltac:(lia)) as (v & Hlv).
      exists v. rewrite Hv, Hlv. split; [reflexivity|]. split; [reflexivity|].
      exact (proj1 (Forall_forall _ _) Hb v (get_In _ _ _ Hlv)). }
    destruct (Hg 0 ltac:(lia)) as (v0 & C0 & L0 & B0).
    destruct (Hg 1 ltac:(lia)) as (v1 & C1 & L1 & B1).
    destruct (Hg 2 ltac:(lia)) as (v2 & C2 & L2 & B2).
    rewrite C0, C1, C2. cbn [JS.NumZ].
    rewrite store3_zeros, !clamp_byte by assumption.
    assert (Hc' : c = 0 \/ c = 1 \/ c = 2) by lia.
    destruct Hc' as [-> | [-> | ->]]; symmetry; assumption.
  - rewrite (Hframe i Hn).
    apply (pixel_loop_frame _ _ _ (map_dest_loop_writer cm comps alpha01)).
    now apply not_slot_loop.
Qed.

(** ** fillRgb stores bytes *)

Lemma resize_row_ok src xScaled py alpha01 n : forall j q d d0,
  writes_bytes d0 d ->
  writes_bytes d0 (fst (resize_row src xScaled py alpha01 n j q d)).
Proof using.
  induction n as [|n IH]; intros j q d d0 H; cbn [resize_row fst]; [exact H|].
  apply IH. stores.
Qed.

Lemma resize_rows_ok src xScaled yRatio w1Scanline w2 alpha01 n :
  forall i q d d0,
    writes_bytes d0 d ->
    writes_bytes d0 (resize_rows src xScaled yRatio w1Scanline w2 alpha01 n i q d).
Proof using.
  induction n as [|n IH]; intros i q d d0 H; cbn [resize_rows]; [exact H|].
  pose proof (resize_row_ok src xScaled
                (JS.Math_floor (JS.Z2F i * yRatio) * JS.Z2F w1Scanline)%float
                alpha01 (Z.to_nat w2) 0 q d d0 H) as Hr.
  destruct (resize_row _ _ _ _ _ _ _ _) as [d' q']. cbn [fst] in Hr.
  now apply IH.
Qed.

Lemma resizeRgbImage_ok src d w1 h1 w2 h2 alpha01 d0 :
  writes_bytes d0 d ->
  writes_bytes d0 (dest_of (resizeRgbImage src d w1 h1 w2 h2 alpha01)).
Proof using.
  intros H. unfold resizeRgbImage. cbv zeta.
  destruct (w2 <? 0); cbn [dest_of]; [exact H|]. now apply resize_rows_ok.
Qed.


Lemma copy_loop_ok rgbBuf alpha01 n : forall dp rp d d0,
  writes_bytes d0 d -> writes_bytes d0 (copy_loop rgbBuf alpha01 n dp rp d).
Proof using.
  induction n as [|n IH]; intros dp rp d d0 H; cbn [copy_loop]; [exact H|].
  apply IH. stores.
Qed.

Lemma map_dest_loop_ok colorMap comps alpha01 n : forall i q d d0,
  writes_bytes d0 d ->
  writes_bytes d0 (map_dest_loop colorMap comps alpha01 n i q d).
Proof using.
  induction n as [|n IH]; intros i q d d0 H; cbn [map_dest_loop]; [exact H|].
  apply IH. stores.
Qed.

Lemma fillRgb_finish_ok rgbBuf d ow oh w h ah alpha01 resizing :
  writes_bytes d (dest_of (fillRgb_finish rgbBuf d ow oh w h ah alpha01 resizing)).
Proof using.
  unfold fillRgb_finish. destruct resizing.
  - apply resizeRgbImage_ok, writes_bytes_refl.
  - cbn [dest_of]. apply copy_loop_ok, writes_bytes_refl.
Qed.

(** X25. Whatever the colour space, the sizes and the samples, and on every
    one of its paths (passthrough, colour map, direct, with and without
    resizing, normal return and exception), [fillRgb] leaves [dest] with its
    length, and every element of it is the one that was there or lies in
    [0, 255]. *)
Theorem fillRgb_writes_bytes cs dest originalWidth originalHeight width height
    actualHeight bpc comps alpha01 :
  writes_bytes dest
    (dest_of (fillRgb cs dest originalWidth originalHeight width height
                actualHeight bpc comps alpha01)).
Proof using.
  unfold fillRgb. cbv zeta.
  destruct (isPassthrough cs bpc); [apply fillRgb_finish_ok|].
  match goal with |- context [if ?c then _ else _] => destruct c end.
  - destruct (JS.shl 1 bpc <? 0); [apply writes_bytes_refl|].
    destruct (getRgbBuffer cs _ 0 (JS.shl 1 bpc) _ 0 bpc 0) as [colorMap|e colorMap];
      [|apply writes_bytes_refl].
    destruct (negb _).
    + cbn [dest_of]. apply map_dest_loop_ok, writes_bytes_refl.
    + destruct (_ <? 0); [apply writes_bytes_refl | apply fillRgb_finish_ok].
  - destruct (negb _).
    + apply (proj2 (getRgb_ok cs)), writes_bytes_refl.
    + destruct (_ <? 0); [apply writes_bytes_refl|].
      destruct (getRgbBuffer cs comps 0 _ _ 0 bpc 0) as [rgbBuf|e rgbBuf];
        [apply fillRgb_finish_ok | apply writes_bytes_refl].
Qed.

(** ** The palette that the constructor of IndexedCS stores *)







(** ** An Indexed descriptor, from the array to the palette *)



End Engine.

(** * Instances of the conditional statements *)

Lemma C1_isDefaultDecode_witness :
  isDefaultDecode (Some [0%float; 1%float; 0%float; 1%float; 0%float; 1%float]) 3
  = (true, [])
  /\ isDefaultDecode (Some [0%float; 1%float; 0.5%float; 1%float; 0%float; 1%float]) 3
     = (false, []).
Proof.
  pose proof (C1_isDefaultDecode 3 ltac:(lia)) as (H1 & _ & H3 & _).
  split; [exact H1|].
  apply H3; [reflexivity|].
  simpl. unfold JS.seq. intros (_ & _ & H & _). vm_compute in H. discriminate.
Defined.

(** A stand-in for [Math.pow] and one for the function factory, to
    instantiate the statements that hold for every one of them. *)
Definition pow_instance (x y : float) : float := x.
Definition create_instance (fn : jsval) : exn + TintFn := inr (fun _ _ => []).

Lemma C4_indexed_lookup_stored_witness :
  exists l,
    IndexedCS_new DeviceRgbCS 2 (LookupString [255; 0; 0; 0; 255; 0])
    = inr (IndexedCS DeviceRgbCS 2 l)
    /\ Forall byte l
    /\ Z.of_nat (length l) = 6.
Proof.
  destruct (C4_indexed_lookup_stored DeviceRgbCS 2
              (LookupString [255; 0; 0; 0; 255; 0]) I) as [H _].
  destruct (H _ eq_refl) as (l & Hl & Hb & Hlen).
  exists l. split; [now rewrite <- Hl | split; [exact Hb | exact Hlen]].
Defined.


Lemma C5_passthrough_copy_witness :
  getRgbBuffer pow_instance DeviceRgbCS [10; 20; 30; 40; 50; 60] 0 2
    [1; 1; 1; 1; 1; 1; 1] 0 8 0
  = Normal [10; 20; 30; 40; 50; 60; 1].
Proof.
  apply (proj2 (C5_passthrough_copy pow_instance)
           [10; 20; 30; 40; 50; 60] 0 2 [1; 1; 1; 1; 1; 1; 1] 0).
  - repeat constructor; unfold byte; lia.
  - lia.
  - lia.
  - lia.
  - simpl; lia.
  - simpl; lia.
Defined.

Lemma C6_indexed_item_witness :
  getRgbItem pow_instance (IndexedCS DeviceRgbCS 2 [255; 0; 0; 0; 255; 0])
    [1%float] 0 (zeros 3) 0
  = getRgbBuffer pow_instance DeviceRgbCS [255; 0; 0; 0; 255; 0] (1 * 3) 1
      (zeros 3) 0 8 0.
Proof.
  apply (C6_indexed_item pow_instance DeviceRgbCS 2 [255; 0; 0; 0; 255; 0]
           [1%float] 0 1%float 1 (zeros 3) 0).
  - reflexivity.
  - vm_compute. reflexivity.
  - lia.
Defined.

(** [[/ICCBased stream]] with [N = 4] and the Alternate [/DeviceRGB], whose
    three components do not match. *)
Definition icc_mismatch : list pdfobj :=
  [PName "ICCBased";
   PStream [("N"%string, PNum 4); ("Alternate"%string, PName "DeviceRGB")]
           (fun _ => [])].

Lemma C7_parse_ICCBased_witness :
  parseToIR create_instance 2 (Some (PArray icc_mismatch)) (fun _ => PNull) None
  = ([Warn "ICCBased color space: Ignoring incorrect /Alternate entry."],
     inr IR_DeviceCmykCS).
Proof.
  pose proof (C7_parse_ICCBased create_instance 1 (fun _ => PNull) None
                icc_mismatch
                [("N"%string, PNum 4); ("Alternate"%string, PName "DeviceRGB")]
                (fun _ => []) eq_refl eq_refl) as H.
  cbv zeta in H. destruct H as [_ H].
  destruct (H eq_refl) as [_ H2].
  destruct (H2 [] IR_DeviceRgbCS eq_refl) as [_ H3].
  destruct (H3 [] DeviceRgbCS eq_refl) as [_ H4].
  destruct H4 as [H5 _]; [vm_compute; reflexivity|].
  exact H5.
Defined.

(** Parsing follows an indirect reference to the stream, and an Indexed
    descriptor is parsed and built with fuel 2. *)
Example parse_ICCBased_by_reference :
  parseToIR create_instance 1 (Some (PArray [PName "ICCBased"; PRef 5]))
    (fun _ => PStream [("N"%string, PNum 1)] (fun _ => [])) None
  = ([], inr IR_DeviceGrayCS).
Proof. vm_compute. reflexivity. Qed.

Example parse_Indexed :
  parse create_instance 2
    (Some (PArray [PName "Indexed"; PName "DeviceRGB"; PNum 1;
                   PString [255; 0; 0; 0; 255; 0]]))
    (fun _ => PNull) None
  = ([], inr (IndexedCS DeviceRgbCS 2 [255; 0; 0; 0; 255; 0])).
Proof. vm_compute. reflexivity. Qed.

(** A Stream palette reaches the constructor as the Uint8Array that
    [getBytes()] returns, whatever its length: here 5 bytes for a palette of
    2 RGB entries. *)
Example parse_Indexed_stream_unsized :
  parse create_instance 2
    (Some (PArray [PName "Indexed"; PName "DeviceRGB"; PNum 1;
                   PStream [] (fun _ => [255; 0; 0; 0; 255])]))
    (fun _ => PNull) None
  = ([], inr (IndexedCS DeviceRgbCS 2 [255; 0; 0; 0; 255])).
Proof. vm_compute. reflexivity. Qed.

(** ** Instances of the further properties *)

(** The D50 white point, as a CalGray, a CalRGB and a Lab dictionary give it. *)
Definition white_D50 : list float := [0.9642; 1; 0.8249]%float.




(** A range of two numbers passes the check of [new LabCS]: [bmin] and
    [bmax] are [undefined], no comparison with them holds, and the instance
    keeps them. *)
Example LabCS_new_short_range :
  exists p, LabCS_new (Some white_D50) None (Some [(-10)%float; 10%float])
            = ([], inr (LabCS p))
            /\ PrimFloat.is_nan (Lab.bmin p) = true
            /\ (Lab.bmin p <=? Lab.bmax p)%float = false.
Proof. eexists. split; [vm_compute; reflexivity|]. split; reflexivity. Qed.

Lemma fromIR_class_witness :
  IR_name (IR_IndexedCS IR_DeviceRgbCS 2 (LookupString [255; 0; 0; 0; 255; 0]))
  = Some (name (IndexedCS DeviceRgbCS 2 [255; 0; 0; 0; 255; 0]))
  /\ IR_numComps (IR_IndexedCS IR_DeviceRgbCS 2 (LookupString [255; 0; 0; 0; 255; 0]))
     = numComps (IndexedCS DeviceRgbCS 2 [255; 0; 0; 0; 255; 0]).
Proof.
  apply (fromIR_class
           (IR_IndexedCS IR_DeviceRgbCS 2 (LookupString [255; 0; 0; 0; 255; 0]))
           []).
  vm_compute. reflexivity.
Defined.

Lemma parseToIR_known_witness :
  IR_known (IR_IndexedCS IR_DeviceRgbCS 2 (LookupString [255; 0; 0; 0; 255; 0])).
Proof.
  apply (parseToIR_known create_instance 2
           (Some (PArray [PName "Indexed"; PName "DeviceRGB"; PNum 1;
                          PString [255; 0; 0; 0; 255; 0]]))
           (fun _ => PNull) None []).
  vm_compute. reflexivity.
Defined.

Lemma getOutputLength_throws_iff_pattern_witness :
  getOutputLength (IndexedCS (PatternCS None) 2 []) 1 0
  = inl (UnreachableError "Should not call ColorSpace.getOutputLength")
  /\ exists len, getOutputLength (IndexedCS DeviceRgbCS 2 []) 1 0 = inr len.
Proof.
  split.
  - apply (proj1 (getOutputLength_throws_iff_pattern
                    (IndexedCS (PatternCS None) 2 []) 1 0)).
    reflexivity.
  - apply (proj2 (getOutputLength_throws_iff_pattern
                    (IndexedCS DeviceRgbCS 2 []) 1 0)).
    reflexivity.
Defined.

Lemma getRgb_three_bytes_witness :
  length [255; 128; 0] = 3%nat /\ Forall byte [255; 128; 0].
Proof.
  apply (getRgb_three_bytes pow_instance DeviceRgbCS [1; 0.5; 0]%float 0).
  vm_compute. reflexivity.
Defined.

(** Three gray samples converted into an RGBA buffer. *)
Lemma getRgbBuffer_pixel_witness :
  JS.get (dest_of (getRgbBuffer pow_instance DeviceGrayCS [0; 128; 255] 0 3
                     (zeros 12) 0 8 1)) (slot 0 1 1 2)
  = JS.get (dest_of (getRgbBuffer pow_instance DeviceGrayCS [0; 128; 255]
                       (0 + 1 * countOf (numComps DeviceGrayCS)) 1
                       (zeros 3) 0 8 1)) 2.
Proof.
  apply (getRgbBuffer_pixel pow_instance DeviceGrayCS [0; 128; 255] 0 3
           (zeros 12) 0 8 1 1 2).
  - reflexivity.
  - reflexivity.
  - lia.
  - lia.
  - lia.
  - vm_compute. split; [discriminate | reflexivity].
Defined.

Lemma getRgbBuffer_frame_witness :
  JS.get (dest_of (getRgbBuffer pow_instance DeviceCmykCS [0; 0; 0; 255; 9; 9; 9; 9]
                     0 2 [1; 2; 3; 77; 5; 6; 7; 88] 0 8 1)) 7
  = JS.get [1; 2; 3; 77; 5; 6; 7; 88] 7.
Proof.
  apply (getRgbBuffer_frame pow_instance DeviceCmykCS [0; 0; 0; 255; 9; 9; 9; 9]
           0 2 [1; 2; 3; 77; 5; 6; 7; 88] 0 8 1 7).
  - reflexivity.
  - lia.
  - intros (k & c & Hk & Hc & E). unfold slot in E. lia.
Defined.

Lemma getRgbBuffer_chunks_witness :
  getRgbBuffer pow_instance DeviceGrayCS [0; 128; 255] 0 (1 + 2) (zeros 12) 0 8 1
  = getRgbBuffer pow_instance DeviceGrayCS [0; 128; 255]
      (0 + 1 * countOf (numComps DeviceGrayCS)) 2
      (dest_of (getRgbBuffer pow_instance DeviceGrayCS [0; 128; 255] 0 1
                  (zeros 12) 0 8 1))
      (0 + 1 * (3 + 1)) 8 1.
Proof.
  apply (getRgbBuffer_chunks pow_instance DeviceGrayCS [0; 128; 255] 0 1 2
           (zeros 12) 0 8 1).
  - reflexivity.
  - reflexivity.
  - lia.
  - lia.
Defined.

Lemma gray_is_neutral_witness :
  exists v, byte v /\
    forall c, 0 <= c < 3 ->
      JS.get (dest_of (getRgbBuffer pow_instance DeviceGrayCS [0; 128; 255] 0 3
                         (zeros 12) 0 8 1)) (slot 0 1 1 c)
      = Some v.
Proof.
  apply (proj2 (gray_is_neutral pow_instance DeviceGrayCS eq_refl)
           [0; 128; 255] 0 3 (zeros 12) 0 8 1 1).
  - lia.
  - lia.
  - vm_compute. discriminate.
  - vm_compute. reflexivity.
Defined.

(** A 2-bit gray sample 2 becomes 170. *)
Lemma DeviceGray_levels_witness :
  JS.get (dest_of (getRgbBuffer pow_instance DeviceGrayCS [0; 2; 3] 0 3
                     (zeros 12) 0 2 1)) (slot 0 1 1 0)
  = Some 170.
Proof.
  apply (DeviceGray_levels pow_instance [0; 2; 3] 0 3 (zeros 12) 0 2 1 1 2 0).
  - cbn [In]. auto.
  - lia.
  - lia.
  - lia.
  - reflexivity.
  - lia.
  - vm_compute. split; [discriminate | reflexivity].
Defined.

(** An 8-bit RGB pixel converted into an RGBA buffer keeps its bytes. *)
Lemma DeviceRgb_levels_witness :
  JS.get (dest_of (getRgbBuffer pow_instance DeviceRgbCS [10; 20; 30; 40; 50; 60]
                     0 2 (zeros 8) 0 8 1)) (slot 0 1 1 2)
  = Some (nearest (255 * 60) (2 ^ 8 - 1)).
Proof.
  apply (DeviceRgb_levels pow_instance [10; 20; 30; 40; 50; 60] 0 2 (zeros 8)
           0 8 1 1 60 2).
  - cbn [In]. auto.
  - reflexivity.
  - lia.
  - lia.
  - lia.
  - reflexivity.
  - lia.
  - vm_compute. split; [discriminate | reflexivity].
Defined.

Lemma getRgb_unit_round_trip_witness :
  getRgb pow_instance DeviceRgbCS
    [unit_of_byte 255; unit_of_byte 128; unit_of_byte 1] 0
  = inr [255; 128; 1].
Proof.
  apply (proj2 (getRgb_unit_round_trip pow_instance)
           [unit_of_byte 255; unit_of_byte 128; unit_of_byte 1] 0 255 128 1).
  - unfold byte. lia.
  - unfold byte. lia.
  - unfold byte. lia.
  - reflexivity.
  - reflexivity.
  - reflexivity.
Defined.

(** A raster of two by one pixels filled into an RGBA buffer. *)
Lemma fillRgb_passthrough_is_direct_witness :
  fillRgb pow_instance DeviceRgbCS (zeros 8) 2 1 2 1 1 8 [10; 20; 30; 40; 50; 60] 1
  = getRgbBuffer pow_instance DeviceRgbCS [10; 20; 30; 40; 50; 60] 0 (2 * 1)
      (zeros 8) 0 8 1.
Proof.
  apply (fillRgb_passthrough_is_direct pow_instance (zeros 8) 2 1 1
           [10; 20; 30; 40; 50; 60] 1).
  - repeat constructor; unfold byte; lia.
  - lia.
  - simpl. lia.
  - intros H. discriminate H.
Defined.

Lemma resizeRgbImage_samples_witness :
  samples_of [10; 20; 30; 40; 50; 60] (zeros 12)
    (dest_of (resizeRgbImage [10; 20; 30; 40; 50; 60] (zeros 12) 2 1 4 1 0)).
Proof.
  apply (resizeRgbImage_samples [10; 20; 30; 40; 50; 60] (zeros 12) 2 1 4 1 0).
  repeat constructor; unfold byte; lia.
Defined.

Lemma resizeRgbImage_frame_witness :
  JS.get (dest_of (resizeRgbImage [10; 20; 30; 40; 50; 60]
                     [1; 2; 3; 77; 5; 6; 7; 88] 2 1 2 1 1)) 7
  = JS.get [1; 2; 3; 77; 5; 6; 7; 88] 7.
Proof.
  apply (resizeRgbImage_frame [10; 20; 30; 40; 50; 60]
           [1; 2; 3; 77; 5; 6; 7; 88] 2 1 2 1 1 7).
  - lia.
  - lia.
  - intros (k & c & Hk & Hc & E). unfold slot, normalized in E. simpl in E. lia.
Defined.

(** A canvas library whose canvas is its size. *)
Definition canvas_instance : CanvasLib :=
  mkCanvasLib (float * float) unit
    (fun w h => (w, h)) (fun _ => tt)
    (fun c w => (w, snd c)) (fun c h => (fst c, h)).

Lemma canvas_life_cycle_witness :
  exists c0,
    @NodeCanvasFactory_destroy canvas_instance
      (@mkCanvasAndContext canvas_instance (Some (10, 20)%float) (Some tt))
    = inr (@mkCanvasAndContext canvas_instance None None, c0)
    /\ @NodeCanvasFactory_destroy canvas_instance
         (@mkCanvasAndContext canvas_instance None None)
       = inl (Assertion "Canvas is not specified").
Proof.
  destruct (canvas_life_cycle canvas_instance 10 20
              (@mkCanvasAndContext canvas_instance (Some (10, 20)%float) (Some tt))
              eq_refl)
    as (_ & _ & (c0 & Hd & _ & Hdd)).
  exists c0. split; [exact Hd | exact Hdd].
Defined.

Lemma getOutputLength_per_pixel_witness :
  getOutputLength (IndexedCS DeviceRgbCS 2 [255; 0; 0; 0; 255; 0])
    (JS.Z2F (5 * countOf (numComps (IndexedCS DeviceRgbCS 2 [255; 0; 0; 0; 255; 0]))))
    1
  = inr (JS.Z2F (5 * (3 + 1))).
Proof.
  apply (getOutputLength_per_pixel (IndexedCS DeviceRgbCS 2 [255; 0; 0; 0; 255; 0])
           5 1).
  - reflexivity.
  - lia.
  - lia.
  - reflexivity.
Defined.

(** Two samples of a gray palette of three entries, into an RGBA buffer. *)
Lemma Indexed_getRgbBuffer_palette_witness :
  exists out,
    getRgbBuffer pow_instance (IndexedCS DeviceGrayCS 3 [0; 128; 255]) [2; 0] 0 2
      (zeros 8) 0 8 1 = Normal out.
Proof.
  destruct (Indexed_getRgbBuffer_palette pow_instance DeviceGrayCS 3 [0; 128; 255]
              [2; 0] 0 2 (zeros 8) 0 8 1 eq_refl ltac:(lia) ltac:(lia) ltac:(lia)
              ltac:(vm_compute; discriminate) ltac:(vm_compute; reflexivity))
    as (out & H & _).
  exists out. exact H.
Defined.

Lemma Indexed_over_DeviceRgb_witness :
  exists out,
    getRgbBuffer pow_instance (IndexedCS DeviceRgbCS 2 [255; 0; 0; 0; 255; 0])
      [1; 0] 0 2 (zeros 6) 0 8 0 = Normal out
    /\ JS.get out (slot 0 0 0 1) = JS.get [255; 0; 0; 0; 255; 0] (3 * 1 + 1).
Proof.
  destruct (Indexed_over_DeviceRgb pow_instance 2 [255; 0; 0; 0; 255; 0]
              [1; 0] 0 2 (zeros 6) 0 8 0
              ltac:(repeat constructor; unfold byte; lia)
              ltac:(lia) ltac:(lia) ltac:(lia)
              ltac:(vm_compute; discriminate) ltac:(vm_compute; reflexivity))
    as (out & H & Hpix & _).
  exists out. split; [exact H|].
  apply (Hpix 0 1 1); [lia | lia | reflexivity | lia | vm_compute; discriminate].
Defined.

Lemma resizeRgbImage_identity_witness :
  JS.get (dest_of (resizeRgbImage [1; 2; 3; 4; 5; 6; 7; 8; 9; 10; 11; 12]
                     (zeros 12) 2 2 2 2 0)) (slot 0 (normalized 0) 3 1)
  = JS.get [1; 2; 3; 4; 5; 6; 7; 8; 9; 10; 11; 12] (3 * 3 + 1).
Proof.
  apply (resizeRgbImage_identity [1; 2; 3; 4; 5; 6; 7; 8; 9; 10; 11; 12]
           (zeros 12) 2 2 0 3 1).
  - repeat constructor; unfold byte; lia.
  - lia.
  - lia.
  - vm_compute. discriminate.
  - vm_compute. reflexivity.
  - lia.
  - lia.
  - vm_compute. reflexivity.
Defined.

(** Three one-bit samples of a palette of two colours. *)
Lemma fillRgb_colorMap_is_direct_witness :
  fillRgb pow_instance (IndexedCS DeviceRgbCS 2 [255; 0; 0; 0; 255; 0]) (zeros 9)
    3 1 3 1 1 1 [1; 0; 1] 0
  = getRgbBuffer pow_instance (IndexedCS DeviceRgbCS 2 [255; 0; 0; 0; 255; 0])
      [1; 0; 1] 0 (3 * 1) (zeros 9) 0 1 0.
Proof.
  apply (fillRgb_colorMap_is_direct pow_instance 2 [255; 0; 0; 0; 255; 0] (zeros 9)
           3 1 1 [1; 0; 1] 0).
  - repeat constructor; unfold byte; lia.
  - lia.
  - lia.
  - reflexivity.
  - vm_compute. discriminate.
  - vm_compute. reflexivity.
  - intros i Hi. assert (Hc : i = 0 \/ i = 1 \/ i = 2) by lia.
    destruct Hc as [-> | [-> | ->]]; eexists; (split; [reflexivity|]);
      (split; [split; [lia | reflexivity] | vm_compute; discriminate]).
Defined.


